(** * typetest: the typing-session engine and its word source

    A shallow embedding of the Go program (the final revision of [main.go]
    with [calculateAccuracy], and [word.go]) together with the parts of the
    Bubble Tea components it calls: the text input that holds the typed text
    and the cursor, and the count-down timer.

    Conventions of the embedding.
    - A Go [int] and a [time.Duration] are integers in [Z]; the program never
      comes near the 64-bit limits, so no wrap-around is written out.
    - A Go [string] is the list of its bytes.  The text is ASCII (the note in
      [View] says the program assumes so), hence a rune is one byte and the
      rune position kept by the text input is also a byte position.
    - A run-time panic (index or slice out of range, negative repeat count,
      [rand.Intn] on a non-positive bound) is the [Panic] outcome.
    - [float64] and [float32] are IEEE 754 binary64 and binary32, computed
      with the executable operations of [SpecFloat]; where a figure is
      compared with its formula, the formula is in exact arithmetic over
      [Z] and [Q]. *)

From Stdlib Require Import ZArith QArith Qpower Lqa Ascii String SpecFloat Lia.
From stdpp Require Import base option list gmap.

Open Scope Z_scope.
Set Warnings "-clear-no-such-hyp".

(** ** Outcomes of Go code that may panic *)

Inductive panic :=
  | IndexOutOfRange
  | SliceOutOfRange
  | NegativeRepeatCount
  | InvalidIntnArgument.

Inductive result (A : Type) :=
  | Ok (a : A)
  | Panic (p : panic).
Arguments Ok {A} a.
Arguments Panic {A} p.

#[global] Instance result_ret : MRet result := fun _ a => Ok a.
#[global] Instance result_bind : MBind result := fun _ _ f r =>
  match r with
  | Ok a => f a
  | Panic p => Panic p
  end.

Definition is_Ok {A} (r : result A) : bool :=
  match r with Ok _ => true | Panic _ => false end.

(** ** Go strings and the [strings] package *)

Abbreviation gostring := (list ascii).

Definition str (s : string) : gostring := list_ascii_of_string s.

Definition space : ascii := " "%char.
Definition newline : ascii := ascii_of_nat 10.

Definition len {A} (s : list A) : Z := Z.of_nat (length s).

(** [s[i]] *)
Definition index {A} (s : list A) (i : Z) : result A :=
  if (i <? 0) || (len s <=? i) then Panic IndexOutOfRange
  else match s !! Z.to_nat i with
       | Some c => Ok c
       | None => Panic IndexOutOfRange
       end.

(** [s[i:]] *)
Definition slice_from {A} (s : list A) (i : Z) : result (list A) :=
  if (i <? 0) || (len s <? i) then Panic SliceOutOfRange
  else Ok (drop (Z.to_nat i) s).

(** [s[:i]] *)
Definition slice_to {A} (s : list A) (i : Z) : result (list A) :=
  if (i <? 0) || (len s <? i) then Panic SliceOutOfRange
  else Ok (take (Z.to_nat i) s).

Definition ascii_eqb (a b : ascii) : bool := bool_decide (a = b).

Fixpoint has_prefix (s sep : gostring) {struct sep} : bool :=
  match sep, s with
  | [], _ => true
  | _ :: _, [] => false
  | c :: sep', d :: s' => ascii_eqb c d && has_prefix s' sep'
  end.

Fixpoint index_of (s sep : gostring) : option nat :=
  if has_prefix s sep then Some 0%nat
  else match s with
       | [] => None
       | _ :: s' => S <$> index_of s' sep
       end.

(** [strings.Index(s, sep)]: the first position of [sep] in [s], or -1. *)
Definition strings_Index (s sep : gostring) : Z :=
  match index_of s sep with
  | Some i => Z.of_nat i
  | None => -1
  end.

(** [strings.Repeat(s, count)] panics on a negative count. *)
Definition strings_Repeat (s : gostring) (count : Z) : result gostring :=
  if count <? 0 then Panic NegativeRepeatCount
  else Ok (concat (replicate (Z.to_nat count) s)).

(** [strings.Split(s, sep)] for a one-byte separator. *)
Fixpoint strings_Split (s : gostring) (sep : ascii) : list gostring :=
  match s with
  | [] => [[]]
  | c :: s' =>
      if ascii_eqb c sep then [] :: strings_Split s' sep
      else match strings_Split s' sep with
           | w :: ws => (c :: w) :: ws
           | [] => [[c]]
           end
  end.

(** [strings.Join(elems, sep)] *)
Fixpoint strings_Join (elems : list gostring) (sep : gostring) : gostring :=
  match elems with
  | [] => []
  | [w] => w
  | w :: ws => w ++ sep ++ strings_Join ws sep
  end.

(** ** [math/rand]

    The generator is an oracle: [rng i] is the raw value behind the [i]-th
    draw, and [rand.Intn(n)] reduces it into [0, n).  Draws are independent
    in that each one reads its own oracle cell. *)

Definition rand_Intn (raw : Z) (n : Z) : result Z :=
  if n <=? 0 then Panic InvalidIntnArgument
  else Ok (raw mod n).

(** ** word.go *)

Inductive error := ReadFileError.

(** [getWords(count)].  [file] is what [os.ReadFile("words.txt")] yields:
    [None] when the file cannot be read.  The Go function returns the pair
    (words, err). *)
Fixpoint getWords_loop (words : list gostring) (rng : nat -> Z)
    (i : nat) (count : nat) (selectedWords : list gostring)
    : result (list gostring) :=
  match count with
  | O => Ok selectedWords
  | S count' =>
      randIdx ← rand_Intn (rng i) (len words - 1);
      randWord ← index words randIdx;
      getWords_loop words rng (S i) count' (selectedWords ++ [randWord])
  end.

Definition getWords (file : option gostring) (rng : nat -> Z) (count : Z)
    : result (list gostring * option error) :=
  match file with
  | None => Ok ([], Some ReadFileError)
  | Some contents =>
      let words := strings_Split contents newline in
      selectedWords ← getWords_loop words rng 0%nat (Z.to_nat count) [];
      Ok (selectedWords, None)
  end.

(** The ghost text [main] builds from the selected words. *)
Definition ghost_of_words (words : list gostring) : gostring :=
  strings_Join words [space].

(** ** Bubble Tea messages and commands *)

(** The key types the program can tell apart or that act on its text input:
    the ones [Update] switches on, and the cursor and deletion keys that it
    leaves to the text input.  Keys are plain, without the Alt modifier. *)
Inductive Key :=
  | KeyCtrlC
  | KeyEsc
  | KeyBackspace
  | KeySpace
  | KeyRunes (runes : list ascii)
  | KeyLeft
  | KeyRight
  | KeyHome
  | KeyEnd
  | KeyDelete.

(** The runes a key message carries; the space key carries one space. *)
Definition Runes (k : Key) : list ascii :=
  match k with
  | KeyRunes runes => runes
  | KeySpace => [space]
  | _ => []
  end.

(** The keys that take the cursor back from the end of the text. *)
Definition backs_up (k : Key) : bool :=
  match k with
  | KeyLeft | KeyHome => true
  | _ => false
  end.

Inductive Msg :=
  | KeyMsg (k : Key)
  | TickMsg
  | OtherMsg.

(** The messages that leave a cursor at the end of the text there. *)
Definition keeps_end (msg : Msg) : Prop :=
  match msg with
  | KeyMsg k => backs_up k = false
  | _ => True
  end.

Inductive Cmd :=
  | CmdNil
  | CmdQuit
  | CmdTick
  | CmdTimeout
  | CmdBatch (c1 c2 : Cmd).

(** The input events of the session engine. *)
Definition Character (c : ascii) : Msg := KeyMsg (KeyRunes [c]).
Definition Space : Msg := KeyMsg KeySpace.
Definition Backspace : Msg := KeyMsg KeyBackspace.
Definition Quit : Msg := KeyMsg KeyEsc.

(** ** The text input component (bubbles/textinput)

    Only what the program uses: the value, the cursor, the focus flag, and
    the default key bindings for the keys above (backspace and delete remove
    the character before and at the cursor, left, right, home and end move
    the cursor, any other key inserts the runes it carries at the cursor).
    No character limit and no validator are set, and key messages carry
    printable characters, on which the input sanitizer is the identity. *)

Module textinput.

Record Model := mkModel {
  value : list ascii;
  pos : Z;
  focus : bool
}.

Definition New : Model := mkModel [] 0 false.

Definition Focus (m : Model) : Model := mkModel (value m) (pos m) true.

Definition Blur (m : Model) : Model := mkModel (value m) (pos m) false.

Definition Value (m : Model) : gostring := value m.

Definition Position (m : Model) : Z := pos m.

Definition clamp (v low high : Z) : Z :=
  let '(low, high) := if high <? low then (high, low) else (low, high) in
  Z.min high (Z.max low v).

Definition SetCursor (m : Model) (p : Z) : Model :=
  mkModel (value m) (clamp p 0 (len (value m))) (focus m).

Definition setValueInternal (m : Model) (runes : list ascii) : Model :=
  let empty := len (value m) =? 0 in
  let m1 := mkModel runes (pos m) (focus m) in
  if ((pos m1 =? 0) && empty) || (len (value m1) <? pos m1)
  then SetCursor m1 (len (value m1))
  else m1.

Definition SetValue (m : Model) (s : gostring) : Model :=
  setValueInternal m s.

Definition insertRunesFromUserInput (m : Model) (v : list ascii) : Model :=
  let head := take (Z.to_nat (pos m)) (value m) in
  let tail := drop (Z.to_nat (pos m)) (value m) in
  let m1 := mkModel (value m) (pos m + len v) (focus m) in
  setValueInternal m1 (head ++ v ++ tail).

Definition deleteCharacterBackward (m : Model) : Model :=
  if 0 <? len (value m) then
    let v := take (Z.to_nat (Z.max 0 (pos m - 1))) (value m)
               ++ drop (Z.to_nat (pos m)) (value m) in
    let m1 := mkModel v (pos m) (focus m) in
    if 0 <? pos m then SetCursor m1 (pos m - 1) else m1
  else m.

Definition deleteCharacterForward (m : Model) : Model :=
  if (0 <? len (value m)) && (pos m <? len (value m)) then
    mkModel (take (Z.to_nat (pos m)) (value m)
               ++ drop (Z.to_nat (pos m + 1)) (value m))
      (pos m) (focus m)
  else m.

Definition CursorStart (m : Model) : Model := SetCursor m 0.

Definition CursorEnd (m : Model) : Model := SetCursor m (len (value m)).

Definition Update (m : Model) (k : Key) : Model * Cmd :=
  if negb (focus m) then (m, CmdNil)
  else match k with
       | KeyBackspace => (deleteCharacterBackward m, CmdNil)
       | KeyLeft =>
           (if 0 <? pos m then SetCursor m (pos m - 1) else m, CmdNil)
       | KeyRight =>
           (if pos m <? len (value m) then SetCursor m (pos m + 1) else m,
            CmdNil)
       | KeyHome => (CursorStart m, CmdNil)
       | KeyDelete => (deleteCharacterForward m, CmdNil)
       | KeyEnd => (CursorEnd m, CmdNil)
       | _ => (insertRunesFromUserInput m (Runes k), CmdNil)
       end.

End textinput.

(** ** The timer component (bubbles/timer)

    Ticks are the ones the session's own timer schedules, so the id and tag
    filter of the component lets them through. *)

Definition Second : Z := 1000000000.

Module timer.

Record Model := mkModel {
  Timeout : Z;
  Interval : Z;
  running : bool
}.

Definition New (timeout : Z) : Model := mkModel timeout Second true.

Definition Timedout (m : Model) : bool := Timeout m <=? 0.

Definition Running (m : Model) : bool :=
  if Timedout m || negb (running m) then false else true.

Definition Init (m : Model) : Cmd := CmdTick.

Definition Update (m : Model) : Model * Cmd :=
  if negb (Running m) then (m, CmdNil)
  else (mkModel (Timeout m - Interval m) (Interval m) (running m),
        CmdBatch CmdTick CmdTimeout).

End timer.

(** ** Floating point *)

Definition float64 := spec_float.
Definition float32 := spec_float.

Module F64.
Definition of_int (n : Z) : float64 := binary_normalize 53 1024 n 0 false.
Definition add : float64 -> float64 -> float64 := SFadd 53 1024.
Definition sub : float64 -> float64 -> float64 := SFsub 53 1024.
Definition mul : float64 -> float64 -> float64 := SFmul 53 1024.
Definition div : float64 -> float64 -> float64 := SFdiv 53 1024.
(** [x >= y] *)
Definition geb (x y : float64) : bool := SFleb y x.
End F64.

Module F32.
Definition of_int (n : Z) : float32 := binary_normalize 24 128 n 0 false.
Definition mul : float32 -> float32 -> float32 := SFmul 24 128.
Definition div : float32 -> float32 -> float32 := SFdiv 24 128.
End F32.

Definition minInt : Z := - 2 ^ 63.
Definition maxInt : Z := 2 ^ 63 - 1.

(** The integer part of a finite float, rounded toward zero. *)
Definition truncate (f : spec_float) : option Z :=
  match f with
  | S754_zero _ => Some 0
  | S754_finite s m e =>
      let v := match e with
               | Zneg p => Z.shiftr (Zpos m) (Zpos p)
               | _ => Z.shiftl (Zpos m) e
               end in
      Some (if s then - v else v)
  | _ => None
  end.

(** [int(f)] for a [float64].  Go leaves the result open when the value does
    not fit (NaN, infinities, out of range); amd64 yields the least int. *)
Definition int_of_float64 (f : float64) : Z :=
  match truncate f with
  | Some v => if (minInt <=? v) && (v <=? maxInt) then v else minInt
  | None => minInt
  end.

(** [d.Seconds()] of [time.Duration]. *)
Definition Seconds (d : Z) : float64 :=
  let sec := Z.quot d Second in
  let nsec := Z.rem d Second in
  F64.add (F64.of_int sec) (F64.div (F64.of_int nsec) (F64.of_int 1000000000)).

(** The constant [0.1] as a [float64]. *)
Definition f64_0_1 : float64 := S754_finite false 7205759403792794 (-56).

(** ** main.go: the session state *)

Definition DURATION : Z := Second * 10.

Record model := mkmodel {
  textInput : textinput.Model;
  ghostText : gostring;
  wordsPerMinute : Z;
  timer : timer.Model;
  started : bool;
  incorrectCount : Z;
  accuracy : float32;
  errorPositions : gset Z;
  maxTyped : Z
}.

Definition with_textInput (m : model) (ti : textinput.Model) : model :=
  mkmodel ti (ghostText m) (wordsPerMinute m) (timer m) (started m)
    (incorrectCount m) (accuracy m) (errorPositions m) (maxTyped m).

Definition with_ghostText (m : model) (g : gostring) : model :=
  mkmodel (textInput m) g (wordsPerMinute m) (timer m) (started m)
    (incorrectCount m) (accuracy m) (errorPositions m) (maxTyped m).

Definition with_wordsPerMinute (m : model) (w : Z) : model :=
  mkmodel (textInput m) (ghostText m) w (timer m) (started m)
    (incorrectCount m) (accuracy m) (errorPositions m) (maxTyped m).

Definition with_timer (m : model) (t : timer.Model) : model :=
  mkmodel (textInput m) (ghostText m) (wordsPerMinute m) t (started m)
    (incorrectCount m) (accuracy m) (errorPositions m) (maxTyped m).

Definition with_started (m : model) (b : bool) : model :=
  mkmodel (textInput m) (ghostText m) (wordsPerMinute m) (timer m) b
    (incorrectCount m) (accuracy m) (errorPositions m) (maxTyped m).

Definition with_errorPositions (m : model) (E : gset Z) : model :=
  mkmodel (textInput m) (ghostText m) (wordsPerMinute m) (timer m) (started m)
    (incorrectCount m) (accuracy m) E (maxTyped m).

Definition with_accuracy (m : model) (n : Z) (a : float32) : model :=
  mkmodel (textInput m) (ghostText m) (wordsPerMinute m) (timer m) (started m)
    (incorrectCount m) a (errorPositions m) n.

Definition initialModel (text : gostring) : model :=
  let ti := textinput.Focus textinput.New in
  mkmodel ti text 0 (timer.New DURATION) false 0 (F32.of_int 100) ∅ 0.

(** The marking loop of [calculateAccuracy]: [input] is what is left of the
    typed text from index [i] on, [E] the error positions so far (the keys of
    the Go map; every stored value is [true]). *)
Fixpoint mark_errors (i : Z) (input ghost : gostring) (E : gset Z)
    : result (gset Z) :=
  match input with
  | [] => Ok E
  | typedChar :: rest =>
      ghostChar ← index ghost i;
      mark_errors (i + 1) rest ghost
        (if ascii_eqb typedChar ghostChar then E else {[ i ]} ∪ E)
  end.

(** [(float32(correct) / float32(n)) * 100] *)
Definition accuracy_of (correct n : Z) : float32 :=
  F32.mul (F32.div (F32.of_int correct) (F32.of_int n)) (F32.of_int 100).

Definition calculateAccuracy (m : model) : result model :=
  let input := textinput.Value (textInput m) in
  if len input <=? 0 then Ok m
  else
    E ← mark_errors 0 input (ghostText m) (errorPositions m);
    let m := with_errorPositions m E in
    if maxTyped m <? len input then
      let correct := len input - Z.of_nat (size (errorPositions m)) in
      Ok (with_accuracy m (len input) (accuracy_of correct (len input)))
    else Ok m.

(** The words-per-minute figure of a tick:
    [int(float64(len(v)) / 5.0 * (60 / elapsed))]. *)
Definition wpm_of (n : Z) (elapsed : float64) : Z :=
  let words := F64.div (F64.of_int n) (F64.of_int 5) in
  let wpm := F64.mul words (F64.div (F64.of_int 60) elapsed) in
  int_of_float64 wpm.

Definition elapsed_of (m : model) : float64 :=
  F64.sub (Seconds DURATION) (Seconds (timer.Timeout (timer m))).

(** A key handler of [Update] either returns at once or falls through to the
    code after the inner switch, with the model and the timer command. *)
Inductive flow :=
  | Return (m : model) (cmd : Cmd)
  | Continue (m : model) (initTimerCmd : Cmd).

Definition handleKey (m : model) (k : Key) : result flow :=
  let cursorPos := textinput.Position (textInput m) in
  match k with
  | KeyCtrlC | KeyEsc => Ok (Return m CmdQuit)
  | KeyBackspace =>
      if len (ghostText m) <=? cursorPos then Ok (Continue m CmdNil)
      else
        c ← index (ghostText m) cursorPos;
        if ascii_eqb c space then
          c' ← index (ghostText m) (cursorPos - 1);
          if ascii_eqb c' space then
            before ← slice_to (ghostText m) (cursorPos - 1);
            after ← slice_from (ghostText m) cursorPos;
            Ok (Continue (with_ghostText m (before ++ after)) CmdNil)
          else Ok (Continue m CmdNil)
        else Ok (Continue m CmdNil)
  | KeySpace =>
      if timer.Timedout (timer m) then Ok (Return m CmdNil)
      else
        rest ← slice_from (ghostText m) cursorPos;
        let nextWordPos := strings_Index rest [space] in
        let cur := textinput.Value (textInput m) in
        spaces ← strings_Repeat [space] nextWordPos;
        let newStr := cur ++ spaces in
        let ti := textinput.SetValue (textInput m) newStr in
        let ti := textinput.SetCursor ti (len newStr) in
        Ok (Continue (with_textInput m ti) CmdNil)
  | KeyRunes _ =>
      if timer.Timedout (timer m) then Ok (Return m CmdNil)
      else
        c ← index (ghostText m) cursorPos;
        m1 ← (if ascii_eqb c space then
                before ← slice_to (ghostText m) cursorPos;
                after ← slice_from (ghostText m) cursorPos;
                Ok (with_ghostText m (before ++ [space] ++ after))
              else Ok m);
        if negb (started m1)
        then Ok (Continue (with_started m1 true) (timer.Init (timer m1)))
        else Ok (Continue m1 CmdNil)
  | _ => Ok (Continue m CmdNil)
  end.

Definition Update (m : model) (msg : Msg) : result (model * Cmd) :=
  match msg with
  | KeyMsg k =>
      f ← handleKey m k;
      match f with
      | Return m cmd => Ok (m, cmd)
      | Continue m initTimerCmd =>
          let '(ti, cmd) := textinput.Update (textInput m) k in
          let m := with_textInput m ti in
          m ← (if started m then calculateAccuracy m else Ok m);
          Ok (m, CmdBatch cmd initTimerCmd)
      end
  | TickMsg =>
      if timer.Timedout (timer m) then Ok (m, CmdNil)
      else
        let v := textinput.Value (textInput m) in
        let elapsed := elapsed_of m in
        let m := if F64.geb elapsed f64_0_1
                 then with_wordsPerMinute m (wpm_of (len v) elapsed)
                 else m in
        let '(t, cmd) := timer.Update (timer m) in
        Ok (with_timer m t, cmd)
  | OtherMsg => Ok (m, CmdNil)
  end.

(** Running the event loop: the state after a list of messages, and the
    list of states the program passes through until it stops or panics. *)
Fixpoint run (m : model) (msgs : list Msg) : result model :=
  match msgs with
  | [] => Ok m
  | msg :: rest => r ← Update m msg; run r.1 rest
  end.

Fixpoint states (m : model) (msgs : list Msg) : list model :=
  match msgs with
  | [] => []
  | msg :: rest =>
      match Update m msg with
      | Ok (m', _) => m' :: states m' rest
      | Panic _ => []
      end
  end.

Definition typed (m : model) : gostring := textinput.Value (textInput m).
Definition cursor (m : model) : Z := textinput.Position (textInput m).
Definition TimedOut (m : model) : bool := timer.Timedout (timer m).

Definition ticks (n : nat) : list Msg := replicate n TickMsg.
Definition chars (s : string) : list Msg := Character <$> str s.

Arguments accuracy_of : simpl never.
Arguments wpm_of : simpl never.
Arguments elapsed_of : simpl never.
Arguments F64.geb : simpl never.
Arguments Update : simpl never.
Arguments handleKey : simpl never.
Arguments calculateAccuracy : simpl never.

(** ** main.go: View

    [View] writes one piece per character of the ghost text to a string
    builder and formats the result into a fixed frame.  A piece is a
    character rendered in one of the four styles, a raw byte, or the summary
    that replaces the text after the time-out; the frame carries the
    remaining time, the words per minute and the accuracy.  The width of
    the text input is the 80 that [initialModel] sets. *)

Inductive Style :=
  | ghostTextStyle
  | correctTextStyle
  | incorrectTextStyle
  | cursorStyle.

Inductive piece :=
  | Render (s : Style) (c : ascii)
  | WriteByte (c : ascii)
  | Summary (wpm : Z) (acc : float32).

Record screen := mkscreen {
  view_time : Z;
  view_wpm : Z;
  view_acc : float32;
  view_text : list piece
}.

Definition Width : Z := 80.

Fixpoint View_loop (i : Z) (ghostRunes typedRunes : list ascii)
    (cursorPos currentLineLength : Z) : result (list piece) :=
  match ghostRunes with
  | [] => Ok []
  | ghostChar :: rest =>
      if (Width <=? currentLineLength) && ascii_eqb ghostChar space then
        builder ← View_loop (i + 1) rest typedRunes cursorPos 0;
        Ok (WriteByte newline :: builder)
      else
        written ←
          (if i <? len typedRunes then
             typedChar ← index typedRunes i;
             if ascii_eqb typedChar ghostChar
             then Ok (Render correctTextStyle ghostChar)
             else if ascii_eqb typedChar space && negb (ascii_eqb ghostChar space)
                  then Ok (Render ghostTextStyle ghostChar)
                  else Ok (Render incorrectTextStyle typedChar)
           else if i =? cursorPos
                then Ok (Render cursorStyle ghostChar)
                else Ok (Render ghostTextStyle ghostChar));
        let currentLineLength :=
          if ascii_eqb ghostChar newline then 0 else currentLineLength + 1 in
        builder ← View_loop (i + 1) rest typedRunes cursorPos currentLineLength;
        Ok (written :: builder)
  end.

Definition View (m : model) : result screen :=
  let typedRunes := textinput.Value (textInput m) in
  let cursorPos := textinput.Position (textInput m) in
  builder ← View_loop 0 (ghostText m) typedRunes cursorPos 0;
  let builder :=
    if timer.Timedout (timer m)
    then [Summary (wordsPerMinute m) (accuracy m)]
    else builder in
  Ok (mkscreen (timer.Timeout (timer m)) (wordsPerMinute m) (accuracy m)
        builder).

(** ** The first revision of main.go: text input and ghost text only *)

Record model_v1 := mkmodel_v1 {
  textInput_v1 : textinput.Model;
  ghostText_v1 : gostring
}.

Definition initialModel_v1 : model_v1 :=
  mkmodel_v1 (textinput.Focus textinput.New)
    (str "The quick brown fox jumps over the lazy dog.").

Definition Update_v1 (m : model_v1) (msg : Msg) : result (model_v1 * Cmd) :=
  let cursorPos := textinput.Position (textInput_v1 m) in
  match msg with
  | KeyMsg k =>
      handled ←
        match k with
        | KeyCtrlC | KeyEsc => Ok (inl (m, CmdQuit))
        | KeyBackspace =>
            if len (ghostText_v1 m) <=? cursorPos then Ok (inr m)
            else
              c ← index (ghostText_v1 m) cursorPos;
              if ascii_eqb c space then
                c' ← index (ghostText_v1 m) (cursorPos - 1);
                if ascii_eqb c' space then
                  before ← slice_to (ghostText_v1 m) (cursorPos - 1);
                  after ← slice_from (ghostText_v1 m) cursorPos;
                  Ok (inr (mkmodel_v1 (textInput_v1 m) (before ++ after)))
                else Ok (inr m)
              else Ok (inr m)
        | KeySpace =>
            rest ← slice_from (ghostText_v1 m) cursorPos;
            let nextWordPos := strings_Index rest [space] in
            let cur := textinput.Value (textInput_v1 m) in
            spaces ← strings_Repeat [space] nextWordPos;
            let newStr := cur ++ spaces in
            let ti := textinput.SetValue (textInput_v1 m) newStr in
            let ti := textinput.SetCursor ti (len newStr) in
            Ok (inr (mkmodel_v1 ti (ghostText_v1 m)))
        | KeyRunes _ =>
            c ← index (ghostText_v1 m) cursorPos;
            if negb (ascii_eqb c space) then Ok (inr m)
            else
              before ← slice_to (ghostText_v1 m) cursorPos;
              after ← slice_from (ghostText_v1 m) cursorPos;
              Ok (inr (mkmodel_v1 (textInput_v1 m)
                         (before ++ [space] ++ after)))
        | _ => Ok (inr m)
        end;
      match handled with
      | inl r => Ok r
      | inr m =>
          let '(ti, cmd) := textinput.Update (textInput_v1 m) k in
          Ok (mkmodel_v1 ti (ghostText_v1 m), cmd)
      end
  | _ => Ok (m, CmdNil)
  end.

Arguments View_loop : simpl nomatch.
Arguments Update_v1 : simpl never.

(** * Properties *)

(** ** The Go primitives *)

Lemma len_nonneg {A} (s : list A) : 0 <= len s.
Proof. unfold len. lia. Qed.

Lemma len_app {A} (s t : list A) : len (s ++ t) = len s + len t.
Proof. unfold len. rewrite length_app. lia. Qed.

Lemma len_replicate {A} (n : nat) (c : A) : len (replicate n c) = Z.of_nat n.
Proof. unfold len. by rewrite length_replicate. Qed.

Lemma index_Ok {A} (s : list A) (i : Z) (c : A) :
  index s i = Ok c <-> 0 <= i < len s /\ s !! Z.to_nat i = Some c.
Proof.
  unfold index. split.
  - destruct (i <? 0) eqn:Hlo; [done|].
    destruct (len s <=? i) eqn:Hhi; [done|]. simpl.
    destruct (s !! Z.to_nat i) eqn:Hl; [|done].
    intros [= ->]. split; [lia|done].
  - intros [[Hlo Hhi] Hl].
    destruct (i <? 0) eqn:Hlo'; [lia|].
    destruct (len s <=? i) eqn:Hhi'; [lia|]. simpl. by rewrite Hl.
Qed.

Lemma index_in_range {A} (s : list A) (i : Z) :
  0 <= i < len s -> exists c, index s i = Ok c.
Proof.
  intros Hi. destruct (lookup_lt_is_Some_2 s (Z.to_nat i)) as [c Hc].
  { unfold len in Hi. lia. }
  exists c. by apply index_Ok.
Qed.

Lemma index_out_of_range {A} (s : list A) (i : Z) :
  i < 0 \/ len s <= i -> index s i = Panic IndexOutOfRange.
Proof.
  intros Hi. unfold index.
  destruct (i <? 0) eqn:Hlo; [done|].
  destruct (len s <=? i) eqn:Hhi; [done|]. lia.
Qed.

Lemma slice_from_Ok {A} (s : list A) (i : Z) :
  0 <= i <= len s -> slice_from s i = Ok (drop (Z.to_nat i) s).
Proof.
  intros Hi. unfold slice_from.
  destruct (i <? 0) eqn:Hlo; [lia|].
  destruct (len s <? i) eqn:Hhi; [lia|]. done.
Qed.

Lemma slice_to_Ok {A} (s : list A) (i : Z) :
  0 <= i <= len s -> slice_to s i = Ok (take (Z.to_nat i) s).
Proof.
  intros Hi. unfold slice_to.
  destruct (i <? 0) eqn:Hlo; [lia|].
  destruct (len s <? i) eqn:Hhi; [lia|]. done.
Qed.

Lemma ascii_eqb_eq (a b : ascii) : ascii_eqb a b = true <-> a = b.
Proof. unfold ascii_eqb. apply bool_decide_eq_true. Qed.

Lemma ascii_eqb_neq (a b : ascii) : ascii_eqb a b = false <-> a <> b.
Proof. unfold ascii_eqb. apply bool_decide_eq_false. Qed.

(** The first space of [s] sits at offset [k]. *)
Definition first_space_at (s : gostring) (k : nat) : Prop :=
  s !! k = Some space /\ forall j, (j < k)%nat -> s !! j <> Some space.

Lemma index_of_space (s : gostring) (k : nat) :
  index_of s [space] = Some k <-> first_space_at s k.
Proof.
  revert k. induction s as [|c s IH]; intros k; simpl.
  - split; [done|]. by intros [? _].
  - destruct (ascii_eqb space c) eqn:Hc; simpl.
    + apply ascii_eqb_eq in Hc as <-. split.
      * intros [= <-]. split; [done|]. intros j Hj. lia.
      * intros [Hk Hlt]. destruct k as [|k]; [done|].
        exfalso. by apply (Hlt 0%nat); [lia|].
    + apply ascii_eqb_neq in Hc. rewrite fmap_Some. split.
      * intros (k' & Hi & ->). apply IH in Hi as [Hk Hlt]. split; [done|].
        intros [|j] Hj; simpl; [congruence|]. apply Hlt. lia.
      * intros [Hk Hlt]. destruct k as [|k]; simpl in Hk; [congruence|].
        exists k. split; [|done].
        apply IH. split; [done|]. intros j Hj. apply (Hlt (S j)). lia.
Qed.

Lemma index_of_space_None (s : gostring) :
  index_of s [space] = None <-> space ∉ s.
Proof.
  induction s as [|c s IH]; simpl.
  - split; [intros _; apply not_elem_of_nil|done].
  - destruct (ascii_eqb space c) eqn:Hc; simpl.
    + apply ascii_eqb_eq in Hc as <-. split; [done|].
      intros H. exfalso. apply H. left.
    + apply ascii_eqb_neq in Hc. rewrite fmap_None.
      rewrite not_elem_of_cons. tauto.
Qed.

Lemma strings_Index_space (s : gostring) (k : Z) :
  0 <= k ->
  strings_Index s [space] = k <-> first_space_at s (Z.to_nat k).
Proof.
  intros Hk. unfold strings_Index. rewrite <- index_of_space.
  destruct (index_of s [space]) as [i|]; split.
  - intros <-. by rewrite Nat2Z.id.
  - intros [= ->]. lia.
  - lia.
  - done.
Qed.

Lemma strings_Repeat_space (k : Z) :
  0 <= k -> strings_Repeat [space] k = Ok (replicate (Z.to_nat k) space).
Proof.
  intros Hk. unfold strings_Repeat.
  destruct (k <? 0) eqn:Hlt; [lia|]. f_equal.
  induction (Z.to_nat k) as [|n IH]; simpl; [done|]. by rewrite IH.
Qed.

Lemma take_len {A} (s : list A) : take (Z.to_nat (len s)) s = s.
Proof. apply take_ge. unfold len. lia. Qed.

Lemma drop_len {A} (s : list A) : drop (Z.to_nat (len s)) s = [].
Proof. apply drop_ge. unfold len. lia. Qed.

Lemma len_nil_inv {A} (s : list A) : len s <= 0 -> s = [].
Proof. destruct s; [done|]. unfold len. simpl. lia. Qed.

(** ** The text input *)

Lemma clamp_in_range (v high : Z) :
  0 <= v <= high -> textinput.clamp v 0 high = v.
Proof.
  intros Hv. unfold textinput.clamp.
  destruct (high <? 0) eqn:Hh; lia.
Qed.

Lemma insert_at_end (ti : textinput.Model) (v : list ascii) :
  textinput.pos ti = len (textinput.value ti) ->
  textinput.insertRunesFromUserInput ti v
  = textinput.mkModel (textinput.value ti ++ v) (textinput.pos ti + len v)
      (textinput.focus ti).
Proof.
  destruct ti as [val p f]. simpl. intros ->.
  unfold textinput.insertRunesFromUserInput, textinput.setValueInternal. simpl.
  rewrite take_len, drop_len, app_nil_r.
  assert ((len (val ++ v) <? len val + len v) = false) as ->.
  { rewrite len_app. lia. }
  rewrite orb_false_r.
  destruct ((len val + len v =? 0) && (len val =? 0)); [|done].
  unfold textinput.SetCursor. simpl. f_equal.
  rewrite clamp_in_range; rewrite len_app; [done|].
  pose proof (len_nonneg val). pose proof (len_nonneg v). lia.
Qed.

Lemma delete_at_end (ti : textinput.Model) :
  textinput.pos ti = len (textinput.value ti) ->
  textinput.deleteCharacterBackward ti
  = textinput.mkModel
      (take (Z.to_nat (textinput.pos ti - 1)) (textinput.value ti))
      (Z.max 0 (textinput.pos ti - 1)) (textinput.focus ti).
Proof.
  destruct ti as [val p f]. simpl. intros ->.
  unfold textinput.deleteCharacterBackward. simpl.
  destruct (0 <? len val) eqn:Hpos.
  - unfold textinput.SetCursor. simpl.
    rewrite drop_len, app_nil_r.
    replace (Z.max 0 (len val - 1)) with (len val - 1) by lia.
    f_equal. apply clamp_in_range.
    unfold len. rewrite length_take. unfold len in Hpos. lia.
  - rewrite (len_nil_inv val) by lia. done.
Qed.

(** ** [calculateAccuracy] *)

(** The indices from [i] on at which the typed text differs from the ghost
    text. *)
Fixpoint mismatches (i : Z) (input ghost : gostring) : gset Z :=
  match input with
  | [] => ∅
  | typedChar :: rest =>
      let here : gset Z :=
        if bool_decide (ghost !! Z.to_nat i = Some typedChar) then ∅
        else {[ i ]} in
      here ∪ mismatches (i + 1) rest ghost
  end.

Lemma mark_errors_Ok (i : Z) (input ghost : gostring) (E E' : gset Z) :
  0 <= i <= len ghost ->
  mark_errors i input ghost E = Ok E' <->
  i + len input <= len ghost /\ E' = E ∪ mismatches i input ghost.
Proof.
  revert i E. induction input as [|c rest IH]; intros i E Hi; simpl.
  - unfold len at 1. simpl. split.
    + intros [= ->]. split; [lia|set_solver].
    + intros [_ ->]. f_equal. set_solver.
  - replace (len (c :: rest)) with (1 + len rest) by (unfold len; simpl; lia).
    pose proof (len_nonneg rest) as Hrest.
    unfold mbind, result_bind.
    destruct (index ghost i) as [g|] eqn:Hg.
    + apply index_Ok in Hg as [Hr Hl]. rewrite IH by lia. rewrite Hl.
      unfold ascii_eqb.
      destruct (decide (c = g)) as [->|Hne].
      * rewrite !bool_decide_eq_true_2 by done.
        split; intros [? ->]; (split; [lia|set_solver]).
      * rewrite !bool_decide_eq_false_2 by congruence.
        split; intros [? ->]; (split; [lia|set_solver]).
    + split; [done|]. intros [Hle _].
      destruct (index_in_range ghost i) as [g' Hg']; [lia|]. congruence.
Qed.

Lemma mismatches_bound (i : Z) (input ghost : gostring) (j : Z) :
  j ∈ mismatches i input ghost -> i <= j < i + len input.
Proof.
  revert i. induction input as [|c rest IH]; intros i; simpl.
  - set_solver.
  - replace (len (c :: rest)) with (1 + len rest) by (unfold len; simpl; lia).
    pose proof (len_nonneg rest).
    intros [Hj|Hj]%elem_of_union.
    + case_bool_decide; [set_solver|].
      apply elem_of_singleton in Hj. lia.
    + apply IH in Hj. lia.
Qed.

(** What [calculateAccuracy] does when it returns: the fields it never
    writes, and the three it may write. *)
Lemma calculateAccuracy_Ok (m m' : model) :
  calculateAccuracy m = Ok m' ->
  textInput m' = textInput m /\ ghostText m' = ghostText m /\
  wordsPerMinute m' = wordsPerMinute m /\ timer m' = timer m /\
  started m' = started m /\ incorrectCount m' = incorrectCount m /\
  (typed m = [] /\ m' = m \/
   typed m <> [] /\ len (typed m) <= len (ghostText m) /\
   errorPositions m' = errorPositions m ∪ mismatches 0 (typed m) (ghostText m) /\
   (if maxTyped m <? len (typed m)
    then maxTyped m' = len (typed m) /\
         accuracy m' = accuracy_of
           (len (typed m) - Z.of_nat (size (errorPositions m'))) (len (typed m))
    else maxTyped m' = maxTyped m /\ accuracy m' = accuracy m)).
Proof.
  unfold calculateAccuracy, typed. intros H.
  destruct (len (textinput.Value (textInput m)) <=? 0) eqn:Hlen.
  - injection H as <-. repeat split; try done.
    left. split; [|done]. apply len_nil_inv. lia.
  - unfold mbind, result_bind in H.
    destruct (mark_errors 0 _ _ _) as [E|] eqn:HE; [|done].
    pose proof (len_nonneg (ghostText m)) as Hg.
    apply mark_errors_Ok in HE; [|lia]. destruct HE as [Hle ->].
    assert (textinput.Value (textInput m) <> []) as Hne.
    { intros Heq. by rewrite Heq in Hlen. }
    simpl in H.
    destruct (maxTyped m <? len (textinput.Value (textInput m))) eqn:Hmax;
      injection H as <-; simpl; repeat split; try done;
      right; repeat split; try done; lia.
Qed.

Lemma calculateAccuracy_total (m : model) :
  len (typed m) <= len (ghostText m) ->
  exists m', calculateAccuracy m = Ok m'.
Proof.
  unfold calculateAccuracy, typed. intros Hle.
  destruct (len (textinput.Value (textInput m)) <=? 0); [by eexists|].
  destruct (mark_errors 0 (textinput.Value (textInput m)) (ghostText m)
              (errorPositions m)) as [E|] eqn:HE.
  - unfold mbind, result_bind. simpl.
    destruct (maxTyped m <? _); by eexists.
  - exfalso.
    assert (exists E', mark_errors 0 (textinput.Value (textInput m))
                         (ghostText m) (errorPositions m) = Ok E')
      as [E' HE']; [|congruence].
    eexists. apply mark_errors_Ok; [pose proof (len_nonneg (ghostText m)); lia|].
    split; [lia|done].
Qed.

(** ** The key handlers *)

(** The two rules that rewrite the ghost text. *)
Definition elongate (g : gostring) (p : Z) : gostring :=
  take (Z.to_nat p) g ++ [space] ++ drop (Z.to_nat p) g.

Definition merge (g : gostring) (p : Z) : gostring :=
  take (Z.to_nat (p - 1)) g ++ drop (Z.to_nat p) g.

Lemma with_ghostText_id (m : model) : with_ghostText m (ghostText m) = m.
Proof. by destruct m. Qed.

Lemma with_started_id (m : model) :
  started m = true -> with_started m true = m.
Proof. destruct m. simpl. by intros ->. Qed.

Lemma set_value_cursor (ti : textinput.Model) (s : gostring) :
  textinput.SetCursor (textinput.SetValue ti s) (len s)
  = textinput.mkModel s (len s) (textinput.focus ti).
Proof.
  pose proof (len_nonneg s).
  unfold textinput.SetValue, textinput.setValueInternal. simpl.
  destruct (_ || _); unfold textinput.SetCursor; simpl;
    by rewrite clamp_in_range by lia.
Qed.

Lemma handleKey_Runes_inv (m : model) (runes : list ascii) (f : flow) :
  handleKey m (KeyRunes runes) = Ok f ->
  TimedOut m = true /\ f = Return m CmdNil \/
  TimedOut m = false /\
  exists c, index (ghostText m) (cursor m) = Ok c /\
    let g := if ascii_eqb c space then elongate (ghostText m) (cursor m)
             else ghostText m in
    exists cmd, f = Continue (with_started (with_ghostText m g) true) cmd.
Proof.
  unfold handleKey, TimedOut, cursor. intros H.
  destruct (timer.Timedout (timer m)); [left; by injection H as <-|].
  right. split; [done|]. unfold mbind, result_bind in H.
  destruct (index (ghostText m) _) as [c|] eqn:Hc; [|done].
  exists c. split; [done|].
  pose proof Hc as [Hr _]%index_Ok.
  destruct (ascii_eqb c space).
  - rewrite slice_to_Ok, slice_from_Ok in H by lia. simpl in H.
    destruct (started m) eqn:Hs; simpl in H; injection H as <-.
    + eexists. f_equal. symmetry. by apply with_started_id.
    + by eexists.
  - simpl. rewrite with_ghostText_id.
    destruct (started m) eqn:Hs; simpl in H; injection H as <-.
    + eexists. f_equal. symmetry. by apply with_started_id.
    + by eexists.
Qed.

Lemma handleKey_Backspace_inv (m : model) (f : flow) :
  handleKey m KeyBackspace = Ok f ->
  exists g, f = Continue (with_ghostText m g) CmdNil /\
    (g = ghostText m \/
     1 <= cursor m < len (ghostText m) /\
     index (ghostText m) (cursor m) = Ok space /\
     index (ghostText m) (cursor m - 1) = Ok space /\
     g = merge (ghostText m) (cursor m)).
Proof.
  unfold handleKey, cursor. intros H.
  destruct (len (ghostText m) <=? _) eqn:Hge.
  { injection H as <-. exists (ghostText m). by rewrite with_ghostText_id; auto. }
  unfold mbind, result_bind in H.
  destruct (index (ghostText m) _) as [c|] eqn:Hc; [|done].
  destruct (ascii_eqb c space) eqn:Hcs.
  2: { injection H as <-. exists (ghostText m). by rewrite with_ghostText_id; auto. }
  apply ascii_eqb_eq in Hcs as ->.
  destruct (index (ghostText m) (_ - 1)) as [c'|] eqn:Hc'; [|done].
  destruct (ascii_eqb c' space) eqn:Hcs'.
  2: { injection H as <-. exists (ghostText m). by rewrite with_ghostText_id; auto. }
  apply ascii_eqb_eq in Hcs' as ->.
  pose proof Hc as [Hr _]%index_Ok. pose proof Hc' as [Hr' _]%index_Ok.
  rewrite slice_to_Ok, slice_from_Ok in H by lia. injection H as <-.
  eexists. split; [done|]. right. repeat split; try done; lia.
Qed.

Lemma handleKey_Space_inv (m : model) (f : flow) :
  handleKey m KeySpace = Ok f ->
  TimedOut m = true /\ f = Return m CmdNil \/
  TimedOut m = false /\ 0 <= cursor m <= len (ghostText m) /\
  exists k, 0 <= k /\
    strings_Index (drop (Z.to_nat (cursor m)) (ghostText m)) [space] = k /\
    let newStr := typed m ++ replicate (Z.to_nat k) space in
    f = Continue
          (with_textInput m
             (textinput.mkModel newStr (len newStr)
                (textinput.focus (textInput m)))) CmdNil.
Proof.
  unfold handleKey, TimedOut, cursor, typed. intros H.
  destruct (timer.Timedout (timer m)); [left; by injection H as <-|].
  right. split; [done|]. unfold mbind, result_bind in H.
  destruct (slice_from (ghostText m) _) as [rest|] eqn:Hrest; [|done].
  unfold slice_from in Hrest.
  destruct (_ || _) eqn:Hr in Hrest; [done|]. injection Hrest as <-.
  apply orb_false_elim in Hr as [Hlo Hhi]. split; [lia|].
  destruct (strings_Repeat [space] _) as [spaces|] eqn:Hsp; [|done].
  assert (0 <= strings_Index (drop (Z.to_nat (textinput.Position (textInput m)))
                               (ghostText m)) [space]) as Hk.
  { unfold strings_Repeat in Hsp. destruct (_ <? 0) eqn:Hk in Hsp; [done|]. lia. }
  eexists. split; [|split; [done|]]; [lia|].
  rewrite strings_Repeat_space in Hsp by lia. injection Hsp as <-.
  simpl in H. rewrite set_value_cursor in H. by injection H as <-.
Qed.

Lemma Update_key_inv (m : model) (k : Key) (m' : model) (cmd : Cmd) :
  Update m (KeyMsg k) = Ok (m', cmd) ->
  handleKey m k = Ok (Return m' cmd) \/
  exists m1 c1, handleKey m k = Ok (Continue m1 c1) /\
    let m2 := with_textInput m1 (textinput.Update (textInput m1) k).1 in
    if started m2 then calculateAccuracy m2 = Ok m' else m' = m2.
Proof.
  unfold Update. unfold mbind at 1, result_bind at 1. intros H.
  destruct (handleKey m k) as [[mr c|m1 c1]|] eqn:Hk; [| |done].
  - left. by injection H as <- <-.
  - right. exists m1, c1. split; [done|]. simpl.
    destruct (textinput.Update (textInput m1) k) as [ti c2]. simpl in *.
    destruct (started m1).
    + unfold mbind, result_bind in H.
      destruct (calculateAccuracy _) as [m3|]; [|done]. by injection H as <- _.
    + simpl in H. by injection H as <- _.
Qed.

Lemma Update_key_Continue (m : model) (k : Key) (m1 : model) (c1 : Cmd) :
  handleKey m k = Ok (Continue m1 c1) ->
  let m2 := with_textInput m1 (textinput.Update (textInput m1) k).1 in
  forall m', (if started m2 then calculateAccuracy m2 = Ok m' else m' = m2) ->
  exists cmd, Update m (KeyMsg k) = Ok (m', cmd).
Proof.
  intros Hk m2 m' Hm'. unfold Update. rewrite Hk.
  unfold mbind at 1, result_bind at 1. subst m2.
  destruct (textinput.Update (textInput m1) k) as [ti c2]. simpl in *.
  destruct (started m1).
  - rewrite Hm'. by eexists.
  - subst m'. by eexists.
Qed.

Lemma len_elongate (g : gostring) (p : Z) :
  0 <= p <= len g -> len (elongate g p) = len g + 1.
Proof.
  intros Hp. unfold elongate. rewrite !len_app.
  rewrite <- (take_drop (Z.to_nat p) g) at 3. rewrite len_app.
  unfold len at 2. simpl. lia.
Qed.

Lemma merge_elongate (g : gostring) (p : Z) :
  0 <= p <= len g -> merge (elongate g p) (p + 1) = g.
Proof.
  intros Hp. unfold merge, elongate.
  assert (length (take (Z.to_nat p) g) = Z.to_nat p) as Hlen.
  { rewrite length_take. unfold len in Hp. lia. }
  replace (p + 1 - 1) with p by lia.
  rewrite take_app_length' by done.
  replace (Z.to_nat (p + 1)) with (length (take (Z.to_nat p) g) + 1)%nat by lia.
  rewrite drop_app_add'; [|done]. simpl. rewrite drop_0. apply take_drop.
Qed.

(** ** C5: typed text, cursor and ghost text stay aligned *)

Definition aligned (m : model) : Prop :=
  len (typed m) = cursor m /\ cursor m <= len (ghostText m).

Lemma initialModel_aligned (text : gostring) : aligned (initialModel text).
Proof. split; [done|]. apply len_nonneg. Qed.

Lemma Character_aligned (m : model) (c : ascii) (m' : model) (cmd : Cmd) :
  aligned m -> Update m (Character c) = Ok (m', cmd) -> aligned m'.
Proof.
  intros [Hlen Hle] H. apply Update_key_inv in H as [H|(m1 & c1 & Hk & H)].
  - apply handleKey_Runes_inv in H as [[_ [= <- _]]|(_ & ? & _ & ? & [=])].
    by split.
  - apply handleKey_Runes_inv in Hk as [[_ [=]]|(_ & ch & Hch & cmd' & [= -> ->])].
    simpl in H. apply calculateAccuracy_Ok in H as (Hti & Hg & _).
    simpl in Hti, Hg. apply index_Ok in Hch as [Hr _].
    unfold aligned, typed, cursor, textinput.Value, textinput.Position in *.
    rewrite Hti, Hg. unfold textinput.Update.
    assert (len (ghostText m) <=
            len (if ascii_eqb ch space
                 then elongate (ghostText m) (textinput.pos (textInput m))
                 else ghostText m)) as Hgrow.
    { destruct (ascii_eqb ch space); [|lia]. rewrite len_elongate; lia. }
    destruct (textinput.focus (textInput m)); simpl.
    + rewrite insert_at_end by done. simpl. rewrite len_app.
      change (len [c]) with 1. lia.
    + lia.
Qed.

(** C5.  Starting from an aligned state (the initial state is one), after
    every Character event of any sequence that the program gets through,
    the typed text is as long as the cursor position and the cursor is not
    past the end of the ghost text. *)
Theorem characters_keep_cursor_aligned (m : model) (cs : list ascii) :
  aligned m -> Forall aligned (states m (Character <$> cs)).
Proof.
  revert m. induction cs as [|c cs IH]; intros m Hm; simpl.
  - constructor.
  - destruct (Update m (Character c)) as [[m' cmd]|] eqn:Hu; [|constructor].
    pose proof (Character_aligned _ _ _ _ Hm Hu) as Hm'.
    constructor; [done|]. by apply IH.
Qed.

Lemma characters_keep_cursor_aligned_witness :
  aligned (initialModel (str "cat dog")) /\
  Forall aligned (states (initialModel (str "cat dog")) (Character <$> str "cat")).
Proof.
  split; [apply initialModel_aligned|].
  apply (characters_keep_cursor_aligned (initialModel (str "cat dog")) (str "cat")).
  apply initialModel_aligned.
Defined.

(** ** C10: elongation and backspace-merge undo each other *)

Lemma handleKey_Runes_fwd (m : model) (runes : list ascii) (ch : ascii) :
  TimedOut m = false ->
  index (ghostText m) (cursor m) = Ok ch ->
  let g := if ascii_eqb ch space then elongate (ghostText m) (cursor m)
           else ghostText m in
  exists cmd,
    handleKey m (KeyRunes runes)
    = Ok (Continue (with_started (with_ghostText m g) true) cmd).
Proof.
  unfold TimedOut, cursor. intros Ht Hch. unfold handleKey.
  rewrite Ht, Hch. unfold mbind, result_bind.
  apply index_Ok in Hch as [Hr _].
  destruct (ascii_eqb ch space); simpl.
  - rewrite slice_to_Ok, slice_from_Ok by lia. simpl.
    destruct (started m) eqn:Hs; simpl; eexists; [|done].
    do 2 f_equal. symmetry. by apply with_started_id.
  - rewrite with_ghostText_id.
    destruct (started m) eqn:Hs; simpl; eexists; [|done].
    do 2 f_equal. symmetry. by apply with_started_id.
Qed.

Lemma handleKey_Backspace_merge (m : model) :
  index (ghostText m) (cursor m) = Ok space ->
  index (ghostText m) (cursor m - 1) = Ok space ->
  handleKey m KeyBackspace
  = Ok (Continue (with_ghostText m (merge (ghostText m) (cursor m))) CmdNil).
Proof.
  unfold cursor. intros Hc Hc'. unfold handleKey.
  pose proof Hc as [Hr _]%index_Ok. pose proof Hc' as [Hr' _]%index_Ok.
  destruct (len (ghostText m) <=? _) eqn:Hge; [lia|].
  rewrite Hc, Hc'. unfold mbind, result_bind.
  change (ascii_eqb space space) with true. cbv iota.
  by rewrite slice_to_Ok, slice_from_Ok by lia.
Qed.

Lemma lookup_elongate_at (g : gostring) (p : Z) :
  0 <= p <= len g -> elongate g p !! Z.to_nat p = Some space.
Proof.
  intros Hp. unfold elongate.
  rewrite lookup_app_r; rewrite length_take; unfold len in Hp; [|lia].
  replace (Z.to_nat p - Z.to_nat p `min` length g)%nat with 0%nat by lia.
  done.
Qed.

Lemma lookup_elongate_after (g : gostring) (p : Z) :
  0 <= p <= len g -> elongate g p !! Z.to_nat (p + 1) = g !! Z.to_nat p.
Proof.
  intros Hp. unfold elongate.
  rewrite lookup_app_r; rewrite length_take; unfold len in Hp; [|lia].
  replace (Z.to_nat (p + 1) - Z.to_nat p `min` length g)%nat with 1%nat by lia.
  simpl. rewrite lookup_drop. f_equal. lia.
Qed.

(** C10.  At a cursor position [p] where the ghost text [g] has a space, a
    Character event inserts one space at [p] and leaves the cursor at
    [p + 1]; the Backspace event that follows deletes one of the two
    adjacent spaces and the ghost text is [g] again. *)
Theorem elongation_then_backspace_restores_ghost
    (m : model) (c : ascii) (g : gostring) (p : Z) :
  ghostText m = g -> cursor m = p -> len (typed m) = p ->
  0 <= p < len g -> g !! Z.to_nat p = Some space ->
  TimedOut m = false -> textinput.focus (textInput m) = true ->
  exists m1 cmd1 m2 cmd2,
    Update m (Character c) = Ok (m1, cmd1) /\
    ghostText m1 = elongate g p /\ len (ghostText m1) = len g + 1 /\
    cursor m1 = p + 1 /\
    Update m1 Backspace = Ok (m2, cmd2) /\
    ghostText m2 = merge (ghostText m1) (p + 1) /\
    ghostText m2 = g /\ cursor m2 = p /\ typed m2 = typed m.
Proof.
  intros Hg Hp Hlen Hr Hsp Ht Hf.
  assert (index (ghostText m) (cursor m) = Ok space) as Hidx.
  { apply index_Ok. by rewrite Hg, Hp. }
  destruct (handleKey_Runes_fwd m [c] space Ht Hidx) as [cmd Hk].
  change (ascii_eqb space space) with true in Hk. cbv iota in Hk.
  rewrite Hg, Hp in Hk.
  set (m1' := with_textInput (with_started (with_ghostText m (elongate g p)) true)
                (textinput.Update (textInput m) (KeyRunes [c])).1).
  assert (textInput m1' = textinput.mkModel (typed m ++ [c]) (p + 1) true) as Hti1.
  { subst m1'. simpl. unfold textinput.Update. rewrite Hf. simpl.
    unfold typed, cursor, textinput.Value, textinput.Position in *.
    rewrite insert_at_end by congruence. by rewrite Hp, Hf. }
  destruct (calculateAccuracy_total m1') as [m1 Hm1].
  { unfold typed. rewrite Hti1. simpl. rewrite len_app, len_elongate by lia.
    change (len [c]) with 1. lia. }
  destruct (Update_key_Continue _ _ _ _ Hk m1 Hm1) as [cmd1 Hu1].
  apply calculateAccuracy_Ok in Hm1 as (Hti & Hgh & _ & Htm & _).
  simpl in Hgh. rewrite Hti1 in Hti.
  assert (cursor m1 = p + 1) as Hc1.
  { unfold cursor. by rewrite Hti. }
  assert (handleKey m1 KeyBackspace
          = Ok (Continue (with_ghostText m1 (merge (ghostText m1) (cursor m1)))
                  CmdNil)) as Hk2.
  { apply handleKey_Backspace_merge; rewrite Hgh, Hc1; apply index_Ok.
    - rewrite len_elongate, lookup_elongate_after by lia. split; [lia|done].
    - replace (p + 1 - 1) with p by lia.
      rewrite len_elongate, lookup_elongate_at by lia. split; [lia|done]. }
  rewrite Hgh, Hc1, merge_elongate in Hk2 by lia.
  set (m2' := with_textInput (with_ghostText m1 g)
                (textinput.Update (textInput m1) KeyBackspace).1).
  assert (textInput m2' = textinput.mkModel (typed m) p true) as Hti2.
  { subst m2'. simpl. rewrite Hti. unfold textinput.Update. simpl.
    rewrite delete_at_end; simpl.
    - replace (p + 1 - 1) with p by lia. f_equal; [|lia].
      rewrite <- Hlen. unfold len. rewrite Nat2Z.id.
      by rewrite take_app_length.
    - rewrite len_app, Hlen. by change (len [c]) with 1. }
  assert (exists m2, if started m2' then calculateAccuracy m2' = Ok m2
                     else m2 = m2') as [m2 Hm2].
  { destruct (started m2'); [|by eexists].
    apply calculateAccuracy_total. unfold typed. rewrite Hti2. simpl.
    subst m2'. simpl. unfold typed in Hlen. unfold textinput.Value in Hlen.
    fold (typed m). unfold typed, textinput.Value. lia. }
  destruct (Update_key_Continue _ _ _ _ Hk2 m2 Hm2) as [cmd2 Hu2].
  assert (textInput m2 = textInput m2' /\ ghostText m2 = g) as [Hti3 Hg3].
  { destruct (started m2'); [|by subst m2].
    apply calculateAccuracy_Ok in Hm2 as (? & ? & _). by subst m2'. }
  exists m1, cmd1, m2, cmd2. rewrite Hgh, merge_elongate by lia.
  repeat split; try done.
  - apply len_elongate. lia.
  - unfold cursor. by rewrite Hti3, Hti2.
  - unfold typed at 1. by rewrite Hti3, Hti2.
Qed.

(** The state a session is in after the messages of [msgs]. *)
Definition session (text : string) (msgs : list Msg) : model :=
  match run (initialModel (str text)) msgs with
  | Ok m => m
  | Panic _ => initialModel (str text)
  end.

Lemma elongation_then_backspace_restores_ghost_witness :
  exists m1 cmd1 m2 cmd2,
    Update (session "cat dog" (chars "cat")) (Character "s") = Ok (m1, cmd1) /\
    ghostText m1 = elongate (str "cat dog") 3 /\
    len (ghostText m1) = len (str "cat dog") + 1 /\
    cursor m1 = 3 + 1 /\
    Update m1 Backspace = Ok (m2, cmd2) /\
    ghostText m2 = merge (ghostText m1) (3 + 1) /\
    ghostText m2 = str "cat dog" /\ cursor m2 = 3 /\
    typed m2 = typed (session "cat dog" (chars "cat")).
Proof.
  apply (elongation_then_backspace_restores_ghost
           (session "cat dog" (chars "cat")) "s" (str "cat dog") 3);
    try reflexivity.
  vm_compute. split; [discriminate|reflexivity].
Defined.

(** ** C3: the Space event *)

Lemma handleKey_Space_fwd (m : model) (k : nat) :
  TimedOut m = false ->
  0 <= cursor m ->
  first_space_at (drop (Z.to_nat (cursor m)) (ghostText m)) k ->
  let newStr := typed m ++ replicate k space in
  handleKey m KeySpace
  = Ok (Continue
          (with_textInput m
             (textinput.mkModel newStr (len newStr)
                (textinput.focus (textInput m)))) CmdNil).
Proof.
  unfold TimedOut, cursor, typed. intros Ht Hc Hk. unfold handleKey.
  rewrite Ht.
  assert (textinput.Position (textInput m) <= len (ghostText m)) as Hle.
  { destruct Hk as [Hk _]. apply lookup_lt_Some in Hk.
    rewrite length_drop in Hk. unfold len. lia. }
  rewrite slice_from_Ok by lia. unfold mbind, result_bind.
  assert (strings_Index (drop (Z.to_nat (textinput.Position (textInput m)))
                           (ghostText m)) [space] = Z.of_nat k) as ->.
  { apply strings_Index_space; [lia|]. by rewrite Nat2Z.id. }
  rewrite strings_Repeat_space by lia. rewrite Nat2Z.id.
  by rewrite set_value_cursor.
Qed.




(** ** What the handlers leave alone *)

Lemma handleKey_frame (m : model) (k : Key) (f : flow) :
  handleKey m k = Ok f ->
  match f with
  | Return m' _ => m' = m
  | Continue m1 _ =>
      wordsPerMinute m1 = wordsPerMinute m /\ timer m1 = timer m /\
      accuracy m1 = accuracy m /\ errorPositions m1 = errorPositions m /\
      maxTyped m1 = maxTyped m /\ (started m = true -> started m1 = true) /\
      (k = KeyBackspace -> started m1 = started m)
  end.
Proof.
  intros H. destruct k.
  - unfold handleKey in H. by injection H as <-.
  - unfold handleKey in H. by injection H as <-.
  - apply handleKey_Backspace_inv in H as (g & -> & _). by repeat split.
  - apply handleKey_Space_inv in H
      as [[_ ->]|(_ & _ & j & _ & _ & ->)]; by repeat split.
  - apply handleKey_Runes_inv in H
      as [[_ ->]|(_ & ch & _ & cmd & ->)]; by repeat split.
  - unfold handleKey in H. injection H as <-. by repeat split.
  - unfold handleKey in H. injection H as <-. by repeat split.
  - unfold handleKey in H. injection H as <-. by repeat split.
  - unfold handleKey in H. injection H as <-. by repeat split.
  - unfold handleKey in H. injection H as <-. by repeat split.
Qed.

Lemma Update_Tick_inv (m m' : model) (cmd : Cmd) :
  Update m TickMsg = Ok (m', cmd) ->
  textInput m' = textInput m /\ ghostText m' = ghostText m /\
  started m' = started m /\ accuracy m' = accuracy m /\
  errorPositions m' = errorPositions m /\ maxTyped m' = maxTyped m /\
  if TimedOut m then m' = m
  else timer m' = (timer.Update (timer m)).1 /\
       wordsPerMinute m' =
         if F64.geb (elapsed_of m) f64_0_1
         then wpm_of (len (typed m)) (elapsed_of m)
         else wordsPerMinute m.
Proof.
  unfold Update, TimedOut, typed. intros H.
  destruct (timer.Timedout (timer m)); [by injection H as <- _|].
  destruct (F64.geb (elapsed_of m) f64_0_1); simpl in H;
    destruct (timer.Update (timer m)) as [t c]; by injection H as <- _.
Qed.

(** ** C9: the marking pass is idempotent and append-only *)

Lemma mark_errors_idempotent (input ghost : gostring) (E E1 : gset Z) :
  mark_errors 0 input ghost E = Ok E1 ->
  E ⊆ E1 /\ mark_errors 0 input ghost E1 = Ok E1.
Proof.
  pose proof (len_nonneg ghost) as Hg.
  intros [Hle ->]%mark_errors_Ok; [|lia]. split; [set_solver|].
  apply mark_errors_Ok; [lia|]. split; [done|set_solver].
Qed.

Lemma calculateAccuracy_idempotent (m m1 : model) :
  calculateAccuracy m = Ok m1 ->
  exists m2, calculateAccuracy m1 = Ok m2 /\
             errorPositions m2 = errorPositions m1.
Proof.
  intros H. pose proof H as (Hti & Hg & _ & _ & _ & _ & Hcase)%calculateAccuracy_Ok.
  destruct (calculateAccuracy_total m1) as [m2 H2].
  { unfold typed. rewrite Hti, Hg.
    destruct Hcase as [[Hnil _]|(_ & Hle & _)]; [|done].
    unfold typed in Hnil. rewrite Hnil. apply len_nonneg. }
  exists m2. split; [done|].
  apply calculateAccuracy_Ok in H2 as (_ & _ & _ & _ & _ & _ & Hcase2).
  destruct Hcase2 as [[_ ->]|(_ & _ & -> & _)]; [done|].
  unfold typed. rewrite Hti, Hg.
  destruct Hcase as [[Hnil _]|(_ & _ & -> & _)]; [|set_solver].
  unfold typed in Hnil. rewrite Hnil. simpl. set_solver.
Qed.

Lemma Update_errorPositions_mono (m : model) (msg : Msg) (m' : model) (cmd : Cmd) :
  Update m msg = Ok (m', cmd) -> errorPositions m ⊆ errorPositions m'.
Proof.
  intros H. destruct msg as [k| |].
  - apply Update_key_inv in H as [H|(m1 & c1 & Hk & H)].
    + by apply handleKey_frame in H as ->.
    + apply handleKey_frame in Hk as (_ & _ & _ & HE & _). simpl in H.
      destruct (started m1).
      * apply calculateAccuracy_Ok in H as (_ & _ & _ & _ & _ & _ & Hcase).
        destruct Hcase as [[_ ->]|(_ & _ & -> & _)]; simpl; set_solver.
      * subst m'. simpl. set_solver.
  - apply Update_Tick_inv in H as (_ & _ & _ & _ & -> & _). done.
  - unfold Update in H. by injection H as <- _.
Qed.

Lemma run_errorPositions_mono (m : model) (msgs : list Msg) (m' : model) :
  run m msgs = Ok m' -> errorPositions m ⊆ errorPositions m'.
Proof.
  revert m. induction msgs as [|msg msgs IH]; intros m; simpl.
  - by intros [= ->].
  - unfold mbind, result_bind.
    destruct (Update m msg) as [[m1 cmd]|] eqn:Hu; [|done].
    intros Hr. apply Update_errorPositions_mono in Hu. apply IH in Hr.
    simpl in Hr. set_solver.
Qed.

(** C9.  Once [calculateAccuracy] has run its marking pass (state [m1]),
    running the pass again on the same typed and ghost text yields the same
    error positions; and whatever messages the session handles afterwards,
    every index marked in [m1] is still marked. *)
Theorem error_positions_idempotent_append_only
    (m m1 : model) (msgs : list Msg) (m' : model) :
  calculateAccuracy m = Ok m1 ->
  run m1 msgs = Ok m' ->
  (exists m2, calculateAccuracy m1 = Ok m2 /\
              errorPositions m2 = errorPositions m1) /\
  errorPositions m ⊆ errorPositions m1 /\
  forall i, i ∈ errorPositions m1 -> i ∈ errorPositions m'.
Proof.
  intros Hc Hr. split; [by eapply calculateAccuracy_idempotent|]. split.
  - apply calculateAccuracy_Ok in Hc as (_ & _ & _ & _ & _ & _ & Hcase).
    destruct Hcase as [[_ ->]|(_ & _ & -> & _)]; set_solver.
  - apply run_errorPositions_mono in Hr. set_solver.
Qed.

Lemma error_positions_idempotent_append_only_witness :
  let m := session "cat dog" (chars "cx") in
  let m' := session "cat dog" (chars "cx" ++ [Backspace; Character "a"]) in
  (exists m2, calculateAccuracy m = Ok m2 /\
              errorPositions m2 = errorPositions m) /\
  errorPositions m ⊆ errorPositions m /\
  forall i, i ∈ errorPositions m -> i ∈ errorPositions m'.
Proof.
  apply (error_positions_idempotent_append_only
           (session "cat dog" (chars "cx")) (session "cat dog" (chars "cx"))
           [Backspace; Character "a"]
           (session "cat dog" (chars "cx" ++ [Backspace; Character "a"])));
    vm_compute; reflexivity.
Defined.

(** ** C1: events after the time-out *)

Lemma timed_out_rejects_character_and_space (m : model) (c : ascii) :
  TimedOut m = true ->
  Update m (Character c) = Ok (m, CmdNil) /\ Update m Space = Ok (m, CmdNil).
Proof.
  unfold TimedOut, Update, Character, Space, handleKey. by intros ->.
Qed.

(** C1 at a failing input.  The session on "cat dog" types "catx" (the
    fourth character stretches the ghost text to "cat  dog"), the clock
    runs out after ten ticks, and Backspace still goes through: it shortens
    the typed text and rewrites the ghost text. *)
Lemma backspace_after_timeout_mutates :
  let m := session "cat dog" (chars "catx" ++ ticks 10) in
  TimedOut m = true /\
  typed m = str "catx" /\ ghostText m = str "cat  dog" /\
  exists m' cmd,
    Update m Backspace = Ok (m', cmd) /\
    typed m' = str "cat" /\ ghostText m' = str "cat dog" /\
    typed m' <> typed m /\ ghostText m' <> ghostText m.
Proof.
  cbv zeta. do 3 (split; [vm_compute; reflexivity|]).
  eexists _, _. split; [vm_compute; reflexivity|].
  repeat split; vm_compute; (reflexivity || discriminate).
Qed.

(** ** C2: the handlers at the edges of the ghost text *)

(** C2 at failing inputs, all reached from an initial state.  A second
    Space inside the last word finds no delimiter and panics in
    [strings.Repeat]; a character typed with the cursor at the end of the
    ghost text indexes out of range; Backspace at cursor 0 on a ghost text
    that starts with a space (the first selected word is empty) reads
    index -1. *)
Lemma handlers_panic_at_the_edges :
  Update (session "cat dog" [Space]) Space = Panic NegativeRepeatCount /\
  (cursor (session "cat dog" (chars "cat" ++ [Space] ++ chars "dog"))
   = len (ghostText (session "cat dog" (chars "cat" ++ [Space] ++ chars "dog"))) /\
   Update (session "cat dog" (chars "cat" ++ [Space] ++ chars "dog"))
     (Character "x") = Panic IndexOutOfRange) /\
  (cursor (initialModel (ghost_of_words [[]; str "cat"])) = 0 /\
   Update (initialModel (ghost_of_words [[]; str "cat"])) Backspace
   = Panic IndexOutOfRange).
Proof. repeat split; vm_compute; reflexivity. Qed.

(** Where the handlers do return: a character typed before the end of the
    ghost text, in an aligned state. *)
Lemma Character_total (m : model) (c : ascii) :
  aligned m -> cursor m < len (ghostText m) ->
  exists m' cmd, Update m (Character c) = Ok (m', cmd).
Proof.
  intros [Hlen Hle] Hlt.
  destruct (TimedOut m) eqn:Ht.
  { exists m, CmdNil. by apply timed_out_rejects_character_and_space. }
  pose proof (len_nonneg (typed m)) as Hnn.
  destruct (index_in_range (ghostText m) (cursor m)) as [ch Hch]; [lia|].
  destruct (handleKey_Runes_fwd m [c] ch Ht Hch) as [cmd Hk].
  pose proof Hk as (_ & HE & _)%handleKey_frame.
  match type of Hk with _ = Ok (Continue ?m1 _) =>
    set (m2 := with_textInput m1
                 (textinput.Update (textInput m1) (KeyRunes [c])).1) end.
  destruct (calculateAccuracy_total m2) as [m' Hm'].
  { subst m2. unfold typed, cursor, textinput.Value, textinput.Position in *.
    simpl. unfold textinput.Update.
    assert (len (ghostText m) <=
            len (if ascii_eqb ch space
                 then elongate (ghostText m) (textinput.pos (textInput m))
                 else ghostText m)) as Hgrow.
    { destruct (ascii_eqb ch space); [|lia]. rewrite len_elongate; lia. }
    destruct (textinput.focus (textInput m)); simpl; [|lia].
    rewrite insert_at_end by done. simpl. rewrite len_app.
    change (len [c]) with 1. lia. }
  destruct (Update_key_Continue _ _ _ _ Hk m' Hm') as [cmd' Hu].
  by exists m', cmd'.
Qed.

(** ** The word source *)

Lemma strings_Split_nonempty (s : gostring) (sep : ascii) :
  1 <= len (strings_Split s sep).
Proof.
  induction s as [|c s IH]; simpl; [done|].
  destruct (ascii_eqb c sep).
  - unfold len in *. simpl. lia.
  - destruct (strings_Split s sep); unfold len in *; simpl in *; lia.
Qed.

(** What the loop of [getWords] selects when it can draw: the word at the
    reduced oracle value, draw by draw. *)
Definition selection (words : list gostring) (rng : nat -> Z) (i count : nat)
    : list gostring :=
  (fun j => default [] (words !! Z.to_nat (rng j mod (len words - 1))))
    <$> seq i count.

Lemma getWords_loop_Ok (words : list gostring) (rng : nat -> Z)
    (i count : nat) (acc : list gostring) :
  2 <= len words ->
  getWords_loop words rng i count acc = Ok (acc ++ selection words rng i count).
Proof.
  intros Hn. revert i acc. induction count as [|count IH]; intros i acc.
  - unfold selection. simpl. by rewrite app_nil_r.
  - simpl. unfold rand_Intn.
    destruct (len words - 1 <=? 0) eqn:Hle; [lia|].
    unfold mbind at 1, result_bind at 1.
    pose proof (Z.mod_pos_bound (rng i) (len words - 1) ltac:(lia)) as Hr.
    destruct (index_in_range words (rng i mod (len words - 1))) as [w Hw];
      [lia|].
    rewrite Hw. unfold mbind, result_bind. rewrite IH.
    apply index_Ok in Hw as [_ Hw]. unfold selection. simpl.
    rewrite Hw. simpl. by rewrite <- app_assoc.
Qed.

Lemma getWords_loop_one_entry (words : list gostring) (rng : nat -> Z)
    (i count : nat) (acc : list gostring) :
  len words = 1 ->
  getWords_loop words rng i (S count) acc = Panic InvalidIntnArgument.
Proof. intros Hn. simpl. unfold rand_Intn. by rewrite Hn. Qed.

Lemma getWords_Ok (contents : gostring) (rng : nat -> Z) (count : nat) :
  2 <= len (strings_Split contents newline) ->
  getWords (Some contents) rng (Z.of_nat count)
  = Ok (selection (strings_Split contents newline) rng 0 count, None).
Proof.
  intros Hn. unfold getWords. rewrite Nat2Z.id.
  by rewrite getWords_loop_Ok.
Qed.

Lemma selection_blank (rng : nat -> Z) (i n : nat) :
  selection [[]; []] rng i n = replicate n [].
Proof.
  unfold selection. change (len [@nil ascii; @nil ascii] - 1) with 1.
  revert i. induction n as [|n IH]; intros i; [done|].
  cbn [seq fmap list_fmap replicate]. rewrite Z.mod_1_r.
  f_equal. apply IH.
Qed.

(** ** C7: unreadable file and empty corpus *)

(** The error return is exactly the unreadable file. *)
Lemma getWords_error_iff (file : option gostring) (rng : nat -> Z) (count : Z) :
  (exists ws e, getWords file rng count = Ok (ws, Some e)) <-> file = None.
Proof.
  split.
  - intros (ws & e & H). destruct file as [contents|]; [|done].
    unfold getWords in H. unfold mbind, result_bind in H.
    by destruct (getWords_loop _ _ _ _ _).
  - intros ->. by exists [], ReadFileError.
Qed.

(** C7 at failing inputs.  An empty word list file makes [getWords] panic
    in [rand.Intn(0)] instead of returning an error; a file that holds one
    blank line yields 200 empty words and no error, whose ghost text is 199
    spaces. *)
Lemma getWords_empty_corpus (rng : nat -> Z) :
  getWords (Some []) rng 200 = Panic InvalidIntnArgument /\
  getWords (Some [newline]) rng 200 = Ok (replicate 200 [], None) /\
  ghost_of_words (replicate 200 []) = replicate 199 space.
Proof.
  split; [|split].
  - unfold getWords. change (Z.to_nat 200) with (S 199).
    by rewrite getWords_loop_one_entry.
  - unfold getWords.
    change (strings_Split [newline] newline) with [@nil ascii; @nil ascii].
    rewrite getWords_loop_Ok by (vm_compute; discriminate).
    unfold mbind, result_bind. rewrite app_nil_l.
    by rewrite selection_blank.
  - vm_compute. reflexivity.
Qed.

(** ** C8: which entries can be selected *)

(** C8, as the code has it.  For a word list file whose newline-split has at
    least two entries, [getWords] returns [count] words and no error; the
    [j]-th word is the entry at the [j]-th oracle value reduced modulo the
    number of entries minus one, so every draw reads its own oracle cell
    and ranges over every entry but the last; each choice of [count] such
    entries (repeats allowed) is the result for some oracle; and the ghost
    text joins the words with single spaces. *)
Theorem getWords_draws_from_all_but_last
    (contents : gostring) (count : nat) (rng : nat -> Z) :
  let words := strings_Split contents newline in
  2 <= len words ->
  getWords (Some contents) rng (Z.of_nat count)
  = Ok (selection words rng 0 count, None) /\
  length (selection words rng 0 count) = count /\
  (forall j, (j < count)%nat ->
     exists i, 0 <= i < len words - 1 /\ i = rng j mod (len words - 1) /\
               selection words rng 0 count !! j = words !! Z.to_nat i) /\
  (forall idxs : list Z,
     length idxs = count ->
     Forall (fun i => 0 <= i < len words - 1) idxs ->
     exists rng' ws,
       getWords (Some contents) rng' (Z.of_nat count) = Ok (ws, None) /\
       Forall2 (fun i w => words !! Z.to_nat i = Some w) idxs ws) /\
  ghost_of_words (selection words rng 0 count)
  = strings_Join (selection words rng 0 count) [space].
Proof.
  intros words Hn.
  assert (forall r, getWords (Some contents) r (Z.of_nat count)
                    = Ok (selection words r 0 count, None)) as Hget.
  { intros r. by apply getWords_Ok. }
  split; [apply Hget|]. split; [|split; [|split; [|done]]].
  - unfold selection. by rewrite length_fmap, length_seq.
  - intros j Hj. exists (rng j mod (len words - 1)).
    pose proof (Z.mod_pos_bound (rng j) (len words - 1) ltac:(lia)) as Hr.
    split; [done|]. split; [done|].
    unfold selection. rewrite list_lookup_fmap, lookup_seq_lt by done. simpl.
    destruct (lookup_lt_is_Some_2 words
                (Z.to_nat (rng j mod (len words - 1)))) as [w Hw].
    { unfold len in *. lia. }
    by rewrite Hw.
  - intros idxs Hlen Hidx.
    exists (fun j => default 0 (idxs !! j)), (selection words (fun j => default 0 (idxs !! j)) 0 count).
    split; [apply Hget|].
    apply Forall2_same_length_lookup. split.
    { unfold selection. by rewrite length_fmap, length_seq. }
    intros j i w Hi Hw.
    unfold selection in Hw. pose proof (lookup_lt_Some _ _ _ Hi) as Hj.
    rewrite list_lookup_fmap, lookup_seq_lt in Hw by lia. simpl in Hw.
    rewrite Hi in Hw. simpl in Hw.
    rewrite Forall_lookup in Hidx. specialize (Hidx j i Hi).
    rewrite Z.mod_small in Hw by done.
    destruct (lookup_lt_is_Some_2 words (Z.to_nat i)) as [w' Hw'].
    { unfold len in *. lia. }
    rewrite Hw' in Hw. simpl in Hw. congruence.
Qed.

Lemma getWords_draws_from_all_but_last_witness :
  let contents := str "cat" ++ [newline] ++ str "dog" ++ [newline] in
  let rng := fun j : nat => Z.of_nat j in
  let words := strings_Split contents newline in
  getWords (Some contents) rng (Z.of_nat 3)
  = Ok (selection words rng 0 3, None) /\
  length (selection words rng 0 3) = 3%nat /\
  (forall j, (j < 3)%nat ->
     exists i, 0 <= i < len words - 1 /\ i = rng j mod (len words - 1) /\
               selection words rng 0 3 !! j = words !! Z.to_nat i) /\
  (forall idxs : list Z,
     length idxs = 3%nat ->
     Forall (fun i => 0 <= i < len words - 1) idxs ->
     exists rng' ws,
       getWords (Some contents) rng' (Z.of_nat 3) = Ok (ws, None) /\
       Forall2 (fun i w => words !! Z.to_nat i = Some w) idxs ws) /\
  ghost_of_words (selection words rng 0 3)
  = strings_Join (selection words rng 0 3) [space].
Proof.
  apply (getWords_draws_from_all_but_last
           (str "cat" ++ [newline] ++ str "dog" ++ [newline]) 3
           (fun j : nat => Z.of_nat j)).
  vm_compute. discriminate.
Defined.

(** C8 as stated fails: of the two entries of the file "a\nb" the second is
    never selected, whatever the generator yields. *)
Lemma last_entry_is_never_selected :
  let contents := str "a" ++ [newline] ++ str "b" in
  strings_Split contents newline = [str "a"; str "b"] /\
  forall (rng : nat -> Z) (count : nat) (ws : list gostring) (e : option error),
    getWords (Some contents) rng (Z.of_nat count) = Ok (ws, e) ->
    str "b" ∉ ws.
Proof.
  split; [reflexivity|].
  intros rng count ws e H.
  rewrite getWords_Ok in H by (vm_compute; discriminate).
  injection H as <- _.
  unfold selection. intros (j & Hj & _)%list_elem_of_fmap.
  change (len (strings_Split _ newline) - 1) with 1 in Hj.
  rewrite Z.mod_1_r in Hj. vm_compute in Hj. discriminate.
Qed.

(** ** Magnitudes of binary64 values *)

Lemma digits2_pos_size (p : positive) : digits2_pos p = Pos.size p.
Proof. induction p as [p IH|p IH|]; simpl; by rewrite ?IH. Qed.

Lemma Zdigits2_log2 (p : positive) : Zdigits2 (Zpos p) = Z.log2 (Zpos p) + 1.
Proof.
  simpl. rewrite digits2_pos_size.
  destruct p as [p|p|]; simpl; try rewrite Pos2Z.inj_succ; lia.
Qed.

Lemma Zdigits2_nonneg (m : Z) : 0 <= m -> 0 <= Zdigits2 m.
Proof. destruct m; simpl; lia. Qed.

Lemma Zdigits2_bound (m : Z) : 0 <= m -> m < 2 ^ Zdigits2 m.
Proof.
  destruct m as [|p|p]; [done| |lia]. intros _.
  rewrite Zdigits2_log2. pose proof (Z.log2_spec (Zpos p)) as H.
  unfold Z.succ in H. lia.
Qed.

Lemma Zdigits2_lower (p : positive) : 2 ^ (Zdigits2 (Zpos p) - 1) <= Zpos p.
Proof.
  rewrite Zdigits2_log2. replace (Z.log2 (Zpos p) + 1 - 1) with (Z.log2 (Zpos p)) by lia.
  apply Z.log2_spec. lia.
Qed.

Lemma Zdigits2_le (m k : Z) : 0 <= m < 2 ^ k -> 0 <= k -> Zdigits2 m <= k.
Proof.
  destruct m as [|p|p]; [simpl; lia| |lia]. intros [_ H] Hk.
  rewrite Zdigits2_log2. apply Z.log2_lt_pow2 in H; lia.
Qed.

Lemma pow2_split (a b : Z) : 0 <= a -> 0 <= b -> 2 ^ (a + b) = 2 ^ a * 2 ^ b.
Proof. intros. by apply Z.pow_add_r. Qed.

Lemma pow2_pos (a : Z) : 0 <= a -> 0 < 2 ^ a.
Proof. intros. by apply Z.pow_pos_nonneg. Qed.

(** The mantissa of a shift record is below [2 ^ k]. *)
Definition below (k : Z) (mrs : shr_record) : Prop :=
  0 <= shr_m mrs < 2 ^ Z.max k 0.

Lemma shr_1_below (k : Z) (mrs : shr_record) :
  below k mrs -> below (k - 1) (shr_1 mrs).
Proof.
  unfold below. destruct mrs as [m r s]. simpl.
  destruct (Z.le_gt_cases k 0) as [Hk|Hk].
  - rewrite !Z.max_r by lia. simpl. intros H.
    assert (m = 0) as -> by lia. simpl. lia.
  - rewrite Z.max_l by lia.
    assert (2 ^ k = 2 * 2 ^ (k - 1)) as ->.
    { replace k with (Z.succ (k - 1)) at 1 by lia. apply Z.pow_succ_r. lia. }
    rewrite (Z.max_l (k - 1)) by lia.
    pose proof (pow2_pos (k - 1) ltac:(lia)).
    destruct m as [|[p|p|]|p]; simpl; lia.
Qed.

Lemma iter_shr_1_below (p : positive) (k : Z) (mrs : shr_record) :
  below k mrs -> below (k - Zpos p) (SpecFloat.iter_pos shr_1 p mrs).
Proof.
  revert k mrs. induction p as [p IH|p IH|]; intros k mrs H; simpl.
  - replace (k - Zpos p~1) with (k - 1 - Zpos p - Zpos p) by lia.
    by apply IH, IH, shr_1_below.
  - replace (k - Zpos p~0) with (k - Zpos p - Zpos p) by lia.
    by apply IH, IH.
  - by apply shr_1_below.
Qed.

Lemma shr_below (k : Z) (mrs : shr_record) (e n : Z) :
  below k mrs ->
  below (k - Z.max n 0) (shr mrs e n).1 /\ (shr mrs e n).2 = e + Z.max n 0.
Proof.
  intros H. destruct n as [|p|p]; simpl.
  - by rewrite Z.sub_0_r, Z.add_0_r.
  - split; [|done]. by apply iter_shr_1_below.
  - by rewrite Z.sub_0_r, Z.add_0_r.
Qed.

Lemma shr_record_of_loc_m (m : Z) (l : location) :
  shr_m (shr_record_of_loc m l) = m.
Proof. by destruct l as [|[]]. Qed.

Lemma fexp64 (e : Z) : fexp 53 1024 e = Z.max (e - 53) (-1074).
Proof. reflexivity. Qed.

Lemma shr_fexp_below (m e : Z) (l : location) :
  0 <= m ->
  let n := Z.max (fexp 53 1024 (Zdigits2 m + e) - e) 0 in
  below (Zdigits2 m - n) (shr_fexp 53 1024 m e l).1 /\
  (shr_fexp 53 1024 m e l).2 = e + n.
Proof.
  intros Hm n. unfold shr_fexp. apply shr_below.
  unfold below. rewrite shr_record_of_loc_m.
  pose proof (Zdigits2_nonneg m Hm). rewrite Z.max_l by lia.
  split; [done|]. by apply Zdigits2_bound.
Qed.

Lemma round_nearest_even_bounds (m : Z) (l : location) :
  m <= round_nearest_even m l <= m + 1.
Proof. destruct l as [|[]]; simpl; try destruct (Z.even m); lia. Qed.

(** A float that is zero, or positive and below [2 ^ B]. *)
Definition nonneg_below (B : Z) (f : spec_float) : Prop :=
  match f with
  | S754_zero _ => True
  | S754_finite false m e => Zdigits2 (Zpos m) + e <= B
  | _ => False
  end.

Lemma binary_round_aux_below (mx ex : Z) (lx : location) (B : Z) :
  0 <= mx -> Zdigits2 mx + ex <= B -> -1074 <= B <= 971 ->
  nonneg_below (B + 1) (binary_round_aux 53 1024 false mx ex lx).
Proof.
  intros Hmx Hmag HB. unfold binary_round_aux.
  pose proof (shr_fexp_below mx ex lx Hmx) as [H1 He1].
  destruct (shr_fexp 53 1024 mx ex lx) as [mrs1 e1]. simpl in H1, He1.
  set (mr := round_nearest_even (shr_m mrs1) (loc_of_shr_record mrs1)).
  pose proof (round_nearest_even_bounds (shr_m mrs1) (loc_of_shr_record mrs1)) as Hr.
  fold mr in Hr. unfold below in H1.
  pose proof (Zdigits2_nonneg mx Hmx) as Hd.
  set (d := Zdigits2 mx) in *.
  set (n1 := Z.max (fexp 53 1024 (d + ex) - ex) 0) in *.
  assert (0 <= mr) as Hmr by lia.
  assert (Zdigits2 mr <= Z.max (d - n1) 0 + 1) as Hd2.
  { apply Zdigits2_le; [|lia]. rewrite pow2_split by lia. change (2 ^ 1) with 2.
    pose proof (pow2_pos (Z.max (d - n1) 0) ltac:(lia)). lia. }
  pose proof (shr_fexp_below mr e1 loc_Exact Hmr) as [H2 He2].
  destruct (shr_fexp 53 1024 mr e1 loc_Exact) as [mrs2 e2]. simpl in H2, He2.
  unfold below in H2. pose proof (Zdigits2_nonneg mr Hmr) as Hd2'.
  set (d2 := Zdigits2 mr) in *.
  set (n2 := Z.max (fexp 53 1024 (d2 + e1) - e1) 0) in *.
  destruct (shr_m mrs2) as [|p|p] eqn:Hm2; [done| |lia].
  assert (0 < d2 - n2) as Hpos.
  { destruct (Z.le_gt_cases (d2 - n2) 0); [|done].
    rewrite Z.max_r in H2 by lia. simpl in H2. lia. }
  rewrite Z.max_l in H2 by lia.
  assert (Zdigits2 (Zpos p) <= d2 - n2) as Hdp by (apply Zdigits2_le; lia).
  assert (1 <= Zdigits2 (Zpos p)) as Hp1 by (rewrite Zdigits2_log2; pose proof (Z.log2_nonneg (Zpos p)); lia).
  assert (Zdigits2 (Zpos p) + e2 <= B + 1) as Hfin.
  { subst n1. rewrite fexp64 in *. lia. }
  assert ((e2 <=? 1024 - 53) = true) as -> by lia.
  done.
Qed.

Lemma iter_xO_bound (mx d : positive) (k : Z) :
  0 <= k -> Zpos mx < 2 ^ k -> Zpos (Pos.iter xO mx d) < 2 ^ (k + Zpos d).
Proof.
  intros Hk Hm. induction d as [|d IH] using Pos.peano_ind.
  - simpl. rewrite pow2_split by lia. change (2 ^ 1) with 2. lia.
  - rewrite Pos.iter_succ, Pos2Z.inj_succ.
    replace (k + Z.succ (Zpos d)) with (k + Zpos d + 1) by lia.
    rewrite pow2_split by lia. change (2 ^ 1) with 2. lia.
Qed.

Lemma shl_align_below (mx : positive) (ex ex' : Z) :
  Zdigits2 (Zpos (shl_align mx ex ex').1) + (shl_align mx ex ex').2
  <= Zdigits2 (Zpos mx) + ex.
Proof.
  unfold shl_align. destruct (ex' - ex) as [|d|d] eqn:Hd; simpl fst; simpl snd;
    [lia|lia|].
  pose proof (Zdigits2_nonneg (Zpos mx) ltac:(lia)) as Hk.
  pose proof (Zdigits2_bound (Zpos mx) ltac:(lia)) as Hm.
  pose proof (iter_xO_bound mx d _ Hk Hm) as Hb.
  assert (Zdigits2 (Zpos (Pos.iter xO mx d)) <= Zdigits2 (Zpos mx) + Zpos d)
    by (apply Zdigits2_le; lia).
  lia.
Qed.

Lemma of_int_below (n K : Z) :
  0 <= n < 2 ^ K -> 0 <= K <= 971 -> nonneg_below (K + 1) (F64.of_int n).
Proof.
  intros Hn HK. unfold F64.of_int, binary_normalize.
  destruct n as [|m|m]; [done| |lia].
  unfold binary_round.
  pose proof (shl_align_below m 0 (fexp 53 1024 (Zpos (digits2_pos m) + 0))) as Hs.
  destruct (shl_align m 0 _) as [mz ez]. simpl fst in Hs. simpl snd in Hs.
  apply binary_round_aux_below; [lia| |lia].
  assert (Zdigits2 (Zpos m) <= K) by (apply Zdigits2_le; lia). lia.
Qed.

Lemma SFdiv_core_below (m1 m2 : positive) (e1 e2 : Z) :
  let '(q, e, _) := SFdiv_core_binary 53 1024 (Zpos m1) e1 (Zpos m2) e2 in
  0 <= q /\
  Zdigits2 q + e
  <= Z.max (Zdigits2 (Zpos m1) + e1 - (Zdigits2 (Zpos m2) + e2) + 1) (-1074).
Proof.
  unfold SFdiv_core_binary.
  set (d1 := Zdigits2 (Zpos m1)). set (d2 := Zdigits2 (Zpos m2)).
  set (e' := Z.min (fexp 53 1024 (d1 + e1 - (d2 + e2))) (e1 - e2)).
  set (s := e1 - e2 - e').
  set (m' := match s with Z0 => Zpos m1 | Zpos _ => Z.shiftl (Zpos m1) s
             | Zneg _ => 0 end).
  assert (0 <= s) as Hs by (subst s e'; lia).
  assert (m' = Zpos m1 * 2 ^ s) as Hm'.
  { subst m'. destruct s as [|p|p] eqn:Hsp; [simpl; lia| |lia].
    by rewrite Z.shiftl_mul_pow2. }
  pose proof (Z_div_mod m' (Zpos m2) ltac:(lia)) as Hdiv.
  destruct (Z.div_eucl m' (Zpos m2)) as [q r].
  destruct Hdiv as [Hq Hr].
  pose proof (Zdigits2_bound (Zpos m1) ltac:(lia)) as Hb1. fold d1 in Hb1.
  pose proof (Zdigits2_lower m2) as Hb2. fold d2 in Hb2.
  assert (1 <= d2) as Hd2.
  { subst d2. rewrite Zdigits2_log2. pose proof (Z.log2_nonneg (Zpos m2)). lia. }
  assert (0 <= d1) as Hd1 by (apply Zdigits2_nonneg; lia).
  pose proof (pow2_pos s Hs) as Hps.
  pose proof (pow2_pos (d2 - 1) ltac:(lia)) as Hpd.
  assert (0 <= q) as Hq0 by nia.
  split; [done|].
  assert (q * 2 ^ (d2 - 1) < 2 ^ (d1 + s)) as Hlt.
  { rewrite pow2_split by lia. nia. }
  assert (e' <= Z.max (d1 + e1 - (d2 + e2) - 53) (-1074)) as He'.
  { subst e'. rewrite fexp64. lia. }
  assert (s = e1 - e2 - e') as Hse by done.
  clearbody s e'.
  destruct (Z.le_gt_cases (d2 - 1) (d1 + s)) as [Hge|Hless].
  - assert (q < 2 ^ (d1 + s - (d2 - 1))) as Hqb.
    { replace (d1 + s) with (d1 + s - (d2 - 1) + (d2 - 1)) in Hlt by lia.
      rewrite pow2_split in Hlt by lia. nia. }
    assert (Zdigits2 q <= d1 + s - (d2 - 1)) by (apply Zdigits2_le; lia).
    lia.
  - assert (q = 0) as ->.
    { assert (2 ^ (d1 + s) <= 2 ^ (d2 - 1)) by (apply Z.pow_le_mono_r; lia).
      nia. }
    simpl. lia.
Qed.

Lemma div_below (x y : float64) (Bx Ly : Z) :
  nonneg_below Bx x ->
  match y with
  | S754_finite false my ey => Ly <= Zdigits2 (Zpos my) + ey
  | _ => False
  end ->
  -1074 <= Bx - Ly + 1 <= 971 ->
  nonneg_below (Bx - Ly + 2) (F64.div x y).
Proof.
  intros Hx Hy HB. destruct y as [| | |[] my ey]; try done.
  destruct x as [sx| | |[] mx ex]; try done.
  unfold F64.div, SFdiv. cbn [nonneg_below] in Hx.
  pose proof (SFdiv_core_below mx my ex ey) as Hc.
  destruct (SFdiv_core_binary 53 1024 (Zpos mx) ex (Zpos my) ey) as [[q e] l].
  destruct Hc as [Hq Hmag].
  replace (Bx - Ly + 2) with (Bx - Ly + 1 + 1) by lia.
  apply binary_round_aux_below; lia.
Qed.

Lemma mul_below (x y : float64) (Bx By : Z) :
  nonneg_below Bx x -> nonneg_below By y ->
  -1074 <= Bx + By <= 971 ->
  nonneg_below (Bx + By + 1) (F64.mul x y).
Proof.
  intros Hx Hy HB.
  destruct x as [sx| | |[] mx ex]; try done;
    destruct y as [sy| | |[] my ey]; try done.
  unfold F64.mul, SFmul. cbn [nonneg_below] in Hx, Hy. simpl xorb.
  apply binary_round_aux_below; [lia| |lia].
  pose proof (Zdigits2_bound (Zpos mx) ltac:(lia)).
  pose proof (Zdigits2_bound (Zpos my) ltac:(lia)).
  pose proof (Zdigits2_nonneg (Zpos mx) ltac:(lia)).
  pose proof (Zdigits2_nonneg (Zpos my) ltac:(lia)).
  assert (Zdigits2 (Zpos (mx * my)) <= Zdigits2 (Zpos mx) + Zdigits2 (Zpos my)).
  { apply Zdigits2_le; [|lia]. rewrite pow2_split by lia.
    rewrite Pos2Z.inj_mul. nia. }
  lia.
Qed.

Lemma int_of_float64_below (f : float64) (B : Z) :
  nonneg_below B f -> B <= 63 -> 0 <= int_of_float64 f < 2 ^ 63.
Proof.
  intros Hf HB. unfold int_of_float64.
  assert (exists v, truncate f = Some v /\ 0 <= v < 2 ^ 63) as (v & -> & Hv).
  { destruct f as [s| | |[] m e]; try done.
    - exists 0. split; [done|lia].
    - cbn [nonneg_below] in Hf. eexists. split; [done|].
      pose proof (Zdigits2_bound (Zpos m) ltac:(lia)) as Hm.
      pose proof (Zdigits2_nonneg (Zpos m) ltac:(lia)) as Hd.
      assert (2 ^ (Zdigits2 (Zpos m) + e) <= 2 ^ 63) as Hle63.
      { destruct (Z.le_gt_cases 0 (Zdigits2 (Zpos m) + e)).
        - apply Z.pow_le_mono_r; lia.
        - rewrite Z.pow_neg_r by lia. lia. }
      destruct e as [|p|p].
      + rewrite Z.shiftl_0_r. rewrite Z.add_0_r in Hle63. lia.
      + rewrite Z.shiftl_mul_pow2 by lia.
        rewrite pow2_split in Hle63 by lia.
        pose proof (pow2_pos (Zpos p) ltac:(lia)). nia.
      + rewrite Z.shiftr_div_pow2 by lia.
        pose proof (pow2_pos (Zpos p) ltac:(lia)) as Hpp.
        pose proof (Z.div_pos (Zpos m) (2 ^ Zpos p) ltac:(lia) Hpp).
        pose proof (Z.div_le_upper_bound (Zpos m) (2 ^ Zpos p) (Zpos m) Hpp ltac:(nia)).
        split; [done|].
        destruct (Z.le_gt_cases (Zpos p) (Zdigits2 (Zpos m))) as [Hge|Hlt].
        * apply Z.div_lt_upper_bound; [done|].
          replace (Zdigits2 (Zpos m) + Zneg p) with (Zdigits2 (Zpos m) - Zpos p) in Hle63 by lia.
          replace (Zdigits2 (Zpos m)) with (Zpos p + (Zdigits2 (Zpos m) - Zpos p)) in Hm by lia.
          rewrite pow2_split in Hm by lia. nia.
        * rewrite Z.div_small; [lia|]. split; [lia|].
          assert (2 ^ Zdigits2 (Zpos m) <= 2 ^ Zpos p) by (apply Z.pow_le_mono_r; lia).
          lia. }
  unfold minInt, maxInt.
  destruct (- 2 ^ 63 <=? v) eqn:H1; destruct (v <=? 2 ^ 63 - 1) eqn:H2; simpl; lia.
Qed.

(** The words-per-minute figure is not negative when a whole number of
    seconds from 1 to 10 has elapsed and the typed text is shorter than
    2^53 bytes. *)
Lemma wpm_of_nonneg (n j : Z) :
  0 <= n < 2 ^ 53 -> 1 <= j <= 10 -> 0 <= wpm_of n (F64.of_int j).
Proof.
  intros Hn Hj. unfold wpm_of.
  assert (nonneg_below 6 (F64.div (F64.of_int 60) (F64.of_int j))) as Hc.
  { assert (j = 1 \/ j = 2 \/ j = 3 \/ j = 4 \/ j = 5 \/ j = 6 \/ j = 7 \/
            j = 8 \/ j = 9 \/ j = 10) as Hcases by lia.
    repeat destruct Hcases as [->|Hcases]; try subst j;
      vm_compute; discriminate. }
  pose proof (of_int_below n 53 Hn ltac:(lia)) as Hx.
  assert (nonneg_below 53 (F64.div (F64.of_int n) (F64.of_int 5))) as Hw.
  { change 53 with (54 - 3 + 2) at 1. apply div_below; [done| |lia].
    vm_compute. discriminate. }
  pose proof (mul_below _ _ 53 6 Hw Hc ltac:(lia)) as Hp.
  by apply (int_of_float64_below _ _ Hp).
Qed.

(** ** Rounding error of binary floating point *)

(** [2 ^ e] as a rational, for any integer exponent. *)
Definition exp2 (e : Z) : Q := (2 ^ e)%Q.

Lemma exp2_pos (e : Z) : (0 < exp2 e)%Q.
Proof. apply Qpower_0_lt. reflexivity. Qed.

Lemma exp2_add (a b : Z) : (exp2 (a + b) == exp2 a * exp2 b)%Q.
Proof. apply Qpower_plus. discriminate. Qed.

Lemma exp2_Z (n : Z) : 0 <= n -> (exp2 n == inject_Z (2 ^ n))%Q.
Proof. intros Hn. unfold exp2. by rewrite Zpower_Qpower. Qed.

Lemma exp2_0 : (exp2 0 == 1)%Q.
Proof. reflexivity. Qed.

Lemma exp2_1 : (exp2 1 == 2)%Q.
Proof. reflexivity. Qed.

Lemma exp2_succ (a : Z) : (exp2 (a + 1) == 2 * exp2 a)%Q.
Proof. rewrite exp2_add, exp2_1. ring. Qed.

Lemma exp2_pred (a : Z) : (exp2 (a - 1) == exp2 a / 2)%Q.
Proof.
  replace a with (a - 1 + 1) at 2 by lia. rewrite exp2_succ. field.
Qed.

Lemma exp2_opp (a : Z) : (exp2 a * exp2 (- a) == 1)%Q.
Proof. rewrite <- exp2_add. replace (a + - a) with 0 by lia. reflexivity. Qed.

(** The value of a finite float. *)
Definition value (f : spec_float) : Q :=
  match f with
  | S754_finite s m e =>
      ((if s then -1 else 1) * inject_Z (Zpos m) * exp2 e)%Q
  | _ => 0%Q
  end.

(** A shift record [(m, r, s)] locates [t] in [[m, m + 1)]: the round bit
    tells the half, the sticky bit whether [t] is off the grid point. *)
Definition locates (mrs : shr_record) (t : Q) : Prop :=
  let m := inject_Z (shr_m mrs) in
  match shr_r mrs, shr_s mrs with
  | false, false => (t == m)%Q
  | false, true => (m < t /\ t < m + (1 # 2))%Q
  | true, false => (t == m + (1 # 2))%Q
  | true, true => (m + (1 # 2) < t /\ t < m + 1)%Q
  end.

Lemma locates_ext (mrs : shr_record) (t t' : Q) :
  (t == t')%Q -> locates mrs t -> locates mrs t'.
Proof.
  unfold locates. intros Ht. destruct (shr_r mrs), (shr_s mrs); lra.
Qed.

Lemma inject_Z_xO (p : positive) :
  (inject_Z (Zpos p~0) == 2 * inject_Z (Zpos p))%Q.
Proof. rewrite Pos2Z.inj_xO, inject_Z_mult. reflexivity. Qed.

Lemma inject_Z_xI (p : positive) :
  (inject_Z (Zpos p~1) == 2 * inject_Z (Zpos p) + 1)%Q.
Proof. rewrite Pos2Z.inj_xI, inject_Z_plus, inject_Z_mult. reflexivity. Qed.

Lemma shr_1_locates (mrs : shr_record) (t : Q) :
  0 <= shr_m mrs -> locates mrs t -> locates (shr_1 mrs) (t * (1 # 2)).
Proof.
  destruct mrs as [m r s]. unfold locates. simpl. intros Hm.
  destruct m as [|[p|p|]|p]; [| | | |lia].
  - destruct r, s; simpl; change (inject_Z 0) with 0%Q; lra.
  - pose proof (inject_Z_xI p). destruct r, s; simpl; lra.
  - pose proof (inject_Z_xO p). destruct r, s; simpl; lra.
  - destruct r, s; simpl; change (inject_Z 1) with 1%Q;
      change (inject_Z 0) with 0%Q; lra.
Qed.

Lemma shr_1_m (mrs : shr_record) :
  0 <= shr_m mrs -> shr_m (shr_1 mrs) = shr_m mrs / 2.
Proof.
  destruct mrs as [m r s]. simpl. intros Hm.
  destruct m as [|[p|p|]|p]; cbn [shr_1 shr_m orb];
    [reflexivity| | |reflexivity|lia].
  - apply Z.div_unique with 1; lia.
  - apply Z.div_unique with 0; lia.
Qed.

Lemma iter_shr_1_locates (p : positive) (mrs : shr_record) (t : Q) :
  0 <= shr_m mrs -> locates mrs t ->
  locates (SpecFloat.iter_pos shr_1 p mrs) (t * exp2 (- Zpos p)) /\
  shr_m (SpecFloat.iter_pos shr_1 p mrs) = shr_m mrs / 2 ^ Zpos p.
Proof.
  assert (Hone : forall mrs t, 0 <= shr_m mrs -> locates mrs t ->
            locates (shr_1 mrs) (t * exp2 (- 1)) /\
            shr_m (shr_1 mrs) = shr_m mrs / 2 ^ 1 /\ 0 <= shr_m (shr_1 mrs)).
  { intros mrs' t' Hm' Hl'. split; [|split].
    - eapply locates_ext; [|by apply shr_1_locates].
      change (exp2 (-1)) with (1 # 2)%Q. reflexivity.
    - by apply shr_1_m.
    - rewrite shr_1_m by done. apply Z.div_pos; lia. }
  revert mrs t. induction p as [p IH|p IH|]; intros mrs t Hm Hl;
    cbn [SpecFloat.iter_pos].
  - destruct (Hone _ _ Hm Hl) as (H1 & H1m & H1p).
    destruct (IH _ _ H1p H1) as [H2 H2m].
    assert (0 <= shr_m (SpecFloat.iter_pos shr_1 p (shr_1 mrs))) as H2p.
    { rewrite H2m. apply Z.div_pos; lia. }
    destruct (IH _ _ H2p H2) as [H3 H3m]. split.
    + eapply locates_ext; [|exact H3].
      replace (- Zpos p~1) with (- 1 + (- Zpos p + - Zpos p)) by lia.
      rewrite !exp2_add. ring.
    + rewrite H3m, H2m, H1m, !Z.div_div by lia. f_equal.
      rewrite <- !Z.pow_add_r by lia. f_equal. lia.
  - destruct (IH _ _ Hm Hl) as [H2 H2m].
    assert (0 <= shr_m (SpecFloat.iter_pos shr_1 p mrs)) as H2p.
    { rewrite H2m. apply Z.div_pos; lia. }
    destruct (IH _ _ H2p H2) as [H3 H3m]. split.
    + eapply locates_ext; [|exact H3].
      replace (- Zpos p~0) with (- Zpos p + - Zpos p) by lia.
      rewrite !exp2_add. ring.
    + rewrite H3m, H2m, !Z.div_div by lia. f_equal.
      rewrite <- !Z.pow_add_r by lia. f_equal. lia.
  - destruct (Hone _ _ Hm Hl) as (H1 & H1m & _). by split.
Qed.

Lemma Zdigits2_gt (m k : Z) : 0 <= k -> 2 ^ k <= m -> k < Zdigits2 m.
Proof.
  intros Hk Hm. pose proof (pow2_pos k Hk).
  pose proof (Zdigits2_bound m ltac:(lia)) as Hb.
  pose proof (Zdigits2_nonneg m ltac:(lia)).
  apply (Z.pow_lt_mono_r_iff 2); lia.
Qed.

Lemma Zdigits2_eq (m k : Z) :
  0 < k -> 2 ^ (k - 1) <= m < 2 ^ k -> Zdigits2 m = k.
Proof.
  intros Hk [Hlo Hhi]. pose proof (pow2_pos (k - 1) ltac:(lia)).
  pose proof (Zdigits2_le m k ltac:(lia) ltac:(lia)).
  pose proof (Zdigits2_gt m (k - 1) ltac:(lia) Hlo). lia.
Qed.

Lemma Zdigits2_range (m : Z) :
  0 < m -> 2 ^ (Zdigits2 m - 1) <= m < 2 ^ Zdigits2 m.
Proof.
  intros Hm. destruct m as [|p|p]; try lia.
  split; [apply Zdigits2_lower|apply Zdigits2_bound; lia].
Qed.

Lemma round_nearest_even_locates (mrs : shr_record) (t : Q) :
  locates mrs t ->
  let mr := round_nearest_even (shr_m mrs) (loc_of_shr_record mrs) in
  (inject_Z mr - (1 # 2) <= t /\ t <= inject_Z mr + (1 # 2) /\
   inject_Z (shr_m mrs) <= t)%Q /\
  shr_m mrs <= mr <= shr_m mrs + 1.
Proof.
  destruct mrs as [m r s]. unfold locates. cbn [shr_m shr_r shr_s].
  pose proof (inject_Z_plus m 1) as Hp. change (inject_Z 1) with 1%Q in Hp.
  destruct r, s; cbn [loc_of_shr_record round_nearest_even]; intros Ht;
    try destruct (Z.even m); rewrite ?Hp; split; try lia; lra.
Qed.

Section Rounding.

Variables prec emax : Z.
Hypothesis Hprec : 0 < prec.

Lemma shr_fexp_locates (mx ex : Z) (lx : location) (t : Q) :
  0 < mx -> prec <= Zdigits2 mx ->
  emin prec emax <= Zdigits2 mx + ex - prec ->
  locates (shr_record_of_loc mx lx) t ->
  let n := Zdigits2 mx - prec in
  (shr_fexp prec emax mx ex lx).2 = ex + n /\
  locates (shr_fexp prec emax mx ex lx).1 (t * exp2 (- n)) /\
  shr_m (shr_fexp prec emax mx ex lx).1 = mx / 2 ^ n.
Proof.
  intros Hmx Hd Hemin Hl n. unfold shr_fexp, fexp.
  rewrite Z.max_l by lia.
  replace (Zdigits2 mx + ex - prec - ex) with n by (subst n; lia).
  assert (0 <= n) as Hn by (subst n; lia). clearbody n.
  destruct n as [|p|p]; [| |lia]; cbn [shr fst snd].
  - split; [lia|]. split.
    + eapply locates_ext; [|exact Hl]. change (exp2 (- 0)) with 1%Q. ring.
    + rewrite shr_record_of_loc_m. by rewrite Z.div_1_r.
  - split; [done|].
    pose proof (iter_shr_1_locates p (shr_record_of_loc mx lx) t) as Hi.
    rewrite shr_record_of_loc_m in Hi. apply Hi; [lia|done].
Qed.

(** Rounding a located value to the format: the result is normal and
    within relative error [2 ^ - prec] of the value. *)
Lemma binary_round_aux_correct (mx ex : Z) (lx : location) (t : Q) :
  0 < mx -> prec <= Zdigits2 mx ->
  locates (shr_record_of_loc mx lx) t ->
  emin prec emax <= Zdigits2 mx + ex - prec ->
  Zdigits2 mx + ex - prec + 1 <= emax - prec ->
  exists m e,
    binary_round_aux prec emax false mx ex lx = S754_finite false m e /\
    Zdigits2 (Zpos m) = prec /\
    Zdigits2 mx + ex - prec <= e <= Zdigits2 mx + ex - prec + 1 /\
    (t * exp2 ex * (1 - exp2 (- prec)) <= inject_Z (Zpos m) * exp2 e /\
     inject_Z (Zpos m) * exp2 e <= t * exp2 ex * (1 + exp2 (- prec)))%Q.
Proof.
  intros Hmx Hd Hl Hemin Hemax. unfold binary_round_aux.
  destruct (shr_fexp_locates mx ex lx t Hmx Hd Hemin Hl) as (He1 & Hl1 & Hm1).
  destruct (shr_fexp prec emax mx ex lx) as [mrs1 e1].
  cbn [fst snd] in He1, Hl1, Hm1.
  set (n := Zdigits2 mx - prec) in *.
  assert (0 <= n) as Hn by (subst n; lia).
  pose proof (Zdigits2_range mx Hmx) as [Hlo Hhi].
  pose proof (pow2_pos n Hn) as Hpn.
  pose proof (pow2_pos (prec - 1) ltac:(lia)) as Hpp.
  assert (2 ^ (prec - 1) <= shr_m mrs1 < 2 ^ prec) as [Hm1lo Hm1hi].
  { rewrite Hm1. split.
    - apply Z.div_le_lower_bound; [done|]. rewrite Z.mul_comm.
      rewrite <- pow2_split by lia.
      replace (prec - 1 + n) with (Zdigits2 mx - 1) by (subst n; lia). done.
    - apply Z.div_lt_upper_bound; [done|]. rewrite <- pow2_split by lia.
      replace (n + prec) with (Zdigits2 mx) by (subst n; lia). done. }
  destruct (round_nearest_even_locates mrs1 _ Hl1) as ((Hr1 & Hr2 & Hr3) & Hmr).
  set (mr := round_nearest_even (shr_m mrs1) (loc_of_shr_record mrs1)) in *.
  set (t1 := (t * exp2 (- n))%Q) in *.
  assert (t * exp2 ex == t1 * exp2 e1)%Q as HX.
  { subst t1. rewrite He1, exp2_add.
    transitivity (t * exp2 ex * (exp2 n * exp2 (- n)))%Q; [|ring].
    rewrite exp2_opp. ring. }
  assert (inject_Z (2 ^ (prec - 1)) * exp2 (- prec) == 1 # 2)%Q as Hhalf.
  { rewrite <- exp2_Z by lia. rewrite <- exp2_add.
    replace (prec - 1 + - prec) with (-1) by lia. reflexivity. }
  assert (inject_Z (2 ^ (prec - 1)) <= t1)%Q as Ht1.
  { apply Qle_trans with (inject_Z (shr_m mrs1)); [|done].
    by rewrite <- Zle_Qle. }
  pose proof (exp2_pos e1) as HE. pose proof (exp2_pos (- prec)) as Hu.
  assert (t1 * exp2 e1 * (1 - exp2 (- prec)) <= inject_Z mr * exp2 e1 /\
          inject_Z mr * exp2 e1 <= t1 * exp2 e1 * (1 + exp2 (- prec)))%Q
    as Herr.
  { set (E := exp2 e1) in *. set (u := exp2 (- prec)) in *.
    set (P := inject_Z (2 ^ (prec - 1))) in *. set (M := inject_Z mr) in *.
    assert ((1 # 2) <= t1 * u)%Q by nra.
    split; nra. }
  clearbody t1 mr.
  assert (2 ^ prec = 2 * 2 ^ (prec - 1)) as Hsplit.
  { replace prec with (prec - 1 + 1) at 1 by lia.
    rewrite pow2_split by lia. change (2 ^ 1) with 2. lia. }
  assert (mr < 2 ^ prec \/ mr = 2 ^ prec) as [Hlt|Heq] by lia.
  - assert (Zdigits2 mr = prec) as Hdr by (apply Zdigits2_eq; lia).
    unfold shr_fexp, fexp. rewrite Hdr.
    replace (Z.max (prec + e1 - prec) (emin prec emax) - e1) with 0 by lia.
    cbn [shr shr_record_of_loc shr_m].
    destruct mr as [|m|m]; [lia| |lia].
    assert ((e1 <=? emax - prec) = true) as -> by lia.
    exists m, e1. split; [done|]. split; [done|]. split; [lia|].
    rewrite HX. exact Herr.
  - assert (Zdigits2 mr = prec + 1) as Hdr.
    { apply Zdigits2_eq; [lia|]. replace (prec + 1 - 1) with prec by lia.
      rewrite pow2_split by lia. change (2 ^ 1) with 2.
      pose proof (pow2_pos prec ltac:(lia)). lia. }
    unfold shr_fexp, fexp. rewrite Hdr.
    replace (Z.max (prec + 1 + e1 - prec) (emin prec emax) - e1) with 1 by lia.
    cbn [shr SpecFloat.iter_pos shr_record_of_loc].
    pose proof (shr_1_m (Build_shr_record mr false false) ltac:(simpl; lia))
      as Hs. cbn [shr_m] in Hs.
    assert (mr / 2 = 2 ^ (prec - 1)) as Hhalf2.
    { rewrite Heq, Hsplit, Z.mul_comm. by rewrite Z.div_mul. }
    rewrite Hhalf2 in Hs. rewrite Hs.
    destruct (2 ^ (prec - 1)) as [|m|m] eqn:Hm; [lia| |lia].
    assert ((e1 + 1 <=? emax - prec) = true) as -> by lia.
    exists m, (e1 + 1). split; [done|]. split.
    { apply Zdigits2_eq; lia. }
    split; [lia|].
    assert (inject_Z (Zpos m) * exp2 (e1 + 1) == inject_Z mr * exp2 e1)%Q
      as ->; [|rewrite HX; exact Herr].
    rewrite exp2_succ, Heq, Hsplit.
    rewrite inject_Z_mult. change (inject_Z 2) with 2%Q. ring.
Qed.

End Rounding.

(** A positive normal float: full-width mantissa, exponent in a range. *)
Definition normal (prec : Z) (f : spec_float) (lo hi : Z) : Prop :=
  match f with
  | S754_finite false m e => Zdigits2 (Zpos m) = prec /\ lo <= e <= hi
  | _ => False
  end.

Lemma normal_value_pos (prec : Z) (f : spec_float) (lo hi : Z) :
  normal prec f lo hi -> (0 < value f)%Q.
Proof.
  destruct f as [| | |[] m e]; try done. intros _. unfold value.
  pose proof (exp2_pos e).
  assert (0 < inject_Z (Zpos m))%Q by (rewrite <- (Zlt_Qlt 0); lia).
  nra.
Qed.

Lemma iter_xO_mul (m d : positive) :
  Zpos (Pos.iter xO m d) = Zpos m * 2 ^ Zpos d.
Proof.
  induction d as [|d IH] using Pos.peano_ind.
  - simpl. lia.
  - rewrite Pos.iter_succ, Pos2Z.inj_succ, Z.pow_succ_r by lia.
    rewrite Pos2Z.inj_xO, IH. lia.
Qed.

Lemma new_location_locates (q my r : Z) :
  0 < my -> 0 <= r < my ->
  locates (shr_record_of_loc q (new_location my r))
    (inject_Z q + inject_Z r / inject_Z my).
Proof.
  intros Hmy Hr.
  assert (0 < inject_Z my)%Q as HMY by (rewrite <- (Zlt_Qlt 0); lia).
  set (f := (inject_Z r / inject_Z my)%Q).
  assert (f * inject_Z my == inject_Z r)%Q as Hf.
  { subst f. field. lra. }
  assert (forall a : Z, (inject_Z a * 2 == inject_Z (2 * a))%Q) as H2.
  { intros a. rewrite inject_Z_mult. change (inject_Z 2) with 2%Q. ring. }
  assert (0 <= f)%Q as Hf0.
  { assert (0 <= inject_Z r)%Q by (rewrite <- (Zle_Qle 0); lia).
    subst f. apply Qle_shift_div_l; [done|]. lra. }
  assert (r = 0 -> (f == 0)%Q) as Hzero.
  { intros ->. subst f. change (inject_Z 0) with 0%Q. field. lra. }
  assert (0 < r -> (0 < f)%Q) as Hpos.
  { intros H. assert (0 < inject_Z r)%Q by (rewrite <- (Zlt_Qlt 0); lia).
    subst f. apply Qlt_shift_div_l; [done|]. lra. }
  assert (2 * r < my -> (f < (1 # 2))%Q) as Hlt.
  { intros H. rewrite Zlt_Qlt, <- H2 in H by done.
    subst f. apply Qlt_shift_div_r; [done|]. lra. }
  assert (2 * r = my -> (f == (1 # 2))%Q) as Heq.
  { intros H. subst f. rewrite <- H, <- H2 by done.
    assert (0 < inject_Z r)%Q by (rewrite <- (Zlt_Qlt 0); lia).
    field. lra. }
  assert (my < 2 * r -> ((1 # 2) < f)%Q) as Hgt.
  { intros H. rewrite Zlt_Qlt, <- H2 in H by done.
    subst f. apply Qlt_shift_div_l; [done|]. lra. }
  assert (f < 1)%Q as Hf1.
  { subst f. apply Qlt_shift_div_r; [done|]. rewrite Qmult_1_l.
    rewrite <- Zlt_Qlt. lia. }
  clearbody f. unfold new_location, new_location_even, new_location_odd.
  destruct (Z.even my) eqn:Hev.
  - destruct (r =? 0) eqn:Hr0.
    + unfold locates. simpl. rewrite Hzero by lia. ring.
    + destruct (Z.compare_spec (2 * r) my) as [Hc|Hc|Hc];
        unfold locates; simpl.
      * rewrite Heq by done. ring.
      * pose proof (Hpos ltac:(lia)). pose proof (Hlt Hc). lra.
      * pose proof (Hgt Hc). lra.
  - destruct (r =? 0) eqn:Hr0.
    + unfold locates. simpl. rewrite Hzero by lia. ring.
    + assert (2 * r <> my) as Hodd.
      { intros <-. rewrite Z.even_mul in Hev. done. }
      destruct (Z.compare_spec (2 * r + 1) my) as [Hc|Hc|Hc];
        unfold locates; simpl.
      * pose proof (Hpos ltac:(lia)). pose proof (Hlt ltac:(lia)). lra.
      * pose proof (Hpos ltac:(lia)). pose proof (Hlt ltac:(lia)). lra.
      * pose proof (Hgt ltac:(lia)). lra.
Qed.

Section Operations.

Variables prec emax : Z.
Hypothesis Hprec : 0 < prec.

(** A full-width mantissa is left as it is. *)
Lemma binary_round_aux_exact (m : positive) (e : Z) :
  Zdigits2 (Zpos m) = prec -> emin prec emax <= e <= emax - prec ->
  binary_round_aux prec emax false (Zpos m) e loc_Exact
  = S754_finite false m e.
Proof.
  intros Hd He. unfold binary_round_aux, shr_fexp, fexp.
  rewrite Hd. replace (Z.max (prec + e - prec) (emin prec emax) - e) with 0 by lia.
  cbn [shr shr_record_of_loc shr_m loc_of_shr_record shr_r shr_s
       round_nearest_even].
  rewrite Hd. replace (Z.max (prec + e - prec) (emin prec emax) - e) with 0 by lia.
  cbn [shr shr_m]. by assert ((e <=? emax - prec) = true) as -> by lia.
Qed.

(** Integers below [2 ^ prec] convert without rounding. *)
Lemma binary_normalize_exact (n : Z) :
  0 < n < 2 ^ prec -> 2 <= emax -> prec <= emax ->
  normal prec (binary_normalize prec emax n 0 false)
    (Zdigits2 n - prec) (Zdigits2 n - prec) /\
  (value (binary_normalize prec emax n 0 false) == inject_Z n)%Q.
Proof.
  intros Hn Hemax Hpe. destruct n as [|p|p]; [lia| |lia].
  unfold binary_normalize, binary_round.
  change (Zpos (digits2_pos p)) with (Zdigits2 (Zpos p)).
  set (d := Zdigits2 (Zpos p)).
  pose proof (Zdigits2_range (Zpos p) ltac:(lia)) as [Hlo Hhi]. fold d in Hlo, Hhi.
  assert (1 <= d <= prec) as Hd.
  { split.
    - pose proof (Zdigits2_gt (Zpos p) 0 ltac:(lia) ltac:(change (2 ^ 0) with 1; lia)). lia.
    - apply Zdigits2_le; lia. }
  unfold fexp, emin. rewrite Z.add_0_r, Z.max_l by lia.
  unfold shl_align. rewrite Z.sub_0_r.
  destruct (d - prec) as [|k|k] eqn:Hk; [| lia |].
  - rewrite binary_round_aux_exact by (unfold emin; lia).
    split; [split; [lia|lia]|]. unfold value.
    change (exp2 0) with 1%Q. ring.
  - assert (Zdigits2 (Zpos (Pos.iter xO p k)) = prec) as Hdk.
    { apply Zdigits2_eq; [done|]. rewrite iter_xO_mul.
      pose proof (pow2_pos (Zpos k) ltac:(lia)).
      assert (2 ^ (prec - 1) = 2 ^ (d - 1) * 2 ^ Zpos k) as ->.
      { rewrite <- pow2_split by lia. f_equal. lia. }
      assert (2 ^ prec = 2 ^ d * 2 ^ Zpos k) as ->.
      { rewrite <- pow2_split by lia. f_equal. lia. }
      nia. }
    rewrite binary_round_aux_exact by (unfold emin; lia).
    split; [split; [done|lia]|]. unfold value.
    rewrite iter_xO_mul, inject_Z_mult, <- exp2_Z by lia.
    transitivity (inject_Z (Zpos p) * (exp2 (Zpos k) * exp2 (Zneg k)))%Q; [ring|].
    change (Zneg k) with (- Zpos k). rewrite exp2_opp. ring.
Qed.

Lemma SFdiv_correct (x y : spec_float) (lx hx ly hy : Z) :
  normal prec x lx hx -> normal prec y ly hy ->
  emin prec emax <= lx - hy - prec -> hx - ly + 2 <= emax ->
  normal prec (SFdiv prec emax x y) (lx - hy - prec) (hx - ly - prec + 2) /\
  (value x * (1 - exp2 (- prec)) <= value (SFdiv prec emax x y) * value y /\
   value (SFdiv prec emax x y) * value y <= value x * (1 + exp2 (- prec)))%Q.
Proof.
  intros Hx Hy Hlo Hhi.
  destruct x as [| | |[] mx ex]; try done. destruct y as [| | |[] my ey]; try done.
  destruct Hx as [Hdx Hex]. destruct Hy as [Hdy Hey].
  unfold SFdiv, SFdiv_core_binary. cbn [xorb]. cbv zeta. rewrite Hdx, Hdy.
  replace (Z.min (fexp prec emax (prec + ex - (prec + ey))) (ex - ey))
    with (ex - ey - prec) by (unfold fexp; lia).
  replace (ex - ey - (ex - ey - prec)) with prec by lia.
  assert (match prec with
          | 0 => Zpos mx
          | Zpos _ => Z.shiftl (Zpos mx) prec
          | Zneg _ => 0
          end = Zpos mx * 2 ^ prec) as ->.
  { rewrite <- Z.shiftl_mul_pow2 by lia. destruct prec; (done || lia). }
  pose proof (Zdigits2_range (Zpos mx) ltac:(lia)) as [Hxlo Hxhi].
  pose proof (Zdigits2_range (Zpos my) ltac:(lia)) as [Hylo Hyhi].
  rewrite Hdx in Hxlo, Hxhi. rewrite Hdy in Hylo, Hyhi.
  pose proof (pow2_pos prec ltac:(lia)) as Hpp2.
  pose proof (pow2_pos (prec - 1) ltac:(lia)) as Hpp1.
  assert (2 ^ prec = 2 * 2 ^ (prec - 1)) as Hsplit.
  { replace prec with (prec - 1 + 1) at 1 by lia.
    rewrite pow2_split by lia. change (2 ^ 1) with 2. lia. }
  pose proof (Z_div_mod (Zpos mx * 2 ^ prec) (Zpos my) ltac:(lia)) as Hdiv.
  destruct (Z.div_eucl (Zpos mx * 2 ^ prec) (Zpos my)) as [q r].
  destruct Hdiv as [Hq Hr].
  assert (2 ^ (prec - 1) <= q < 2 ^ (prec + 1)) as [Hqlo Hqhi].
  { rewrite (pow2_split prec 1) by lia. change (2 ^ 1) with 2. nia. }
  assert (prec <= Zdigits2 q <= prec + 1) as Hdq.
  { split.
    - pose proof (Zdigits2_gt q (prec - 1) ltac:(lia) Hqlo). lia.
    - apply Zdigits2_le; lia. }
  pose proof (new_location_locates q (Zpos my) r ltac:(lia) Hr) as Hloc.
  destruct (binary_round_aux_correct prec emax Hprec q (ex - ey - prec) _ _
              ltac:(lia) ltac:(lia) Hloc ltac:(lia) ltac:(lia))
    as (m & e & -> & Hdm & He & Hb1 & Hb2).
  split; [split; [done|lia]|].
  unfold value.
  assert (0 < inject_Z (Zpos my))%Q as HMY by (rewrite <- (Zlt_Qlt 0); lia).
  pose proof (exp2_pos ey) as HEY.
  assert ((inject_Z q + inject_Z r / inject_Z (Zpos my)) * exp2 (ex - ey - prec)
            * (inject_Z (Zpos my) * exp2 ey)
          == inject_Z (Zpos mx) * exp2 ex)%Q as HX.
  { transitivity ((inject_Z (Zpos my) * inject_Z q + inject_Z r)
                  * (exp2 (ex - ey - prec) * exp2 ey))%Q; [field; lra|].
    rewrite <- inject_Z_mult, <- inject_Z_plus, <- Hq, <- exp2_add.
    rewrite inject_Z_mult, <- exp2_Z by lia.
    transitivity (inject_Z (Zpos mx) * (exp2 prec * exp2 (ex - ey - prec + ey)))%Q;
      [ring|].
    rewrite <- exp2_add. replace (prec + (ex - ey - prec + ey)) with ex by lia.
    ring. }
  set (X := ((inject_Z q + inject_Z r / inject_Z (Zpos my))
             * exp2 (ex - ey - prec))%Q) in *.
  set (R := (inject_Z (Zpos m) * exp2 e)%Q) in *.
  set (VY := (inject_Z (Zpos my) * exp2 ey)%Q) in *.
  assert (0 < VY)%Q as HVY by (subst VY; nra).
  pose proof (exp2_pos (- prec)) as Hu.
  rewrite !Qmult_1_l. rewrite <- HX.
  pose proof (Qmult_le_compat_r _ _ VY Hb1 (Qlt_le_weak _ _ HVY)) as H1.
  pose proof (Qmult_le_compat_r _ _ VY Hb2 (Qlt_le_weak _ _ HVY)) as H2.
  change (X * VY * (1 - exp2 (- prec)) <= R * VY /\
          R * VY <= X * VY * (1 + exp2 (- prec)))%Q.
  clearbody X R VY. split; lra.
Qed.

Lemma SFmul_correct (x y : spec_float) (lx hx ly hy : Z) :
  normal prec x lx hx -> normal prec y ly hy ->
  emin prec emax <= lx + ly + prec - 1 -> hx + hy + 2 * prec + 1 <= emax ->
  normal prec (SFmul prec emax x y) (lx + ly + prec - 1) (hx + hy + prec + 1) /\
  (value x * value y * (1 - exp2 (- prec)) <= value (SFmul prec emax x y) /\
   value (SFmul prec emax x y) <= value x * value y * (1 + exp2 (- prec)))%Q.
Proof.
  intros Hx Hy Hlo Hhi.
  destruct x as [| | |[] mx ex]; try done. destruct y as [| | |[] my ey]; try done.
  destruct Hx as [Hdx Hex]. destruct Hy as [Hdy Hey].
  unfold SFmul. cbn [xorb].
  pose proof (Zdigits2_range (Zpos mx) ltac:(lia)) as [Hxlo Hxhi].
  pose proof (Zdigits2_range (Zpos my) ltac:(lia)) as [Hylo Hyhi].
  rewrite Hdx in Hxlo, Hxhi. rewrite Hdy in Hylo, Hyhi.
  pose proof (pow2_pos (prec - 1) ltac:(lia)) as Hpp1.
  assert (2 ^ (prec - 1 + (prec - 1)) <= Zpos (mx * my) < 2 ^ (prec + prec))
    as [Hplo Hphi].
  { rewrite !pow2_split by lia. rewrite Pos2Z.inj_mul. nia. }
  assert (2 * prec - 1 <= Zdigits2 (Zpos (mx * my)) <= 2 * prec) as Hdp.
  { split.
    - pose proof (Zdigits2_gt (Zpos (mx * my)) (prec - 1 + (prec - 1))
                    ltac:(lia) Hplo). lia.
    - apply Zdigits2_le; [|lia]. replace (2 * prec) with (prec + prec) by lia.
      lia. }
  assert (locates (shr_record_of_loc (Zpos (mx * my)) loc_Exact)
            (inject_Z (Zpos (mx * my)))) as Hloc by (unfold locates; simpl; lra).
  destruct (binary_round_aux_correct prec emax Hprec (Zpos (mx * my)) (ex + ey)
              _ _ ltac:(lia) ltac:(lia) Hloc ltac:(lia) ltac:(lia))
    as (m & e & -> & Hdm & He & Hb1 & Hb2).
  split; [split; [done|lia]|].
  unfold value. rewrite !Qmult_1_l.
  assert (inject_Z (Zpos (mx * my)) * exp2 (ex + ey)
          == inject_Z (Zpos mx) * exp2 ex * (inject_Z (Zpos my) * exp2 ey))%Q
    as HX.
  { rewrite Pos2Z.inj_mul, inject_Z_mult, exp2_add. ring. }
  rewrite <- HX. by split.
Qed.

End Operations.

Lemma value_finite (m : positive) (e : Z) :
  (value (S754_finite false m e) == inject_Z (Zpos m) * exp2 e)%Q.
Proof. unfold value. ring. Qed.

(** [truncate] takes the integer part. *)
Lemma truncate_floor (m : positive) (e : Z) :
  exists v, truncate (S754_finite false m e) = Some v /\
    (inject_Z v <= value (S754_finite false m e) /\
     value (S754_finite false m e) < inject_Z v + 1)%Q.
Proof.
  pose proof (value_finite m e) as Hv.
  set (V := value (S754_finite false m e)) in *. clearbody V.
  unfold truncate. destruct e as [|p|p].
  - exists (Zpos m). rewrite Z.shiftl_0_r. split; [done|].
    change (exp2 0) with 1%Q in Hv. lra.
  - exists (Zpos m * 2 ^ Zpos p). rewrite Z.shiftl_mul_pow2 by lia.
    split; [done|]. rewrite exp2_Z, <- inject_Z_mult in Hv by lia. lra.
  - exists (Zpos m / 2 ^ Zpos p). rewrite Z.shiftr_div_pow2 by lia.
    split; [done|].
    pose proof (pow2_pos (Zpos p) ltac:(lia)) as Hp.
    pose proof (Z_div_mod_eq_full (Zpos m) (2 ^ Zpos p)) as Hdm.
    pose proof (Z.mod_pos_bound (Zpos m) (2 ^ Zpos p) Hp) as Hmod.
    set (v := Zpos m / 2 ^ Zpos p) in *.
    set (r := Zpos m mod 2 ^ Zpos p) in *.
    assert (inject_Z (Zpos m) == inject_Z (2 ^ Zpos p) * inject_Z v + inject_Z r)%Q
      as HM by (by rewrite <- inject_Z_mult, <- inject_Z_plus, <- Hdm).
    pose proof (exp2_opp (Zpos p)) as Hopp. rewrite exp2_Z in Hopp by lia.
    change (- Zpos p) with (Zneg p) in Hopp.
    pose proof (exp2_pos (Zneg p)) as HE.
    assert (0 <= inject_Z r)%Q by (rewrite <- (Zle_Qle 0); lia).
    assert (inject_Z r < inject_Z (2 ^ Zpos p))%Q by (rewrite <- Zlt_Qlt; lia).
    rewrite HM in Hv. clearbody v r.
    set (P := inject_Z (2 ^ Zpos p)) in *.
    set (E := exp2 (Zneg p)) in *. clearbody P E.
    assert (V == inject_Z v + inject_Z r * E)%Q as HV.
    { rewrite Hv. transitivity (inject_Z v * (P * E) + inject_Z r * E)%Q;
        [ring|]. rewrite Hopp. ring. }
    assert (0 <= inject_Z r * E)%Q by (apply Qmult_le_0_compat; lra).
    assert (inject_Z r * E < P * E)%Q by (apply Qmult_lt_compat_r; lra).
    split; lra.
Qed.

Lemma normal_weaken (prec : Z) (f : spec_float) (lo hi lo' hi' : Z) :
  normal prec f lo hi -> lo' <= lo -> hi <= hi' -> normal prec f lo' hi'.
Proof.
  destruct f as [| | |[] m e]; try done. intros [Hd He] Hlo Hhi.
  split; [done|lia].
Qed.

(** ** The words-per-minute figure against exact arithmetic *)

Lemma of_int_normal64 (n k : Z) :
  0 < n < 2 ^ k -> 0 < k <= 53 ->
  normal 53 (F64.of_int n) (-52) (k - 53) /\
  (value (F64.of_int n) == inject_Z n)%Q.
Proof.
  intros Hn Hk.
  assert (n < 2 ^ 53) as Hn53.
  { assert (2 ^ k <= 2 ^ 53) by (apply Z.pow_le_mono_r; lia). lia. }
  destruct (binary_normalize_exact 53 1024 ltac:(lia) n ltac:(lia) ltac:(lia)
              ltac:(lia)) as [Hnorm Hval].
  split; [|done]. eapply normal_weaken; [exact Hnorm| |].
  - pose proof (Zdigits2_gt n 0 ltac:(lia) ltac:(change (2 ^ 0) with 1; lia)).
    lia.
  - pose proof (Zdigits2_le n k ltac:(lia) ltac:(lia)). lia.
Qed.

(** Three roundings of relative error [2 ^ -53] move a figure below
    [12 * 2 ^ 40] by less than one part in a hundred. *)
Lemma wpm_error_budget (n s w q p v : Q) :
  (0 < n -> n < 1099511627776 -> 1 <= s -> 0 < w -> 0 < q ->
   n * (1 - (1 # 9007199254740992)) <= w * 5 ->
   w * 5 <= n * (1 + (1 # 9007199254740992)) ->
   60 * (1 - (1 # 9007199254740992)) <= q * s ->
   q * s <= 60 * (1 + (1 # 9007199254740992)) ->
   w * q * (1 - (1 # 9007199254740992)) <= p ->
   p <= w * q * (1 + (1 # 9007199254740992)) ->
   v <= p -> p < v + 1 ->
   s * v < 12 * n + 1 /\ 12 * n - 1 < s * (v + 1))%Q.
Proof.
  intros Hn Hn' Hs Hw Hq HW1 HW2 HQ1 HQ2 HP1 HP2 Hv1 Hv2.
  assert (0 <= w * 5)%Q as Ha0 by lra.
  assert (0 <= q * s)%Q as Hb0 by nra.
  pose proof (Qmult_le_compat_nonneg _ _ _ _ (conj Ha0 HW2) (conj Hb0 HQ2))
    as P1.
  assert (0 <= n * (1 - (1 # 9007199254740992)))%Q as Hc0 by nra.
  assert (0 <= 60 * (1 - (1 # 9007199254740992)))%Q as Hd0 by lra.
  pose proof (Qmult_le_compat_nonneg _ _ _ _ (conj Hc0 HW1) (conj Hd0 HQ1))
    as P2.
  assert (0 <= 5 * s)%Q as Hs5 by lra.
  pose proof (Qmult_le_compat_r _ _ (5 * s) HP2 Hs5) as P3.
  pose proof (Qmult_le_compat_r _ _ (5 * s) HP1 Hs5) as P4.
  assert (s * v <= s * p)%Q as P5 by nra.
  assert (s * p < s * (v + 1))%Q as P6 by nra.
  split; nra.
Qed.

(** Against the quotient in exact arithmetic, [12 * n / s] for [s] whole
    seconds: the binary64 figure is the floor of the quotient, or one less;
    and it is the floor whenever the quotient is not a whole number. *)
Lemma wpm_of_whole_seconds (n s : Z) :
  0 <= n < 2 ^ 40 -> 1 <= s <= 10 ->
  (12 * n) / s - 1 <= wpm_of n (F64.of_int s) <= (12 * n) / s /\
  ((12 * n) mod s <> 0 -> wpm_of n (F64.of_int s) = (12 * n) / s).
Proof.
  intros Hn Hs. unfold wpm_of.
  destruct (of_int_normal64 60 6 ltac:(lia) ltac:(lia)) as [N60 V60].
  destruct (of_int_normal64 s 4 ltac:(lia) ltac:(lia)) as [Ns Vs].
  destruct (of_int_normal64 5 3 ltac:(lia) ltac:(lia)) as [N5 V5].
  destruct (SFdiv_correct 53 1024 ltac:(lia) _ _ _ _ _ _ N60 Ns
              ltac:(unfold emin; lia) ltac:(lia)) as [NQ [HQ1 HQ2]].
  fold (F64.div (F64.of_int 60) (F64.of_int s)) in NQ, HQ1, HQ2.
  set (Q := F64.div (F64.of_int 60) (F64.of_int s)) in *.
  destruct (Z.eq_dec n 0) as [->|Hn0].
  { change (F64.div (F64.of_int 0) (F64.of_int 5)) with (S754_zero false).
    by destruct Q as [| | |[] mq eq]. }
  destruct (of_int_normal64 n 40 ltac:(lia) ltac:(lia)) as [Nn Vn].
  destruct (SFdiv_correct 53 1024 ltac:(lia) _ _ _ _ _ _ Nn N5
              ltac:(unfold emin; lia) ltac:(lia)) as [NW [HW1 HW2]].
  fold (F64.div (F64.of_int n) (F64.of_int 5)) in NW, HW1, HW2.
  set (W := F64.div (F64.of_int n) (F64.of_int 5)) in *.
  destruct (SFmul_correct 53 1024 ltac:(lia) _ _ _ _ _ _ NW NQ
              ltac:(unfold emin; lia) ltac:(lia)) as [NP [HP1 HP2]].
  fold (F64.mul W Q) in NP, HP1, HP2.
  set (P := F64.mul W Q) in *.
  pose proof (normal_value_pos _ _ _ _ NW) as HW0.
  pose proof (normal_value_pos _ _ _ _ NQ) as HQ0.
  rewrite V60, Vs in HQ1, HQ2. rewrite Vn, V5 in HW1, HW2.
  clearbody P W Q. destruct P as [| | |[] mp ep]; try done.
  destruct (truncate_floor mp ep) as (v & Htr & Hv1 & Hv2).
  assert (0 < inject_Z n)%Q as Hn' by (rewrite <- (Zlt_Qlt 0); lia).
  assert (inject_Z n < inject_Z (2 ^ 40))%Q as Hn'' by (rewrite <- Zlt_Qlt; lia).
  assert (1 <= inject_Z s)%Q as Hs' by (rewrite <- (Zle_Qle 1); lia).
  destruct (wpm_error_budget _ _ _ _ _ _ Hn' Hn'' Hs' HW0 HQ0 HW1 HW2 HQ1 HQ2
              HP1 HP2 Hv1 Hv2) as [HA HB].
  assert (s * v < 12 * n + 1 /\ 12 * n - 1 < s * (v + 1)) as [HA' HB'].
  { rewrite !Zlt_Qlt. unfold Z.sub.
    rewrite !inject_Z_plus, !inject_Z_mult, !inject_Z_plus. done. }
  unfold int_of_float64. rewrite Htr.
  assert (0 <= v < 2 ^ 62) as Hv.
  { assert (2 ^ 40 * 12 < 2 ^ 62) by done. nia. }
  assert ((minInt <=? v) && (v <=? maxInt) = true) as ->.
  { unfold minInt, maxInt. assert (2 ^ 62 < 2 ^ 63 - 1) by done. lia. }
  pose proof (Z.div_mod (12 * n) s ltac:(lia)) as Hdm.
  pose proof (Z.mod_pos_bound (12 * n) s ltac:(lia)) as Hmod.
  set (F := 12 * n / s) in *. set (r := (12 * n) mod s) in *.
  clearbody F r. split; [nia|]. intros Hr. nia.
Qed.

(** ** C6: words per minute on a tick *)

(** The timer as [initialModel] creates it and ticks leave it: a whole
    number of seconds from 0 to 10, counted down one second at a time. *)
Definition timer_wf (t : timer.Model) : Prop :=
  timer.Interval t = Second /\
  exists k, 0 <= k <= 10 /\ timer.Timeout t = k * Second.

(** The time elapsed since the count-down began, in nanoseconds. *)
Definition elapsed_ns (m : model) : Z :=
  DURATION - timer.Timeout (timer m).

(** The elapsed time is at least a tenth of a second. *)
Definition threshold_reached (m : model) : bool :=
  Second <=? 10 * elapsed_ns m.

(** [floor((n / 5) × (60 / elapsed))] in exact arithmetic, for an elapsed
    time in nanoseconds. *)
Definition exact_wpm (n elapsed : Z) : Z :=
  (n * 60 * Second) / (5 * elapsed).

Definition wpm_inv (m : model) : Prop :=
  timer_wf (timer m) /\ 0 <= wordsPerMinute m /\
  (threshold_reached m = false -> wordsPerMinute m = 0).

Lemma ten_cases (k : Z) :
  0 <= k <= 10 ->
  k = 0 \/ k = 1 \/ k = 2 \/ k = 3 \/ k = 4 \/ k = 5 \/ k = 6 \/ k = 7 \/
  k = 8 \/ k = 9 \/ k = 10.
Proof. lia. Qed.

Lemma elapsed_of_seconds (m : model) (k : Z) :
  0 <= k <= 10 -> timer.Timeout (timer m) = k * Second ->
  elapsed_of m = F64.of_int (10 - k).
Proof.
  intros Hk Ht. unfold elapsed_of. rewrite Ht.
  apply ten_cases in Hk.
  repeat destruct Hk as [->|Hk]; try subst k; vm_compute; reflexivity.
Qed.

Lemma threshold_seconds (j : Z) :
  0 <= j <= 10 -> F64.geb (F64.of_int j) f64_0_1 = (1 <=? j).
Proof.
  intros Hj. apply ten_cases in Hj.
  repeat destruct Hj as [->|Hj]; try subst j; vm_compute; reflexivity.
Qed.

Lemma elapsed_ns_seconds (m : model) (k : Z) :
  timer.Timeout (timer m) = k * Second -> elapsed_ns m = (10 - k) * Second.
Proof. intros Ht. unfold elapsed_ns, DURATION. rewrite Ht. lia. Qed.

Lemma threshold_reached_seconds (m : model) (k : Z) :
  timer.Timeout (timer m) = k * Second ->
  threshold_reached m = (1 <=? 10 - k).
Proof.
  intros Ht. unfold threshold_reached. rewrite (elapsed_ns_seconds m k Ht).
  unfold Second.
  destruct (Z.leb_spec 1 (10 - k)); destruct (Z.leb_spec 1000000000
    (10 * ((10 - k) * 1000000000))); (done || lia).
Qed.

Lemma exact_wpm_seconds (n s : Z) :
  0 < s ->
  exact_wpm n (s * Second) = (12 * n) / s /\
  ((n * 60 * Second) mod (5 * (s * Second)) = 0 <-> (12 * n) mod s = 0).
Proof.
  intros Hs. unfold exact_wpm.
  replace (n * 60 * Second) with (12 * n * (5 * Second)) by lia.
  replace (5 * (s * Second)) with (s * (5 * Second)) by lia.
  assert (0 < 5 * Second) as Hc by done.
  rewrite Z.div_mul_cancel_r by lia.
  rewrite Z.mul_mod_distr_r by lia. split; [done|]. split; [nia|].
  intros ->. done.
Qed.

Lemma initialModel_wpm_inv (text : gostring) : wpm_inv (initialModel text).
Proof.
  split; [|split; [done|done]].
  split; [done|]. exists 10. split; [lia|done].
Qed.

Lemma wpm_inv_same_timer (m m' : model) :
  timer m' = timer m -> wordsPerMinute m' = wordsPerMinute m ->
  wpm_inv m -> wpm_inv m'.
Proof.
  unfold wpm_inv, threshold_reached, elapsed_ns. by intros -> ->.
Qed.

(** C6.  In a state whose timer holds a whole number of seconds and whose
    typed text is shorter than 2^40 bytes, a tick before the time-out leaves
    the words per minute at 0 while less than a tenth of a second has
    elapsed; once the threshold is reached it sets them to
    [floor((len / 5) × (60 / elapsed))] or to one less, and to the floor
    itself whenever [(len / 5) × (60 / elapsed)] is not a whole number.  No
    other message changes them, and they are never negative. *)
Theorem words_per_minute_on_tick
    (m : model) (msg : Msg) (m' : model) (cmd : Cmd) :
  wpm_inv m -> len (typed m) < 2 ^ 40 ->
  Update m msg = Ok (m', cmd) ->
  wpm_inv m' /\
  match msg with
  | TickMsg =>
      if TimedOut m then wordsPerMinute m' = wordsPerMinute m
      else if threshold_reached m
           then let n := len (typed m) in
                let F := exact_wpm n (elapsed_ns m) in
                F - 1 <= wordsPerMinute m' <= F /\
                ((n * 60 * Second) mod (5 * elapsed_ns m) <> 0 ->
                 wordsPerMinute m' = F)
           else wordsPerMinute m' = 0
  | _ => wordsPerMinute m' = wordsPerMinute m
  end.
Proof.
  intros Hinv Hlen H. destruct msg as [k| |].
  - assert (timer m' = timer m /\ wordsPerMinute m' = wordsPerMinute m)
      as [Ht Hw].
    { apply Update_key_inv in H as [H|(m1 & c1 & Hk & H)].
      - by apply handleKey_frame in H as ->.
      - apply handleKey_frame in Hk as (Hw1 & Ht1 & _). simpl in H.
        destruct (started m1).
        + apply calculateAccuracy_Ok in H as (_ & _ & Hw2 & Ht2 & _).
          simpl in Hw2, Ht2. split; congruence.
        + subst m'. simpl. by split. }
    split; [by eapply wpm_inv_same_timer|done].
  - apply Update_Tick_inv in H as (_ & _ & _ & _ & _ & _ & H).
    destruct (TimedOut m) eqn:Hto; [by subst m'|].
    destruct H as [Ht Hw].
    destruct Hinv as ((Hint & k & Hk & Htk) & Hnn & Hzero).
    unfold TimedOut, timer.Timedout in Hto. rewrite Htk in Hto.
    assert (1 <= k) as Hk1 by (unfold Second in Hto; lia).
    rewrite (threshold_reached_seconds m k Htk) in *.
    rewrite (elapsed_of_seconds m k Hk Htk) in Hw.
    rewrite threshold_seconds in Hw by lia.
    rewrite (elapsed_ns_seconds m k Htk).
    pose proof (len_nonneg (typed m)) as Hn.
    assert (timer.Timeout (timer m') = (k - 1) * Second \/
            timer.Timeout (timer m') = k * Second) as Ht'.
    { rewrite Ht. unfold timer.Update, timer.Running, timer.Timedout.
      rewrite Htk.
      destruct (k * Second <=? 0) eqn:Hle; [unfold Second in Hle; lia|].
      destruct (timer.running (timer m)); simpl; [left|right; exact Htk].
      rewrite Hint. lia. }
    assert (timer.Interval (timer m') = Second) as Hint'.
    { rewrite Ht. unfold timer.Update.
      by destruct (negb (timer.Running (timer m))). }
    assert (0 <= wordsPerMinute m' /\
            (if 1 <=? 10 - k
             then wordsPerMinute m' = wpm_of (len (typed m)) (F64.of_int (10 - k))
             else wordsPerMinute m' = 0)) as [Hnn' Hval].
    { destruct (1 <=? 10 - k) eqn:Hth.
      - split; [|done]. rewrite Hw. apply wpm_of_nonneg; [|lia].
        assert (2 ^ 40 < 2 ^ 53) by done. lia.
      - rewrite Hw, (Hzero eq_refl). by split. }
    split.
    + split; [|split; [done|]].
      * split; [done|]. destruct Ht' as [Ht'|Ht'];
          [exists (k - 1)|exists k]; (split; [lia|done]).
      * intros Hth'. destruct (1 <=? 10 - k) eqn:Hth; [|done].
        exfalso. destruct Ht' as [Ht'|Ht'];
          rewrite (threshold_reached_seconds m' _ Ht') in Hth'; lia.
    + destruct (1 <=? 10 - k) eqn:Hth; [|done]. cbv zeta.
      destruct (exact_wpm_seconds (len (typed m)) (10 - k) ltac:(lia))
        as [-> Hmod].
      destruct (wpm_of_whole_seconds (len (typed m)) (10 - k)
                  ltac:(lia) ltac:(lia)) as [Hb Hex].
      rewrite Hval. split; [done|]. intros Hne. apply Hex.
      intros H0. apply Hne. by apply Hmod.
  - unfold Update in H. injection H as <- _. by split.
Qed.

Lemma words_per_minute_on_tick_witness :
  let m := session "cat dog" (chars "catx" ++ ticks 1) in
  let m' := session "cat dog" (chars "catx" ++ ticks 2) in
  wpm_inv m' /\
  if TimedOut m then wordsPerMinute m' = wordsPerMinute m
  else if threshold_reached m
       then let n := len (typed m) in
            let F := exact_wpm n (elapsed_ns m) in
            F - 1 <= wordsPerMinute m' <= F /\
            ((n * 60 * Second) mod (5 * elapsed_ns m) <> 0 ->
             wordsPerMinute m' = F)
       else wordsPerMinute m' = 0.
Proof.
  apply (words_per_minute_on_tick
           (session "cat dog" (chars "catx" ++ ticks 1)) TickMsg
           (session "cat dog" (chars "catx" ++ ticks 2))
           (CmdBatch CmdTick CmdTimeout)).
  - split; [|split].
    + split; [reflexivity|]. exists 9. split; [lia|reflexivity].
    + vm_compute. discriminate.
    + intros _. vm_compute. reflexivity.
  - vm_compute. reflexivity.
  - vm_compute. reflexivity.
Defined.

(** The figure is computed in binary64, so rounding shows: 41 characters
    after one second are 8.2 words, and 8.2 * 60 rounds to just below 492. *)
Example wpm_of_41_after_1s : wpm_of 41 (F64.of_int 1) = 491.
Proof. vm_compute. reflexivity. Qed.

(** With 41 characters typed when the second tick arrives, one second after
    the count-down began, the program shows 491 words per minute where
    [floor((41 / 5) × (60 / 1))] is 492. *)
Lemma floor_is_missed_by_one :
  let text := "aaaaaaaaaaaaaaaaaaaaaaaaaaaaaaaaaaaaaaaaaaaaaaaaaa"%string in
  let m := session text
             (chars "aaaaaaaaaaaaaaaaaaaaaaaaaaaaaaaaaaaaaaaaa" ++ ticks 1) in
  TimedOut m = false /\ threshold_reached m = true /\
  len (typed m) = 41 /\ elapsed_ns m = Second /\
  exact_wpm (len (typed m)) (elapsed_ns m) = 492 /\
  exists m' cmd, Update m TickMsg = Ok (m', cmd) /\ wordsPerMinute m' = 491.
Proof.
  cbv zeta. do 5 (split; [vm_compute; reflexivity|]).
  eexists _, _. split; vm_compute; reflexivity.
Qed.

(** ** The error positions and the high-water mark *)

Definition marks_inv (m : model) : Prop :=
  0 <= maxTyped m /\
  (started m = true -> len (typed m) <= maxTyped m) /\
  (forall j, j ∈ errorPositions m -> 0 <= j < maxTyped m).

Lemma initialModel_marks_inv (text : gostring) : marks_inv (initialModel text).
Proof. split; [done|]. split; [done|]. simpl. set_solver. Qed.

Lemma Update_marks_inv (m : model) (msg : Msg) (m' : model) (cmd : Cmd) :
  marks_inv m -> Update m msg = Ok (m', cmd) -> marks_inv m'.
Proof.
  intros (Hmax & Hst & HE) H. destruct msg as [k| |].
  2: { apply Update_Tick_inv in H as (Hti & _ & Hs & _ & HE' & Hm & _).
       unfold marks_inv, typed in *. rewrite Hti, Hs, HE', Hm. auto. }
  2: { unfold Update in H. injection H as <- _. unfold marks_inv. auto. }
  apply Update_key_inv in H as [H|(m1 & c1 & Hk & H)].
  { apply handleKey_frame in H as ->. unfold marks_inv. auto. }
  apply handleKey_frame in Hk as (_ & _ & _ & HE1 & Hm1 & Hs1 & _).
  simpl in H. destruct (started m1) eqn:Hsm1.
  - apply calculateAccuracy_Ok in H as (Hti & _ & _ & _ & Hs' & _ & Hcase).
    destruct Hcase as [[Hnil ->]|(_ & _ & HE' & Hcase)].
    + unfold marks_inv. rewrite Hnil. simpl. rewrite HE1, Hm1.
      split; [done|]. split; [intros _; exact Hmax|done].
    + assert (typed m' = typed (with_textInput m1
                (textinput.Update (textInput m1) k).1)) as Hty.
      { unfold typed. by rewrite Hti. }
      rewrite <- Hty in *. simpl in Hcase, HE'. rewrite Hm1 in Hcase.
      rewrite HE1 in HE'. pose proof (len_nonneg (typed m')) as Hnn.
      assert (maxTyped m' = Z.max (maxTyped m) (len (typed m'))) as Hmax'.
      { destruct (maxTyped m <? len (typed m')) eqn:Hlt;
          destruct Hcase as [-> _]; lia. }
      unfold marks_inv. rewrite Hmax', HE'. split; [lia|]. split; [lia|].
      intros j [Hj|Hj]%elem_of_union.
      * apply HE in Hj. lia.
      * apply mismatches_bound in Hj. lia.
  - subst m'. unfold marks_inv. simpl. rewrite Hsm1, HE1, Hm1.
    split; [done|]. split; [done|exact HE].
Qed.

Lemma run_marks_inv (m : model) (msgs : list Msg) (m' : model) :
  marks_inv m -> run m msgs = Ok m' -> marks_inv m'.
Proof.
  revert m. induction msgs as [|msg msgs IH]; intros m Hm; simpl.
  - by intros [= <-].
  - unfold mbind, result_bind.
    destruct (Update m msg) as [[m1 cmd]|] eqn:Hu; [|done].
    intros Hr. apply (IH m1); [|done]. by eapply Update_marks_inv.
Qed.

Lemma marks_size (E : gset Z) (k : Z) :
  0 <= k -> (forall j, j ∈ E -> 0 <= j < k) -> Z.of_nat (size E) <= k.
Proof.
  intros Hk HE.
  assert (E ⊆ list_to_set (seqZ 0 k)) as Hsub.
  { intros j Hj. apply elem_of_list_to_set, elem_of_seqZ.
    apply HE in Hj. lia. }
  apply subseteq_size in Hsub.
  rewrite size_list_to_set in Hsub by apply NoDup_seqZ.
  rewrite length_seqZ in Hsub. lia.
Qed.


(** ** The accuracy against exact arithmetic *)

Definition is_finite (f : spec_float) : bool :=
  match f with
  | S754_zero _ | S754_finite _ _ _ => true
  | _ => false
  end.

(** A binary32 value within relative error [2 ^ -22] of a rational: what
    two roundings to nearest leave of it. *)
Definition approximates (f : float32) (x : Q) : Prop :=
  is_finite f = true /\
  (x * (1 - exp2 (-22)) <= value f /\ value f <= x * (1 + exp2 (-22)))%Q.

Lemma of_int_normal32 (n : Z) :
  0 < n < 2 ^ 24 ->
  normal 24 (F32.of_int n) (-23) 0 /\
  (value (F32.of_int n) == inject_Z n)%Q.
Proof.
  intros Hn.
  destruct (binary_normalize_exact 24 128 ltac:(lia) n ltac:(lia) ltac:(lia)
              ltac:(lia)) as [Hnorm Hval].
  split; [|done]. eapply normal_weaken; [exact Hnorm| |].
  - pose proof (Zdigits2_gt n 0 ltac:(lia) ltac:(change (2 ^ 0) with 1; lia)).
    lia.
  - pose proof (Zdigits2_le n 24 ltac:(lia) ltac:(lia)). lia.
Qed.

Lemma accuracy_error_budget (c n d a x : Q) :
  (0 < c -> 0 < n -> 0 < d -> x * n == 100 * c ->
   c * (1 - (1 # 16777216)) <= d * n -> d * n <= c * (1 + (1 # 16777216)) ->
   d * 100 * (1 - (1 # 16777216)) <= a ->
   a <= d * 100 * (1 + (1 # 16777216)) ->
   x * (1 - (1 # 4194304)) <= a /\ a <= x * (1 + (1 # 4194304)))%Q.
Proof.
  intros Hc Hn Hd Hx HD1 HD2 HA1 HA2.
  pose proof (Qmult_le_compat_r _ _ n HA1 (Qlt_le_weak _ _ Hn)) as P1.
  pose proof (Qmult_le_compat_r _ _ n HA2 (Qlt_le_weak _ _ Hn)) as P2.
  split; apply (Qmult_le_r _ _ n Hn); nra.
Qed.

(** The binary32 accuracy figure is within relative error [2 ^ -22] of
    [100 * c / n]. *)
Lemma accuracy_of_correct (c n : Z) :
  0 <= c <= n -> 0 < n < 2 ^ 24 ->
  approximates (accuracy_of c n) (100 * inject_Z c / inject_Z n).
Proof.
  intros Hc Hn. unfold accuracy_of.
  destruct (of_int_normal32 n Hn) as [Nn Vn].
  destruct (of_int_normal32 100 ltac:(lia)) as [N100 V100].
  assert (0 < inject_Z n)%Q as Hn' by (rewrite <- (Zlt_Qlt 0); lia).
  destruct (Z.eq_dec c 0) as [->|Hc0].
  { change (F32.of_int 0) with (S754_zero false).
    by destruct (F32.of_int n) as [| | |[] mn en]. }
  destruct (of_int_normal32 c ltac:(lia)) as [Nc Vc].
  destruct (SFdiv_correct 24 128 ltac:(lia) _ _ _ _ _ _ Nc Nn
              ltac:(unfold emin; lia) ltac:(lia)) as [ND [HD1 HD2]].
  fold (F32.div (F32.of_int c) (F32.of_int n)) in ND, HD1, HD2.
  set (D := F32.div (F32.of_int c) (F32.of_int n)) in *.
  destruct (SFmul_correct 24 128 ltac:(lia) _ _ _ _ _ _ ND N100
              ltac:(unfold emin; lia) ltac:(lia)) as [NA [HA1 HA2]].
  fold (F32.mul D (F32.of_int 100)) in NA, HA1, HA2.
  set (A := F32.mul D (F32.of_int 100)) in *.
  pose proof (normal_value_pos _ _ _ _ ND) as HD0.
  rewrite Vc, Vn in HD1, HD2. rewrite V100 in HA1, HA2.
  split; [by destruct A as [| | |[] ma ea]|].
  assert (0 < inject_Z c)%Q as Hc' by (rewrite <- (Zlt_Qlt 0); lia).
  assert (exp2 (- 24) == 1 # 16777216)%Q as Hu by reflexivity.
  assert (exp2 (-22) == 1 # 4194304)%Q as Hu' by reflexivity.
  rewrite Hu in HD1, HD2, HA1, HA2. rewrite Hu'.
  change (inject_Z 100) with 100%Q in *.
  apply (accuracy_error_budget (inject_Z c) (inject_Z n) (value D)); try done.
  field. lra.
Qed.

(** ** C4: accuracy moves only with the high-water mark *)

(** [100 × (n − errors) / n] in exact arithmetic. *)
Definition exact_accuracy (n errors : Z) : Q :=
  (100 * inject_Z (n - errors) / inject_Z n)%Q.

(** C4.  While the session is running (started, not timed out), after a
    Character or Backspace event that the program gets through: if the typed
    text is now longer than [maxTyped] was, [maxTyped] becomes its length
    [n] and the accuracy becomes [100 × (n − |errorPositions|) / n], with
    the error positions as they are after the marking pass and the quotient
    rounded to binary32 (for fewer than 2^24 characters, within relative
    error 2^-22); otherwise [maxTyped] and the accuracy are what they
    were. *)
Theorem accuracy_follows_high_water_mark
    (text : gostring) (msgs : list Msg)
    (m : model) (msg : Msg) (m' : model) (cmd : Cmd) :
  run (initialModel text) msgs = Ok m ->
  started m = true -> TimedOut m = false ->
  msg = Backspace \/ (exists c, msg = Character c) ->
  Update m msg = Ok (m', cmd) ->
  let n := len (typed m') in
  (maxTyped m < n -> n < 2 ^ 24 ->
   maxTyped m' = n /\
   approximates (accuracy m')
     (exact_accuracy n (Z.of_nat (size (errorPositions m'))))) /\
  (n <= maxTyped m ->
   maxTyped m' = maxTyped m /\ accuracy m' = accuracy m).
Proof.
  intros Hr Hs Ht Hmsg H.
  pose proof (run_marks_inv _ _ _ (initialModel_marks_inv text) Hr) as Hinv.
  pose proof (Update_marks_inv _ _ _ _ Hinv H) as (_ & _ & HE').
  destruct Hinv as (Hmax & _ & _).
  assert (exists k, msg = KeyMsg k /\ (k = KeyBackspace \/ exists c, k = KeyRunes [c]))
    as (k & -> & Hk).
  { destruct Hmsg as [->|[c ->]]; eexists; (split; [done|]); eauto. }
  apply Update_key_inv in H as [H|(m1 & c1 & Hh & H)].
  { exfalso. destruct Hk as [->|[c ->]].
    - by apply handleKey_Backspace_inv in H as (g & [=] & _).
    - apply handleKey_Runes_inv in H as [[Ht' _]|(_ & ? & _ & ? & [=])].
      congruence. }
  apply handleKey_frame in Hh as (_ & _ & Hacc & HE & Hmt & Hst & _).
  simpl in H. rewrite (Hst Hs) in H.
  apply calculateAccuracy_Ok in H as (Hti & _ & _ & _ & _ & _ & Hcase).
  assert (typed m' = typed (with_textInput m1
                              (textinput.Update (textInput m1) k).1)) as Hty.
  { unfold typed. by rewrite Hti. }
  intros n. subst n. rewrite Hty in *.
  destruct Hcase as [[Hnil ->]|(_ & _ & _ & Hcase)].
  - rewrite Hnil. simpl. change (len []) with 0. split; [lia|].
    intros _. by split.
  - simpl in Hcase. rewrite Hmt in Hcase.
    destruct (maxTyped m <? _) eqn:Hlt.
    + split; [|lia]. intros _ Hn24. destruct Hcase as [Hm' ->].
      split; [done|]. unfold exact_accuracy.
      rewrite Hm' in HE'. apply accuracy_of_correct; [|lia].
      pose proof (marks_size _ _ (len_nonneg _) HE'). lia.
    + split; [lia|]. intros _. destruct Hcase as [-> ->]. by split.
Qed.

Lemma accuracy_follows_high_water_mark_witness :
  let m := session "cat dog" (chars "cx") in
  let m' := session "cat dog" (chars "cxt") in
  let n := len (typed m') in
  (maxTyped m < n -> n < 2 ^ 24 ->
   maxTyped m' = n /\
   approximates (accuracy m')
     (exact_accuracy n (Z.of_nat (size (errorPositions m'))))) /\
  (n <= maxTyped m ->
   maxTyped m' = maxTyped m /\ accuracy m' = accuracy m).
Proof.
  apply (accuracy_follows_high_water_mark (str "cat dog") (chars "cx")
           (session "cat dog" (chars "cx")) (Character "t")
           (session "cat dog" (chars "cxt")) (CmdBatch CmdNil CmdNil)).
  - vm_compute. reflexivity.
  - reflexivity.
  - reflexivity.
  - right. by exists "t"%char.
  - vm_compute. reflexivity.
Defined.

(** * Further properties of the session engine *)

(** ** Alignment under every message *)

Lemma textinput_Update_end (ti : textinput.Model) (k : Key) :
  backs_up k = false ->
  textinput.pos ti = len (textinput.value ti) ->
  let ti' := (textinput.Update ti k).1 in
  textinput.pos ti' = len (textinput.value ti') /\
  textinput.focus ti' = textinput.focus ti /\
  textinput.value ti' =
    if textinput.focus ti then
      match k with
      | KeyBackspace =>
          take (Z.to_nat (textinput.pos ti - 1)) (textinput.value ti)
      | _ => textinput.value ti ++ Runes k
      end
    else textinput.value ti.
Proof.
  intros Hk Hpos. unfold textinput.Update.
  destruct (textinput.focus ti) eqn:Hf; simpl; [|done].
  pose proof (len_nonneg (textinput.value ti)) as Hnn.
  assert (forall v, let ti' := textinput.insertRunesFromUserInput ti v in
            textinput.pos ti' = len (textinput.value ti') /\
            textinput.focus ti' = true /\
            textinput.value ti' = textinput.value ti ++ v) as Hins.
  { intros v. rewrite insert_at_end by done. simpl.
    rewrite len_app. repeat split; [lia|done]. }
  destruct k; simpl; try apply Hins; try discriminate Hk.
  - rewrite delete_at_end by done. simpl. repeat split; [|done].
    unfold len. rewrite length_take. unfold len in *. lia.
  - rewrite Hpos, Z.ltb_irrefl, app_nil_r. by rewrite Hf.
  - unfold textinput.CursorEnd, textinput.SetCursor. simpl.
    rewrite clamp_in_range, app_nil_r by lia. by rewrite Hf.
  - unfold textinput.deleteCharacterForward.
    rewrite Hpos, Z.ltb_irrefl, andb_false_r, app_nil_r. by rewrite Hf.
Qed.

Lemma len_merge (g : gostring) (p : Z) :
  1 <= p <= len g -> len (merge g p) = len g - 1.
Proof.
  intros Hp. unfold merge. rewrite len_app. unfold len in *.
  rewrite length_take, length_drop. lia.
Qed.

Lemma first_space_at_lt (s : gostring) (k : nat) :
  first_space_at s k -> (k < length s)%nat.
Proof. intros [Hk _]. by apply lookup_lt_Some in Hk. Qed.

Lemma Update_aligned (m : model) (msg : Msg) (m' : model) (cmd : Cmd) :
  keeps_end msg -> aligned m -> Update m msg = Ok (m', cmd) -> aligned m'.
Proof.
  intros Hkeep [Hlen Hle] H. destruct msg as [k| |].
  2: { apply Update_Tick_inv in H as (Hti & Hg & _).
       unfold aligned, typed, cursor. by rewrite Hti, Hg. }
  2: { unfold Update in H. by injection H as <- _. }
  apply Update_key_inv in H as [H|(m1 & c1 & Hk & H)].
  { by apply handleKey_frame in H as ->. }
  pose proof (len_nonneg (typed m)) as Hnn.
  assert (textinput.pos (textInput m) = len (textinput.value (textInput m)))
    as Hpos by (symmetry; exact Hlen).
  simpl in H.
  (* the text input and the ghost text after the handler and the insertion *)
  assert (exists ti g,
            textInput m1 = ti /\ ghostText m1 = g /\
            textinput.pos ti = len (textinput.value ti) /\
            let ti' := (textinput.Update ti k).1 in
            (started m1 = false -> len (textinput.value ti') <= len g))
    as (ti & g & Hti & Hg & Hpos1 & Hfit).
  { destruct k.
    - by unfold handleKey in Hk.
    - by unfold handleKey in Hk.
    - apply handleKey_Backspace_inv in Hk as (g & [= -> ->] & Hg).
      exists (textInput m), g. repeat split; try done. cbv zeta. intros _.
      pose proof (textinput_Update_end (textInput m) KeyBackspace eq_refl Hpos)
        as (_ & _ & Hv). rewrite Hv.
      assert (len g >= len (ghostText m) - 1 /\
              (len g = len (ghostText m) - 1 -> cursor m < len (ghostText m)))
        as [Hg1 Hg2].
      { destruct Hg as [->|(Hr & _ & _ & ->)]; [lia|].
        rewrite len_merge by lia. lia. }
      unfold cursor, textinput.Position in *.
      destruct (textinput.focus (textInput m)).
      + unfold len at 1. rewrite length_take. unfold len in *.
        unfold typed, textinput.Value in *. lia.
      + unfold typed, textinput.Value in *.
        destruct (decide (len g = len (ghostText m) - 1)) as [He|He];
          [specialize (Hg2 He)|]; lia.
    - apply handleKey_Space_inv in Hk
        as [[_ [=]]|(_ & Hr & j & Hj & Hidx & [= -> ->])].
      eexists _, (ghostText m). split; [done|]. split; [done|].
      split; [done|]. cbv zeta. intros _.
      apply strings_Index_space in Hidx; [|done].
      apply first_space_at_lt in Hidx. rewrite length_drop in Hidx.
      match goal with |- context [textinput.Update ?t KeySpace] =>
        pose proof (textinput_Update_end t KeySpace eq_refl eq_refl)
          as (_ & _ & Hv)
      end.
      rewrite Hv. simpl.
      assert (len (typed m ++ replicate (Z.to_nat j) space) + 1
              <= len (ghostText m)) as Hroom.
      { rewrite len_app, len_replicate. unfold len in *. lia. }
      destruct (textinput.focus (textInput m)); [|lia].
      rewrite len_app. change (len [space]) with 1. lia.
    - apply handleKey_Runes_inv in Hk
        as [[_ [=]]|(_ & ch & _ & cmd' & [= -> ->])].
      eexists _, _. split; [done|]. split; [done|]. split; [done|].
      cbv zeta. by intros [=].
    - discriminate Hkeep.
    - unfold handleKey in Hk. injection Hk as <- _.
      exists (textInput m), (ghostText m). repeat split; try done.
      cbv zeta. intros _.
      pose proof (textinput_Update_end (textInput m) KeyRight eq_refl Hpos)
        as (_ & _ & Hv).
      rewrite Hv. simpl. rewrite app_nil_r.
      unfold typed, textinput.Value in Hlen.
      destruct (textinput.focus _); lia.
    - discriminate Hkeep.
    - unfold handleKey in Hk. injection Hk as <- _.
      exists (textInput m), (ghostText m). repeat split; try done.
      cbv zeta. intros _.
      pose proof (textinput_Update_end (textInput m) KeyEnd eq_refl Hpos)
        as (_ & _ & Hv).
      rewrite Hv. simpl. rewrite app_nil_r.
      unfold typed, textinput.Value in Hlen.
      destruct (textinput.focus _); lia.
    - unfold handleKey in Hk. injection Hk as <- _.
      exists (textInput m), (ghostText m). repeat split; try done.
      cbv zeta. intros _.
      pose proof (textinput_Update_end (textInput m) KeyDelete eq_refl Hpos)
        as (_ & _ & Hv).
      rewrite Hv. simpl. rewrite app_nil_r.
      unfold typed, textinput.Value in Hlen.
      destruct (textinput.focus _); lia. }
  pose proof (textinput_Update_end ti k Hkeep Hpos1) as (Hp' & _ & _).
  rewrite Hti in H.
  assert (textInput m' = (textinput.Update ti k).1 /\ ghostText m' = g /\
          len (textinput.value (textinput.Update ti k).1) <= len g)
    as (Hti' & Hg' & Hfit').
  { destruct (started m1) eqn:Hs.
    - apply calculateAccuracy_Ok in H
        as (Hti' & Hg' & _ & _ & _ & _ & Hcase).
      simpl in Hti', Hg'. split; [done|]. split; [congruence|].
      destruct Hcase as [[Hnil _]|(_ & Hfit' & _)].
      + unfold typed in Hnil. simpl in Hnil.
        unfold textinput.Value in Hnil. rewrite Hnil. apply len_nonneg.
      + unfold typed in Hfit'. simpl in Hfit'. by rewrite Hg in Hfit'.
    - subst m'. simpl. split; [done|]. split; [done|]. by apply Hfit. }
  unfold aligned, typed, cursor, textinput.Value, textinput.Position.
  rewrite Hti', Hg'. split; [by symmetry|]. by rewrite Hp'.
Qed.

Lemma run_aligned (m : model) (msgs : list Msg) (m' : model) :
  Forall keeps_end msgs -> aligned m -> run m msgs = Ok m' -> aligned m'.
Proof.
  intros Hkeep. revert m.
  induction Hkeep as [|msg msgs Hmsg _ IH]; intros m Hm; simpl.
  - by intros [= <-].
  - unfold mbind, result_bind.
    destruct (Update m msg) as [[m1 cmd]|] eqn:Hu; [|done].
    intros Hr. apply (IH m1); [|done]. by eapply Update_aligned.
Qed.



(** The Left key takes the cursor off the end of the typed text. *)
Lemma left_key_moves_cursor_back :
  let m := session "cat dog" (chars "ca" ++ [KeyMsg KeyLeft]) in
  typed m = str "ca" /\ cursor m = 1.
Proof. vm_compute. done. Qed.

(** ** The cursor under every key *)

Definition in_text (m : model) : Prop :=
  0 <= cursor m <= len (typed m) /\
  (started m = true -> len (typed m) <= len (ghostText m)).

Lemma clamp_range (v high : Z) :
  0 <= high -> 0 <= textinput.clamp v 0 high <= high.
Proof.
  intros Hh. unfold textinput.clamp. destruct (high <? 0) eqn:Hlt; lia.
Qed.

Lemma textinput_Update_in_text (ti : textinput.Model) (k : Key) :
  0 <= textinput.pos ti <= len (textinput.value ti) ->
  0 <= textinput.pos (textinput.Update ti k).1
    <= len (textinput.value (textinput.Update ti k).1).
Proof.
  intros Hp. unfold textinput.Update.
  destruct (textinput.focus ti); simpl; [|done].
  assert (forall t p,
            0 <= textinput.pos (textinput.SetCursor t p)
              <= len (textinput.value (textinput.SetCursor t p))) as Hset.
  { intros t p. unfold textinput.SetCursor. simpl.
    apply clamp_range, len_nonneg. }
  assert (forall v,
            0 <= textinput.pos (textinput.insertRunesFromUserInput ti v)
              <= len (textinput.value
                        (textinput.insertRunesFromUserInput ti v))) as Hins.
  { intros v.
    unfold textinput.insertRunesFromUserInput, textinput.setValueInternal.
    cbv zeta. simpl. destruct (_ || _); [apply Hset|]. simpl.
    pose proof (len_nonneg v). rewrite !len_app. unfold len in *.
    rewrite length_take, length_drop. lia. }
  destruct k; try apply Hins.
  - unfold textinput.deleteCharacterBackward.
    destruct (0 <? len (textinput.value ti)); [|done].
    destruct (0 <? textinput.pos ti) eqn:Hpos; [apply Hset|]. simpl.
    unfold len in *. rewrite length_app, length_take, length_drop. lia.
  - destruct (0 <? textinput.pos ti); [apply Hset|done].
  - destruct (textinput.pos ti <? _); [apply Hset|done].
  - apply Hset.
  - apply Hset.
  - unfold textinput.deleteCharacterForward.
    destruct (_ && _) eqn:Hc; [|done]. simpl.
    apply andb_true_iff in Hc as [_ Hc]. unfold len in *.
    rewrite length_app, length_take, length_drop. lia.
Qed.

Lemma Update_in_text (m : model) (msg : Msg) (m' : model) (cmd : Cmd) :
  in_text m -> Update m msg = Ok (m', cmd) -> in_text m'.
Proof.
  intros [Hc Hfit] H. destruct msg as [k| |].
  2: { apply Update_Tick_inv in H as (Hti & Hg & Hs & _).
       unfold in_text, typed, cursor. by rewrite Hti, Hg, Hs. }
  2: { unfold Update in H. by injection H as <- _. }
  apply Update_key_inv in H as [H|(m1 & c1 & Hk & H)].
  { by apply handleKey_frame in H as ->. }
  assert (0 <= textinput.pos (textInput m1)
            <= len (textinput.value (textInput m1))) as Hc1.
  { destruct k; try (unfold handleKey in Hk; by injection Hk as <- _).
    - unfold handleKey in Hk. discriminate Hk.
    - unfold handleKey in Hk. discriminate Hk.
    - by apply handleKey_Backspace_inv in Hk as (g & [= -> _] & _).
    - apply handleKey_Space_inv in Hk
        as [[_ [=]]|(_ & _ & j & _ & _ & Hm1)].
      cbv zeta in Hm1. injection Hm1 as -> _. simpl.
      pose proof (len_nonneg (typed m ++ replicate (Z.to_nat j) space)). lia.
    - by apply handleKey_Runes_inv in Hk
        as [[_ [=]]|(_ & ch & _ & cmd' & [= -> _])]. }
  apply (textinput_Update_in_text _ k) in Hc1. simpl in H.
  destruct (started m1) eqn:Hs1.
  - apply calculateAccuracy_Ok in H as (Hti & Hg & _ & _ & Hs & _ & Hcase).
    unfold in_text, typed, cursor, textinput.Value, textinput.Position.
    rewrite Hti. split; [done|]. intros _.
    destruct Hcase as [[Hnil _]|(_ & Hle & _)].
    + unfold typed, textinput.Value in Hnil. simpl in *. rewrite Hnil.
      apply len_nonneg.
    + unfold typed, textinput.Value in Hle. by rewrite Hg.
  - subst m'. split; [done|]. simpl. by rewrite Hs1.
Qed.

(** X20.  In every state a session reaches, whatever the keys (the cursor
    and deletion keys included), the cursor lies within the typed text, and
    once the session has started the typed text is not longer than the
    ghost text: an event that would make it longer panics in the marking
    pass instead. *)
Theorem cursor_stays_in_text (text : gostring) (msgs : list Msg) (m : model) :
  run (initialModel text) msgs = Ok m ->
  0 <= cursor m <= len (typed m) /\
  (started m = true -> len (typed m) <= len (ghostText m)).
Proof.
  assert (in_text (initialModel text)) as Hinit by (split; done).
  revert Hinit. generalize (initialModel text) as m0.
  induction msgs as [|msg msgs IH]; intros m0 Hm0; simpl.
  - by intros [= <-].
  - unfold mbind, result_bind.
    destruct (Update m0 msg) as [[m1 cmd]|] eqn:Hu; [|done].
    intros Hr. apply (IH m1); [|done]. by eapply Update_in_text.
Qed.

Lemma cursor_stays_in_text_witness :
  let m := session "cat dog"
             (chars "ca" ++ [KeyMsg KeyLeft; Character "x"; KeyMsg KeyHome;
                             KeyMsg KeyDelete]) in
  0 <= cursor m <= len (typed m) /\
  (started m = true -> len (typed m) <= len (ghostText m)).
Proof.
  apply (cursor_stays_in_text (str "cat dog")
           (chars "ca" ++ [KeyMsg KeyLeft; Character "x"; KeyMsg KeyHome;
                           KeyMsg KeyDelete])).
  vm_compute. reflexivity.
Defined.

(** ** The clock *)

Lemma Update_key_timer (m : model) (k : Key) (m' : model) (cmd : Cmd) :
  Update m (KeyMsg k) = Ok (m', cmd) ->
  timer m' = timer m /\ wordsPerMinute m' = wordsPerMinute m.
Proof.
  intros H. apply Update_key_inv in H as [H|(m1 & c1 & Hk & H)].
  - by apply handleKey_frame in H as ->.
  - apply handleKey_frame in Hk as (Hw1 & Ht1 & _). simpl in H.
    destruct (started m1).
    + apply calculateAccuracy_Ok in H as (_ & _ & Hw2 & Ht2 & _).
      simpl in Hw2, Ht2. split; congruence.
    + subst m'. simpl. by split.
Qed.

Fixpoint tick_count (msgs : list Msg) : nat :=
  match msgs with
  | [] => 0
  | TickMsg :: rest => S (tick_count rest)
  | _ :: rest => tick_count rest
  end.

Lemma run_clock (m : model) (msgs : list Msg) (m' : model) (k : Z) :
  timer.Interval (timer m) = Second -> timer.running (timer m) = true ->
  0 <= k -> timer.Timeout (timer m) = k * Second ->
  run m msgs = Ok m' ->
  timer.Interval (timer m') = Second /\ timer.running (timer m') = true /\
  timer.Timeout (timer m') = Z.max 0 (k - Z.of_nat (tick_count msgs)) * Second.
Proof.
  revert m k. induction msgs as [|msg msgs IH]; intros m k Hint Hrun Hk Ht; simpl.
  - intros [= <-]. rewrite Z.sub_0_r, Z.max_r by lia. done.
  - unfold mbind, result_bind.
    destruct (Update m msg) as [[m1 cmd]|] eqn:Hu; [|done]. simpl. intros Hr.
    destruct msg as [key| |].
    + apply Update_key_timer in Hu as [Htm _].
      apply (IH m1 k); by rewrite ?Htm.
    + apply Update_Tick_inv in Hu as (_ & _ & _ & _ & _ & _ & Hu).
      unfold TimedOut, timer.Timedout in Hu. rewrite Ht in Hu.
      destruct (k * Second <=? 0) eqn:Hle.
      * subst m1. assert (k = 0) as -> by (unfold Second in Hle; lia).
        destruct (IH m 0 Hint Hrun ltac:(lia) Ht Hr) as (? & ? & ->).
        repeat split; try done. f_equal. lia.
      * destruct Hu as [Htm _].
        assert (timer m1 = timer.mkModel ((k - 1) * Second) Second true) as Ht1.
        { rewrite Htm. unfold timer.Update, timer.Running, timer.Timedout.
          rewrite Ht, Hle, Hrun, Hint. simpl. f_equal. lia. }
        assert (1 <= k) as Hk1 by (unfold Second in Hle; lia).
        destruct (IH m1 (k - 1)) as (? & ? & ->); rewrite ?Ht1; try done; [lia|].
        repeat split; try done. f_equal. lia.
    + unfold Update in Hu. injection Hu as <- _. by apply (IH m k).
Qed.

(** X2.  The clock is driven by ticks alone: after any messages the session
    gets through, the remaining time is ten seconds less one second per
    tick received, and not below zero; so the session is timed out exactly
    when ten or more ticks have arrived. *)
Theorem clock_counts_ticks (text : gostring) (msgs : list Msg) (m : model) :
  run (initialModel text) msgs = Ok m ->
  timer.Timeout (timer m)
  = Z.max 0 (10 - Z.of_nat (tick_count msgs)) * Second /\
  (TimedOut m = true <-> (10 <= tick_count msgs)%nat).
Proof.
  intros Hr.
  destruct (run_clock (initialModel text) msgs m 10) as (_ & _ & Ht);
    try done.
  split; [done|]. unfold TimedOut, timer.Timedout. rewrite Ht.
  unfold Second. rewrite Z.leb_le. lia.
Qed.

Lemma clock_counts_ticks_witness :
  timer.Timeout (timer (session "cat dog" (chars "ca" ++ ticks 3 ++ [Backspace])))
  = Z.max 0 (10 - Z.of_nat (tick_count (chars "ca" ++ ticks 3 ++ [Backspace])))
    * Second /\
  (TimedOut (session "cat dog" (chars "ca" ++ ticks 3 ++ [Backspace])) = true
   <-> (10 <= tick_count (chars "ca" ++ ticks 3 ++ [Backspace]))%nat).
Proof.
  apply (clock_counts_ticks (str "cat dog")
           (chars "ca" ++ ticks 3 ++ [Backspace])).
  vm_compute. reflexivity.
Defined.

(** ** The error positions stay below the high-water mark *)

(** X3.  In every state a session reaches, each error position lies below
    the high-water mark [maxTyped], so there are at most [maxTyped] of them
    and the count of correct characters in the accuracy is never
    negative. *)
Theorem error_positions_below_high_water_mark
    (text : gostring) (msgs : list Msg) (m : model) :
  run (initialModel text) msgs = Ok m ->
  (forall j, j ∈ errorPositions m -> 0 <= j < maxTyped m) /\
  Z.of_nat (size (errorPositions m)) <= maxTyped m.
Proof.
  intros Hr.
  pose proof (run_marks_inv _ _ _ (initialModel_marks_inv text) Hr)
    as (Hmax & _ & HE).
  split; [done|].
  assert (errorPositions m ⊆ list_to_set (seqZ 0 (maxTyped m))) as Hsub.
  { intros j Hj. apply elem_of_list_to_set, elem_of_seqZ.
    apply HE in Hj. lia. }
  apply subseteq_size in Hsub.
  rewrite size_list_to_set in Hsub by apply NoDup_seqZ.
  rewrite length_seqZ in Hsub. lia.
Qed.

Lemma error_positions_below_high_water_mark_witness :
  let m := session "cat dog" (chars "cxt" ++ [Backspace; Backspace]) in
  (forall j, j ∈ errorPositions m -> 0 <= j < maxTyped m) /\
  Z.of_nat (size (errorPositions m)) <= maxTyped m.
Proof.
  apply (error_positions_below_high_water_mark (str "cat dog")
           (chars "cxt" ++ [Backspace; Backspace])).
  vm_compute. reflexivity.
Defined.

(** ** The key handlers, forwards *)

(** The ghost text after the Backspace handler, for a cursor past the
    start: the two spaces around the cursor are merged into one. *)
Definition backspace_ghost (g : gostring) (p : Z) : gostring :=
  if len g <=? p then g
  else if bool_decide (g !! Z.to_nat p = Some space /\
                       g !! Z.to_nat (p - 1) = Some space)
       then merge g p else g.

Lemma handleKey_Backspace_fwd (m : model) :
  1 <= cursor m ->
  handleKey m KeyBackspace
  = Ok (Continue (with_ghostText m
                    (backspace_ghost (ghostText m) (cursor m))) CmdNil).
Proof.
  unfold cursor. intros Hc. unfold handleKey, backspace_ghost.
  destruct (len (ghostText m) <=? _) eqn:Hge;
    [by rewrite with_ghostText_id|].
  destruct (index_in_range (ghostText m) (textinput.Position (textInput m)))
    as [c Hidx]; [lia|].
  destruct (index_in_range (ghostText m) (textinput.Position (textInput m) - 1))
    as [c' Hidx']; [lia|].
  rewrite Hidx. unfold mbind, result_bind.
  pose proof Hidx as [_ Hl]%index_Ok. pose proof Hidx' as [_ Hl']%index_Ok.
  rewrite Hl, Hl'. unfold ascii_eqb.
  destruct (decide (c = space)) as [->|Hne].
  - rewrite bool_decide_eq_true_2 by done. rewrite Hidx'.
    destruct (decide (c' = space)) as [->|Hne'].
    + rewrite !bool_decide_eq_true_2 by done.
      by rewrite slice_to_Ok, slice_from_Ok by lia.
    + rewrite (bool_decide_eq_false_2 (c' = space)) by done.
      rewrite bool_decide_eq_false_2; [by rewrite with_ghostText_id|].
      intros [_ [= ?]]. done.
  - rewrite (bool_decide_eq_false_2 (c = space)) by done.
    rewrite bool_decide_eq_false_2; [by rewrite with_ghostText_id|].
    intros [[= ?] _]. done.
Qed.

Lemma handleKey_Backspace_at_start (m : model) :
  cursor m = 0 ->
  handleKey m KeyBackspace
  = if bool_decide (ghostText m !! 0%nat = Some space)
    then Panic IndexOutOfRange
    else Ok (Continue m CmdNil).
Proof.
  unfold cursor. intros Hc. unfold handleKey. rewrite Hc.
  destruct (len (ghostText m) <=? 0) eqn:Hge.
  { rewrite (len_nil_inv (ghostText m)) by lia. done. }
  destruct (index_in_range (ghostText m) 0) as [c Hidx]; [lia|].
  rewrite Hidx. unfold mbind, result_bind.
  apply index_Ok in Hidx as [_ Hl]. change (Z.to_nat 0) with 0%nat in Hl.
  rewrite Hl. unfold ascii_eqb.
  destruct (decide (c = space)) as [->|Hne].
  - rewrite !bool_decide_eq_true_2 by done.
    by rewrite index_out_of_range by lia.
  - rewrite (bool_decide_eq_false_2 (c = space)) by done.
    rewrite bool_decide_eq_false_2; [done|]. by intros [= ?].
Qed.

Lemma len_backspace_ghost (g : gostring) (p : Z) :
  1 <= p -> len g - 1 <= len (backspace_ghost g p) /\
  (p <= len g -> p <= len (backspace_ghost g p)).
Proof.
  intros Hp. unfold backspace_ghost.
  destruct (len g <=? p) eqn:Hge; [lia|].
  case_bool_decide; [|lia]. rewrite len_merge by lia. lia.
Qed.

(** A key message gets through once its handler does and the typed text
    after the insertion fits in the ghost text. *)
Lemma Update_key_fits (m : model) (k : Key) (m1 : model) (c1 : Cmd) :
  handleKey m k = Ok (Continue m1 c1) ->
  let ti := (textinput.Update (textInput m1) k).1 in
  len (textinput.value ti) <= len (ghostText m1) ->
  exists m' cmd,
    Update m (KeyMsg k) = Ok (m', cmd) /\
    textInput m' = ti /\ ghostText m' = ghostText m1 /\
    started m' = started m1 /\ timer m' = timer m1 /\
    errorPositions m' =
      (if started m1
       then errorPositions m1 ∪ mismatches 0 (textinput.value ti) (ghostText m1)
       else errorPositions m1).
Proof.
  intros Hk ti Hfit.
  set (m2 := with_textInput m1 ti).
  assert (exists m', (if started m2 then calculateAccuracy m2 = Ok m'
                      else m' = m2)) as [m' Hm'].
  { destruct (started m2); [|by eexists]. by apply calculateAccuracy_total. }
  destruct (Update_key_Continue _ _ _ _ Hk m' Hm') as [cmd Hu].
  exists m', cmd. split; [done|]. subst m2. simpl in Hm'.
  destruct (started m1) eqn:Hs.
  - apply calculateAccuracy_Ok in Hm' as (? & ? & _ & ? & ? & _ & Hcase).
    simpl in H, H0, H1, H2.
    split; [done|]. split; [done|]. split; [congruence|]. split; [done|].
    destruct Hcase as [[Hnil ->]|(_ & _ & -> & _)]; [|done].
    simpl. unfold typed in Hnil. simpl in Hnil.
    unfold textinput.Value in Hnil. fold ti in Hnil. rewrite Hnil. simpl.
    set_solver.
  - by subst m'.
Qed.

(** ** Exactly when the handlers panic *)

(** X4.  In an aligned state, a Character event panics exactly when the
    session is not timed out and the cursor is at the end of the ghost
    text. *)
Theorem Character_panics_exactly_at_end (m : model) (c : ascii) :
  aligned m ->
  is_Ok (Update m (Character c)) = false <->
  TimedOut m = false /\ cursor m = len (ghostText m).
Proof.
  intros Hal. pose proof Hal as [Hlen Hle]. split.
  - intros Hp. destruct (TimedOut m) eqn:Ht.
    { apply (timed_out_rejects_character_and_space m c) in Ht as [Hu _].
      by rewrite Hu in Hp. }
    split; [done|].
    destruct (decide (cursor m < len (ghostText m))) as [Hlt|]; [|lia].
    destruct (Character_total m c Hal Hlt) as (m' & cmd & Hu).
    by rewrite Hu in Hp.
  - intros [Ht Hend]. unfold Update, Character, handleKey.
    unfold TimedOut in Ht. rewrite Ht.
    rewrite index_out_of_range by (unfold cursor in Hend; lia). done.
Qed.

Lemma Character_panics_exactly_at_end_witness :
  is_Ok (Update (session "cat dog" (chars "cat" ++ [Space] ++ chars "dog"))
           (Character "x")) = false <->
  TimedOut (session "cat dog" (chars "cat" ++ [Space] ++ chars "dog")) = false /\
  cursor (session "cat dog" (chars "cat" ++ [Space] ++ chars "dog"))
  = len (ghostText (session "cat dog" (chars "cat" ++ [Space] ++ chars "dog"))).
Proof.
  apply (Character_panics_exactly_at_end
           (session "cat dog" (chars "cat" ++ [Space] ++ chars "dog")) "x").
  split; vm_compute; [reflexivity|discriminate].
Defined.

(** X5.  In an aligned state, a Space event panics exactly when the session
    is not timed out and the ghost text has no space at or after the
    cursor. *)
Theorem Space_panics_exactly_without_delimiter (m : model) :
  aligned m ->
  is_Ok (Update m Space) = false <->
  TimedOut m = false /\ space ∉ drop (Z.to_nat (cursor m)) (ghostText m).
Proof.
  intros [Hlen Hle]. pose proof (len_nonneg (typed m)) as Hnn. split.
  - intros Hp. destruct (TimedOut m) eqn:Ht.
    { apply (timed_out_rejects_character_and_space m space) in Ht as [_ Hu].
      by rewrite Hu in Hp. }
    split; [done|]. intros Hin. apply index_of_space_None in Hin; [done|].
    destruct (index_of _ [space]) as [k|] eqn:Hidx; [exfalso|done].
    apply index_of_space in Hidx.
    pose proof (handleKey_Space_fwd m k Ht ltac:(lia) Hidx) as Hk.
    simpl in Hk. apply first_space_at_lt in Hidx.
    rewrite length_drop in Hidx.
    match type of Hk with _ = Ok (Continue ?m1 _) =>
      destruct (Update_key_fits m KeySpace m1 CmdNil Hk) as (m' & cmd & Hu & _)
    end.
    { simpl.
      match goal with |- context [textinput.Update ?t KeySpace] =>
        pose proof (textinput_Update_end t KeySpace eq_refl eq_refl)
          as (_ & _ & Hv)
      end.
      rewrite Hv. simpl.
      assert (len (typed m ++ replicate k space) + 1 <= len (ghostText m))
        as Hroom.
      { rewrite len_app, len_replicate. unfold len in *. lia. }
      destruct (textinput.focus (textInput m)); [|lia].
      rewrite len_app. change (len [space]) with 1. lia. }
    unfold Space in Hp. by rewrite Hu in Hp.
  - intros [Ht Hno]. apply index_of_space_None in Hno.
    assert (handleKey m KeySpace = Panic NegativeRepeatCount) as Hk.
    { unfold handleKey. unfold TimedOut in Ht. rewrite Ht.
      rewrite slice_from_Ok by (unfold cursor in *; lia).
      unfold mbind, result_bind, strings_Index.
      unfold cursor in Hno. by rewrite Hno. }
    unfold Update, Space. by rewrite Hk.
Qed.

Lemma Space_panics_exactly_without_delimiter_witness :
  is_Ok (Update (session "cat dog" [Space]) Space) = false <->
  TimedOut (session "cat dog" [Space]) = false /\
  space ∉ drop (Z.to_nat (cursor (session "cat dog" [Space])))
            (ghostText (session "cat dog" [Space])).
Proof.
  apply (Space_panics_exactly_without_delimiter (session "cat dog" [Space])).
  split; vm_compute; [reflexivity|discriminate].
Defined.

(** X6.  In an aligned state, a Backspace event panics exactly when the
    cursor is at 0 and the ghost text starts with a space; in any other
    state it gets through, timed out or not. *)
Theorem Backspace_panics_exactly_at_leading_space (m : model) :
  aligned m ->
  is_Ok (Update m Backspace) = false <->
  cursor m = 0 /\ ghostText m !! 0%nat = Some space.
Proof.
  intros [Hlen Hle]. pose proof (len_nonneg (typed m)) as Hnn.
  assert (textinput.pos (textInput m) = len (textinput.value (textInput m)))
    as Hpos by (symmetry; exact Hlen).
  pose proof (textinput_Update_end (textInput m) KeyBackspace eq_refl Hpos)
    as (_ & _ & Hv).
  assert (len (textinput.value (textinput.Update (textInput m) KeyBackspace).1)
          <= cursor m) as Hshort.
  { rewrite Hv. unfold cursor, textinput.Position, typed, textinput.Value in *.
    destruct (textinput.focus (textInput m)).
    - unfold len. rewrite length_take. lia.
    - rewrite <- Hpos. lia. }
  destruct (decide (1 <= cursor m)) as [Hc|Hc].
  - split; [|lia]. intros Hp. exfalso.
    pose proof (handleKey_Backspace_fwd m Hc) as Hk.
    destruct (Update_key_fits m KeyBackspace _ _ Hk) as (m' & cmd & Hu & _).
    { simpl. pose proof (len_backspace_ghost (ghostText m) (cursor m) Hc). lia. }
    unfold Backspace in Hp. by rewrite Hu in Hp.
  - assert (cursor m = 0) as Hc0 by lia.
    pose proof (handleKey_Backspace_at_start m Hc0) as Hk.
    case_bool_decide as Hsp.
    + split; [done|]. intros _. unfold Update, Backspace. by rewrite Hk.
    + split; [|by intros [_ ?]]. intros Hp. exfalso.
      destruct (Update_key_fits m KeyBackspace _ _ Hk) as (m' & cmd & Hu & _).
      { simpl. pose proof (len_nonneg (ghostText m)). lia. }
      unfold Backspace in Hp. by rewrite Hu in Hp.
Qed.

Lemma Backspace_panics_exactly_at_leading_space_witness :
  is_Ok (Update (initialModel (ghost_of_words [[]; str "cat"])) Backspace) = false
  <-> cursor (initialModel (ghost_of_words [[]; str "cat"])) = 0 /\
      ghostText (initialModel (ghost_of_words [[]; str "cat"])) !! 0%nat
      = Some space.
Proof.
  apply (Backspace_panics_exactly_at_leading_space
           (initialModel (ghost_of_words [[]; str "cat"]))).
  apply initialModel_aligned.
Defined.

(** ** After the time-out *)

(** No key that carries no runes makes the typed text longer. *)
Lemma textinput_Update_no_longer (ti : textinput.Model) (k : Key) :
  Runes k = [] ->
  len (textinput.value (textinput.Update ti k).1) <= len (textinput.value ti).
Proof.
  intros Hk. unfold textinput.Update.
  destruct (textinput.focus ti); simpl; [|lia].
  assert (forall t p, textinput.value (textinput.SetCursor t p)
                      = textinput.value t) as Hset by done.
  assert (len (textinput.value (textinput.insertRunesFromUserInput ti []))
          <= len (textinput.value ti)) as Hins.
  { unfold textinput.insertRunesFromUserInput, textinput.setValueInternal.
    cbv zeta. simpl. rewrite take_drop.
    destruct (_ || _); [rewrite Hset|]; simpl; lia. }
  destruct k; simpl; cbn [Runes] in Hk; try (rewrite Hk); try exact Hins;
    try discriminate Hk; clear Hins.
  - unfold textinput.deleteCharacterBackward.
    destruct (0 <? len (textinput.value ti)); [|lia].
    destruct (0 <? textinput.pos ti); rewrite ?Hset; simpl;
      unfold len; rewrite length_app, length_take, length_drop; lia.
  - destruct (0 <? textinput.pos ti); rewrite ?Hset; lia.
  - destruct (textinput.pos ti <? _); rewrite ?Hset; lia.
  - lia.
  - lia.
  - unfold textinput.deleteCharacterForward.
    destruct (_ && _); [|lia]. simpl.
    unfold len; rewrite length_app, length_take, length_drop; lia.
Qed.

(** X7.  Once a session is timed out, no message changes the words per
    minute, the accuracy, the high-water mark or the timer any more; this
    holds for Backspace and the cursor and deletion keys too, which still
    edit the typed text then but never make it longer. *)
Theorem metrics_frozen_after_timeout
    (text : gostring) (msgs : list Msg) (m : model)
    (msg : Msg) (m' : model) (cmd : Cmd) :
  run (initialModel text) msgs = Ok m -> TimedOut m = true ->
  Update m msg = Ok (m', cmd) ->
  wordsPerMinute m' = wordsPerMinute m /\ accuracy m' = accuracy m /\
  maxTyped m' = maxTyped m /\ timer m' = timer m /\ TimedOut m' = true.
Proof.
  intros Hr Ht H.
  pose proof (run_marks_inv _ _ _ (initialModel_marks_inv text) Hr)
    as (Hmax & Hst & _).
  assert (wordsPerMinute m' = wordsPerMinute m /\ accuracy m' = accuracy m /\
          maxTyped m' = maxTyped m /\ timer m' = timer m) as (Hw & Ha & Hm & Htm).
  2: { repeat split; try done. unfold TimedOut. by rewrite Htm. }
  destruct msg as [k| |].
  2: { apply Update_Tick_inv in H as (_ & _ & _ & _ & _ & _ & H).
       rewrite Ht in H. by subst m'. }
  2: { unfold Update in H. by injection H as <- _. }
  pose proof (Update_key_timer _ _ _ _ H) as [Htm Hw].
  enough (accuracy m' = accuracy m /\ maxTyped m' = maxTyped m)
    as [? ?] by done.
  apply Update_key_inv in H as [H|(m1 & c1 & Hk & H)].
  { by apply handleKey_frame in H as ->. }
  assert (textInput m1 = textInput m /\ started m1 = started m /\
          Runes k = []) as (Hti & Hs1 & Hrunes).
  { destruct k; try (unfold handleKey in Hk; by injection Hk as <- _).
    - unfold handleKey in Hk. discriminate Hk.
    - unfold handleKey in Hk. discriminate Hk.
    - by apply handleKey_Backspace_inv in Hk as (g & [= -> _] & _).
    - apply handleKey_Space_inv in Hk as [[_ [=]]|[Ht' _]]. congruence.
    - apply handleKey_Runes_inv in Hk as [[_ [=]]|[Ht' _]]. congruence. }
  apply handleKey_frame in Hk as (_ & _ & Hacc & _ & Hmt & _).
  simpl in H. rewrite Hs1 in H.
  destruct (started m) eqn:Hs; [|subst m'; simpl; by split].
  apply calculateAccuracy_Ok in H as (_ & _ & _ & _ & _ & _ & Hcase).
  destruct Hcase as [[_ ->]|(_ & _ & _ & Hcase)]; [simpl; by split|].
  simpl in Hcase.
  assert (len (typed (with_textInput m1
                        (textinput.Update (textInput m1) k).1))
          <= len (typed m)) as Hshort.
  { unfold typed. simpl. rewrite Hti.
    by apply textinput_Update_no_longer. }
  specialize (Hst eq_refl). rewrite Hmt in Hcase.
  destruct (maxTyped m <? _) eqn:Hlt; [lia|].
  destruct Hcase as [-> ->]. by split.
Qed.

Lemma metrics_frozen_after_timeout_witness :
  let m := session "cat dog" (chars "catx" ++ ticks 10) in
  let m' := session "cat dog" (chars "catx" ++ ticks 10 ++ [Backspace]) in
  wordsPerMinute m' = wordsPerMinute m /\ accuracy m' = accuracy m /\
  maxTyped m' = maxTyped m /\ timer m' = timer m /\ TimedOut m' = true.
Proof.
  apply (metrics_frozen_after_timeout (str "cat dog")
           (chars "catx" ++ ticks 10)
           (session "cat dog" (chars "catx" ++ ticks 10)) Backspace
           (session "cat dog" (chars "catx" ++ ticks 10 ++ [Backspace]))
           (CmdBatch CmdNil CmdNil));
    vm_compute; reflexivity.
Defined.

(** ** What the marking records *)

Lemma mismatches_intro (i : Z) (input ghost : gostring) (n : nat) (c : ascii) :
  0 <= i -> input !! n = Some c ->
  ghost !! Z.to_nat (i + Z.of_nat n) <> Some c ->
  i + Z.of_nat n ∈ mismatches i input ghost.
Proof.
  revert i n. induction input as [|d rest IH]; intros i n Hi Hn Hne; [done|].
  simpl. destruct n as [|n]; simpl in Hn.
  - injection Hn as ->. rewrite Z.add_0_r in *.
    rewrite bool_decide_eq_false_2 by done. set_solver.
  - apply elem_of_union_r.
    replace (i + Z.of_nat (S n)) with (i + 1 + Z.of_nat n) in * by lia.
    apply IH; [lia|done|done].
Qed.

Lemma mismatches_elim (i : Z) (input ghost : gostring) (j : Z) :
  0 <= i -> j ∈ mismatches i input ghost ->
  exists (n : nat) (c : ascii),
    j = i + Z.of_nat n /\ input !! n = Some c /\
    ghost !! Z.to_nat j <> Some c.
Proof.
  revert i. induction input as [|d rest IH]; intros i Hi; simpl; [set_solver|].
  intros [Hj|Hj]%elem_of_union.
  - case_bool_decide as Hd; [set_solver|].
    apply elem_of_singleton in Hj as ->.
    exists 0%nat, d. split; [lia|]. by split.
  - apply IH in Hj as (n & c & -> & Hn & Hne); [|lia].
    exists (S n), c. split; [lia|]. by split.
Qed.

(** X8.  Marks are sound: an index that a message adds to the error
    positions is an index of the typed text at which, after that message,
    the typed character differs from the ghost character. *)
Theorem new_marks_are_mismatches
    (m : model) (msg : Msg) (m' : model) (cmd : Cmd) (j : Z) :
  Update m msg = Ok (m', cmd) ->
  j ∈ errorPositions m' -> j ∉ errorPositions m ->
  0 <= j < len (typed m') /\
  exists c, typed m' !! Z.to_nat j = Some c /\
            ghostText m' !! Z.to_nat j <> Some c.
Proof.
  intros H Hj Hnj.
  assert (exists m2, calculateAccuracy m2 = Ok m' /\
                     errorPositions m2 = errorPositions m)
    as (m2 & Hc & HE).
  { destruct msg as [k| |].
    - apply Update_key_inv in H as [H|(m1 & c1 & Hk & H)].
      + apply handleKey_frame in H as ->. done.
      + apply handleKey_frame in Hk as (_ & _ & _ & HE1 & _). simpl in H.
        destruct (started m1); [by eexists|]. subst m'. simpl in Hj.
        rewrite HE1 in Hj. done.
    - apply Update_Tick_inv in H as (_ & _ & _ & _ & HE & _).
      rewrite HE in Hj. done.
    - unfold Update in H. injection H as <- _. done. }
  apply calculateAccuracy_Ok in Hc as (Hti & Hg & _ & _ & _ & _ & Hcase).
  destruct Hcase as [[_ ->]|(_ & _ & HE' & _)]; [by rewrite HE in Hj|].
  rewrite HE', HE in Hj. apply elem_of_union in Hj as [Hj|Hj]; [done|].
  assert (typed m' = typed m2) as Hty by (unfold typed; by rewrite Hti).
  rewrite Hty, Hg.
  pose proof (mismatches_bound _ _ _ _ Hj) as Hb.
  apply mismatches_elim in Hj as (n & c & -> & Hn & Hne); [|lia].
  split; [lia|]. exists c. rewrite Z.add_0_l in *. rewrite Nat2Z.id in *.
  by split.
Qed.

Lemma new_marks_are_mismatches_witness :
  let m := session "cat dog" (chars "c") in
  let m' := session "cat dog" (chars "cx") in
  0 <= 1 < len (typed m') /\
  exists c, typed m' !! Z.to_nat 1 = Some c /\
            ghostText m' !! Z.to_nat 1 <> Some c.
Proof.
  apply (new_marks_are_mismatches
           (session "cat dog" (chars "c")) (Character "x")
           (session "cat dog" (chars "cx")) (CmdBatch CmdNil CmdNil) 1).
  - vm_compute. reflexivity.
  - vm_compute. set_solver.
  - vm_compute. set_solver.
Defined.

Definition marked_inv (m : model) : Prop :=
  started m = true ->
  mismatches 0 (typed m) (ghostText m) ⊆ errorPositions m.

Lemma Update_marked_inv (m : model) (msg : Msg) (m' : model) (cmd : Cmd) :
  marked_inv m -> Update m msg = Ok (m', cmd) -> marked_inv m'.
Proof.
  intros Hinv H. destruct msg as [k| |].
  - apply Update_key_inv in H as [H|(m1 & c1 & Hk & H)].
    + by apply handleKey_frame in H as ->.
    + simpl in H. destruct (started m1) eqn:Hs.
      * apply calculateAccuracy_Ok in H as (Hti & Hg & _ & _ & _ & _ & Hcase).
        intros _. unfold typed. rewrite Hti, Hg.
        destruct Hcase as [[Hnil _]|(_ & _ & -> & _)]; [|set_solver].
        unfold typed in Hnil. rewrite Hnil. simpl. set_solver.
      * subst m'. intros Hs'. simpl in Hs'. congruence.
  - apply Update_Tick_inv in H as (Hti & Hg & Hs & _ & HE & _).
    unfold marked_inv, typed in *. by rewrite Hti, Hg, Hs, HE.
  - unfold Update in H. by injection H as <- _.
Qed.

Lemma run_marked_inv (m : model) (msgs : list Msg) (m' : model) :
  marked_inv m -> run m msgs = Ok m' -> marked_inv m'.
Proof.
  revert m. induction msgs as [|msg msgs IH]; intros m Hm; simpl.
  - by intros [= <-].
  - unfold mbind, result_bind.
    destruct (Update m msg) as [[m1 cmd]|] eqn:Hu; [|done].
    intros Hr. apply (IH m1); [|done]. by eapply Update_marked_inv.
Qed.

(** X9.  Marks are complete: in every state a started session reaches, each
    index at which the typed character differs from the ghost character is
    among the error positions. *)
Theorem every_mismatch_is_marked
    (text : gostring) (msgs : list Msg) (m : model) (j : nat) (c : ascii) :
  run (initialModel text) msgs = Ok m -> started m = true ->
  typed m !! j = Some c -> ghostText m !! j <> Some c ->
  Z.of_nat j ∈ errorPositions m.
Proof.
  intros Hr Hs Hj Hne.
  assert (marked_inv (initialModel text)) as Hinit by (intros [=]).
  pose proof (run_marked_inv _ _ _ Hinit Hr Hs) as Hsub.
  apply Hsub. replace (Z.of_nat j) with (0 + Z.of_nat j) by lia.
  apply (mismatches_intro 0 _ _ j c); [lia|done|].
  by rewrite Z.add_0_l, Nat2Z.id.
Qed.

Lemma every_mismatch_is_marked_witness :
  Z.of_nat 1 ∈ errorPositions (session "cat dog" (chars "cxt")).
Proof.
  apply (every_mismatch_is_marked (str "cat dog") (chars "cxt")
           (session "cat dog" (chars "cxt")) 1 "x").
  - vm_compute. reflexivity.
  - reflexivity.
  - reflexivity.
  - discriminate.
Defined.

(** X10.  In a started session a Space event that skips [k] characters of
    the current word marks every one of them as an error position: the
    skipped remainder counts against the accuracy. *)
Theorem skipped_letters_are_marked (m : model) (k : nat) :
  aligned m -> started m = true -> TimedOut m = false ->
  first_space_at (drop (Z.to_nat (cursor m)) (ghostText m)) k ->
  exists m' cmd,
    Update m Space = Ok (m', cmd) /\
    forall j, cursor m <= j < cursor m + Z.of_nat k -> j ∈ errorPositions m'.
Proof.
  intros [Hlen Hle] Hs Ht Hk. pose proof (len_nonneg (typed m)) as Hnn.
  pose proof (handleKey_Space_fwd m k Ht ltac:(lia) Hk) as Hh. simpl in Hh.
  pose proof (first_space_at_lt _ _ Hk) as Hlt. rewrite length_drop in Hlt.
  match type of Hh with _ = Ok (Continue ?m1 _) =>
    pose proof (textinput_Update_end (textInput m1) KeySpace eq_refl eq_refl)
      as (_ & _ & Hv);
    destruct (Update_key_fits m KeySpace m1 CmdNil Hh)
      as (m' & cmd & Hu & _ & _ & _ & _ & HE)
  end.
  { simpl. simpl in Hv. rewrite Hv.
    assert (len (typed m ++ replicate k space) + 1 <= len (ghostText m))
      as Hroom.
    { rewrite len_app, len_replicate. unfold len in *. lia. }
    destruct (textinput.focus (textInput m)); [|lia].
    rewrite len_app. change (len [space]) with 1. lia. }
  exists m', cmd. split; [done|]. intros j Hj.
  simpl in HE, Hv. rewrite Hs in HE. rewrite HE. apply elem_of_union_r.
  replace j with (0 + Z.of_nat (Z.to_nat j)) by lia.
  apply (mismatches_intro 0 _ _ (Z.to_nat j) space); [lia| |].
  - rewrite Hv.
    assert ((typed m ++ replicate k space) !! Z.to_nat j = Some space) as Hl.
    { rewrite lookup_app_r by (unfold len in *; lia).
      apply lookup_replicate_2. unfold len in *. lia. }
    destruct (textinput.focus (textInput m)); [|done].
    by apply lookup_app_l_Some.
  - rewrite Z.add_0_l, Z2Nat.id by lia. simpl.
    destruct Hk as [_ Hbefore].
    specialize (Hbefore (Z.to_nat j - Z.to_nat (cursor m))%nat ltac:(lia)).
    rewrite lookup_drop in Hbefore.
    by replace (Z.to_nat (cursor m) + (Z.to_nat j - Z.to_nat (cursor m)))%nat
      with (Z.to_nat j) in Hbefore by lia.
Qed.

Lemma skipped_letters_are_marked_witness :
  exists m' cmd,
    Update (session "cat dog" (chars "c")) Space = Ok (m', cmd) /\
    forall j, cursor (session "cat dog" (chars "c")) <= j
              < cursor (session "cat dog" (chars "c")) + Z.of_nat 2 ->
              j ∈ errorPositions m'.
Proof.
  apply (skipped_letters_are_marked (session "cat dog" (chars "c")) 2).
  - split; vm_compute; [reflexivity|discriminate].
  - reflexivity.
  - reflexivity.
  - split; [reflexivity|]. intros j Hj.
    destruct j as [|[|j]]; [discriminate..|lia].
Defined.

(** ** Backspace undoes a character *)

Lemma backspace_ghost_after_character (g : gostring) (p : Z) (ch : ascii) :
  0 <= p -> g !! Z.to_nat p = Some ch ->
  backspace_ghost (if ascii_eqb ch space then elongate g p else g) (p + 1) = g.
Proof.
  intros Hp Hch. pose proof (lookup_lt_Some _ _ _ Hch) as Hlt.
  assert (p < len g) as Hlt' by (unfold len; lia).
  unfold backspace_ghost, ascii_eqb.
  destruct (decide (ch = space)) as [->|Hne].
  - rewrite bool_decide_eq_true_2 by done.
    rewrite len_elongate by lia.
    destruct (len g + 1 <=? p + 1) eqn:Hle; [lia|].
    replace (p + 1 - 1) with p by lia.
    rewrite lookup_elongate_after, lookup_elongate_at by lia.
    rewrite bool_decide_eq_true_2 by done. apply merge_elongate. lia.
  - rewrite bool_decide_eq_false_2 by done.
    destruct (len g <=? p + 1); [done|].
    replace (p + 1 - 1) with p by lia. rewrite Hch.
    rewrite bool_decide_eq_false_2; [done|]. intros [_ [= ?]]. done.
Qed.

(** X11.  In an aligned, focused state that is not timed out, with the
    cursor before the end of the ghost text, a Character event followed by
    Backspace gets through and restores the typed text, the cursor and the
    ghost text, whether or not the character stretched the ghost text. *)
Theorem backspace_undoes_character (m : model) (c : ascii) :
  aligned m -> TimedOut m = false -> textinput.focus (textInput m) = true ->
  cursor m < len (ghostText m) ->
  exists m1 cmd1 m2 cmd2,
    Update m (Character c) = Ok (m1, cmd1) /\
    typed m1 = typed m ++ [c] /\
    Update m1 Backspace = Ok (m2, cmd2) /\
    typed m2 = typed m /\ cursor m2 = cursor m /\
    ghostText m2 = ghostText m.
Proof.
  intros [Hlen Hle] Ht Hf Hlt. pose proof (len_nonneg (typed m)) as Hnn.
  assert (textinput.pos (textInput m) = len (textinput.value (textInput m)))
    as Hpos by (symmetry; exact Hlen).
  destruct (index_in_range (ghostText m) (cursor m)) as [ch Hch]; [lia|].
  destruct (handleKey_Runes_fwd m [c] ch Ht Hch) as [cmd Hk].
  apply index_Ok in Hch as [_ Hch].
  set (g1 := if ascii_eqb ch space then elongate (ghostText m) (cursor m)
             else ghostText m) in *.
  assert (len (ghostText m) <= len g1) as Hgrow.
  { subst g1. destruct (ascii_eqb ch space); [|lia].
    rewrite len_elongate; lia. }
  pose proof (textinput_Update_end (textInput m) (KeyRunes [c]) eq_refl Hpos)
    as (Hp1 & Hf1 & Hv1). rewrite Hf in Hv1, Hf1. simpl in Hv1.
  destruct (Update_key_fits m (KeyRunes [c]) _ _ Hk)
    as (m1 & cmd1 & Hu1 & Hti1 & Hg1 & _).
  { simpl. rewrite Hv1, len_app. change (len [c]) with 1.
    unfold typed, cursor, textinput.Value, textinput.Position in *. lia. }
  simpl in Hti1, Hg1.
  assert (typed m1 = typed m ++ [c]) as Hty1.
  { unfold typed at 1. by rewrite Hti1. }
  assert (cursor m1 = cursor m + 1) as Hc1.
  { unfold cursor at 1, textinput.Position. rewrite Hti1, Hp1, Hv1, len_app.
    change (len [c]) with 1.
    unfold typed, cursor, textinput.Value, textinput.Position in *. lia. }
  pose proof (handleKey_Backspace_fwd m1 ltac:(lia)) as Hk2.
  rewrite Hg1, Hc1 in Hk2. unfold g1 in Hk2.
  rewrite (backspace_ghost_after_character _ _ ch) in Hk2 by (done || lia).
  assert (textinput.pos (textInput m1) = len (textinput.value (textInput m1)))
    as Hpos1 by (by rewrite Hti1).
  pose proof (textinput_Update_end (textInput m1) KeyBackspace eq_refl Hpos1)
    as (Hp2 & _ & Hv2).
  assert (textinput.value (textInput m1) = typed m ++ [c]) as Hval1
    by exact Hty1.
  assert (textinput.focus (textInput m1) = true) as Hfoc1
    by (rewrite Hti1; exact Hf1).
  assert (textinput.pos (textInput m1) = len (typed m) + 1) as Hpos1'.
  { rewrite Hpos1, Hval1, len_app. by change (len [c]) with 1. }
  rewrite Hfoc1, Hval1, Hpos1' in Hv2.
  assert (textinput.value (textinput.Update (textInput m1) KeyBackspace).1
          = typed m) as Hv2'.
  { rewrite Hv2. replace (len (typed m) + 1 - 1) with (len (typed m)) by lia.
    unfold len. rewrite Nat2Z.id. by rewrite take_app_length. }
  destruct (Update_key_fits m1 KeyBackspace _ _ Hk2)
    as (m2 & cmd2 & Hu2 & Hti2 & Hg2 & _).
  { simpl. rewrite Hv2'. lia. }
  simpl in Hti2, Hg2.
  exists m1, cmd1, m2, cmd2. repeat split; try done.
  - unfold typed at 1, textinput.Value. by rewrite Hti2.
  - unfold cursor at 1, textinput.Position. by rewrite Hti2, Hp2, Hv2'.
Qed.

Lemma backspace_undoes_character_witness :
  exists m1 cmd1 m2 cmd2,
    Update (session "cat dog" (chars "ca")) (Character "x") = Ok (m1, cmd1) /\
    typed m1 = typed (session "cat dog" (chars "ca")) ++ ["x"%char] /\
    Update m1 Backspace = Ok (m2, cmd2) /\
    typed m2 = typed (session "cat dog" (chars "ca")) /\
    cursor m2 = cursor (session "cat dog" (chars "ca")) /\
    ghostText m2 = ghostText (session "cat dog" (chars "ca")).
Proof.
  apply (backspace_undoes_character (session "cat dog" (chars "ca")) "x").
  - split; vm_compute; [reflexivity|discriminate].
  - reflexivity.
  - reflexivity.
  - vm_compute. reflexivity.
Defined.

(** ** The word source, case by case *)

Lemma strings_Split_no_sep (s : gostring) (sep : ascii) :
  sep ∉ s -> strings_Split s sep = [s].
Proof.
  induction s as [|c s IH]; [done|]. intros [Hc Hs]%not_elem_of_cons.
  simpl. unfold ascii_eqb. rewrite bool_decide_eq_false_2 by congruence.
  by rewrite IH.
Qed.

Lemma strings_Split_with_sep (s : gostring) (sep : ascii) :
  sep ∈ s -> 2 <= len (strings_Split s sep).
Proof.
  induction s as [|c s IH]; [by intros ?%elem_of_nil|].
  intros Hin. simpl. unfold ascii_eqb.
  pose proof (strings_Split_nonempty s sep) as Hne.
  destruct (decide (c = sep)) as [->|Hc].
  - rewrite bool_decide_eq_true_2 by done. unfold len in *. simpl. lia.
  - rewrite bool_decide_eq_false_2 by done.
    apply elem_of_cons in Hin as [?|Hin]; [congruence|].
    specialize (IH Hin).
    destruct (strings_Split s sep) as [|w ws]; unfold len in *; simpl in *; lia.
Qed.

Lemma strings_Split_entries (s : gostring) (sep : ascii) (w : gostring) :
  w ∈ strings_Split s sep -> sep ∉ w.
Proof.
  revert w. induction s as [|c s IH]; intros w; simpl.
  - intros ->%list_elem_of_singleton. apply not_elem_of_nil.
  - unfold ascii_eqb. destruct (decide (c = sep)) as [->|Hc].
    + rewrite bool_decide_eq_true_2 by done.
      intros [->|Hw]%elem_of_cons; [apply not_elem_of_nil|by apply IH].
    + rewrite bool_decide_eq_false_2 by done.
      destruct (strings_Split s sep) as [|w0 ws] eqn:Hsp.
      * intros ->%list_elem_of_singleton.
        apply not_elem_of_cons. split; [congruence|apply not_elem_of_nil].
      * intros [->|Hw]%elem_of_cons.
        -- apply not_elem_of_cons. split; [congruence|].
           apply IH. left.
        -- apply IH. by right.
Qed.

Lemma getWords_loop_length (words : list gostring) (rng : nat -> Z)
    (i count : nat) (acc ws : list gostring) :
  getWords_loop words rng i count acc = Ok ws ->
  length ws = (length acc + count)%nat /\
  forall w, w ∈ ws -> w ∈ acc \/ w ∈ words.
Proof.
  revert i acc. induction count as [|count IH]; intros i acc; simpl.
  - intros [= <-]. split; [lia|]. auto.
  - unfold mbind, result_bind.
    destruct (rand_Intn _ _) as [randIdx|]; [|done].
    destruct (index words randIdx) as [randWord|] eqn:Hw; [|done].
    intros H. apply IH in H as [Hlen Hin]. rewrite length_app in Hlen.
    split; [simpl in Hlen; lia|].
    intros w Hw'. apply Hin in Hw' as [Hw'|Hw']; [|by right].
    apply elem_of_app in Hw' as [Hw'|Hw']; [by left|].
    apply list_elem_of_singleton in Hw' as ->. right.
    apply index_Ok in Hw as [_ Hw]. by eapply list_elem_of_lookup_2.
Qed.

(** X12.  What [getWords] does, case by case: it panics exactly when the
    file is readable, [count] is positive and the file holds no newline (a
    single entry, so the bound of the draw is 0); it returns the error
    exactly when the file is unreadable; otherwise it returns as many words
    as [count] asks for (none for a count of zero or less). *)
Theorem getWords_outcomes (file : option gostring) (rng : nat -> Z) (count : Z) :
  match getWords file rng count with
  | Panic p =>
      p = InvalidIntnArgument /\
      exists contents, file = Some contents /\ 0 < count /\ newline ∉ contents
  | Ok (ws, Some e) => file = None /\ ws = []
  | Ok (ws, None) =>
      length ws = Z.to_nat count /\
      exists contents, file = Some contents /\
                       (count <= 0 \/ newline ∈ contents)
  end.
Proof.
  destruct file as [contents|]; [|done]. unfold getWords.
  destruct (decide (newline ∈ contents)) as [Hnl|Hnl].
  - rewrite getWords_loop_Ok by (by apply strings_Split_with_sep).
    unfold mbind, result_bind. rewrite app_nil_l. split.
    + unfold selection. by rewrite length_fmap, length_seq.
    + exists contents. auto.
  - rewrite strings_Split_no_sep by done.
    destruct (Z.to_nat count) as [|n] eqn:Hn.
    + simpl. split; [done|]. exists contents. split; [done|]. left. lia.
    + rewrite getWords_loop_one_entry by done. unfold mbind, result_bind.
      split; [done|]. exists contents. repeat split; [lia|done].
Qed.

(** X13.  Every word [getWords] returns is an entry of the newline-split
    word list and holds no newline, and neither does the ghost text built
    from the words. *)
Theorem selected_words_have_no_newline
    (contents : gostring) (rng : nat -> Z) (count : Z)
    (ws : list gostring) (e : option error) :
  getWords (Some contents) rng count = Ok (ws, e) ->
  (forall w, w ∈ ws ->
     w ∈ strings_Split contents newline /\ newline ∉ w) /\
  newline ∉ ghost_of_words ws.
Proof.
  unfold getWords. unfold mbind, result_bind.
  destruct (getWords_loop _ _ _ _ _) as [ws'|] eqn:Hl; [|done].
  intros [= <- _]. apply getWords_loop_length in Hl as [_ Hin].
  assert (forall w, w ∈ ws' ->
            w ∈ strings_Split contents newline /\ newline ∉ w) as Hws.
  { intros w Hw. apply Hin in Hw as [Hw|Hw]; [by apply elem_of_nil in Hw|].
    split; [done|]. by eapply strings_Split_entries. }
  split; [done|]. unfold ghost_of_words.
  clear Hin. induction ws' as [|w ws' IH]; [apply not_elem_of_nil|].
  assert (newline ∉ w) as Hw by (apply Hws; left).
  assert (newline ∉ strings_Join ws' [space]) as Hrest.
  { apply IH. intros w' Hw'. apply Hws. by right. }
  destruct ws' as [|w' ws'']; [done|].
  change (strings_Join (w :: w' :: ws'') [space])
    with (w ++ space :: strings_Join (w' :: ws'') [space]).
  rewrite elem_of_app, elem_of_cons.
  intros [?|[?|?]]; [done|discriminate|done].
Qed.

Lemma selected_words_have_no_newline_witness :
  let contents := str "cat" ++ [newline] ++ str "dog" ++ [newline] in
  (forall w, w ∈ [str "cat"; str "dog"; str "cat"] ->
     w ∈ strings_Split contents newline /\ newline ∉ w) /\
  newline ∉ ghost_of_words [str "cat"; str "dog"; str "cat"].
Proof.
  apply (selected_words_have_no_newline
           (str "cat" ++ [newline] ++ str "dog" ++ [newline])
           (fun j => Z.of_nat j) 3 [str "cat"; str "dog"; str "cat"] None).
  vm_compute. reflexivity.
Defined.

Lemma strings_Split_app_sep (w rest : gostring) (sep : ascii) :
  sep ∉ w ->
  strings_Split (w ++ sep :: rest) sep = w :: strings_Split rest sep.
Proof.
  induction w as [|c w IH]; simpl.
  - intros _. unfold ascii_eqb. by rewrite bool_decide_eq_true_2.
  - intros [Hc Hw]%not_elem_of_cons. unfold ascii_eqb.
    rewrite bool_decide_eq_false_2 by congruence. by rewrite IH.
Qed.

(** X14.  The ghost text keeps the selected words apart: when no word holds
    a space, splitting the ghost text at its spaces gives back the words
    [main] joined, in order. *)
Theorem ghost_text_splits_into_words (ws : list gostring) :
  ws <> [] -> (forall w, w ∈ ws -> space ∉ w) ->
  strings_Split (ghost_of_words ws) space = ws.
Proof.
  unfold ghost_of_words. induction ws as [|w ws IH]; [done|]. intros _ Hws.
  assert (space ∉ w) as Hw by (apply Hws; left).
  destruct ws as [|w' ws'].
  - simpl. by apply strings_Split_no_sep.
  - change (strings_Join (w :: w' :: ws') [space])
      with (w ++ space :: strings_Join (w' :: ws') [space]).
    rewrite strings_Split_app_sep by done. f_equal.
    apply IH; [done|]. intros w0 Hw0. apply Hws. by right.
Qed.

Lemma ghost_text_splits_into_words_witness :
  strings_Split (ghost_of_words [str "cat"; str "dog"]) space
  = [str "cat"; str "dog"].
Proof.
  apply (ghost_text_splits_into_words [str "cat"; str "dog"]); [done|].
  intros w [->|[->|Hw]%elem_of_cons]%elem_of_cons.
  - vm_compute. set_solver.
  - vm_compute. set_solver.
  - by apply elem_of_nil in Hw.
Defined.

(** ** Skipping through the whole ghost text *)

Lemma Space_step (m : model) (k : nat) :
  aligned m -> TimedOut m = false -> textinput.focus (textInput m) = true ->
  first_space_at (drop (Z.to_nat (cursor m)) (ghostText m)) k ->
  exists m' cmd,
    Update m Space = Ok (m', cmd) /\
    aligned m' /\ TimedOut m' = false /\
    textinput.focus (textInput m') = true /\
    cursor m' = cursor m + Z.of_nat k + 1 /\ ghostText m' = ghostText m.
Proof.
  intros [Hlen Hle] Ht Hf Hk. pose proof (len_nonneg (typed m)) as Hnn.
  pose proof (handleKey_Space_fwd m k Ht ltac:(lia) Hk) as Hh. simpl in Hh.
  pose proof (first_space_at_lt _ _ Hk) as Hlt. rewrite length_drop in Hlt.
  assert (len (typed m ++ replicate k space) + 1 <= len (ghostText m))
    as Hroom.
  { rewrite len_app, len_replicate. unfold len in *. lia. }
  match type of Hh with _ = Ok (Continue ?m1 _) =>
    pose proof (textinput_Update_end (textInput m1) KeySpace eq_refl eq_refl)
      as (Hp & Hf' & Hv);
    destruct (Update_key_fits m KeySpace m1 CmdNil Hh)
      as (m' & cmd & Hu & Hti & Hg & _ & Htm & _)
  end.
  { simpl. simpl in Hv. rewrite Hv, Hf, len_app.
    change (len [space]) with 1. lia. }
  simpl in Hp, Hf', Hv, Hti, Hg, Htm. rewrite Hf in Hv, Hf', Hti, Hp.
  exists m', cmd. split; [done|].
  assert (cursor m' = cursor m + Z.of_nat k + 1) as Hc'.
  { unfold cursor at 1, textinput.Position. rewrite Hti, Hp, Hv.
    rewrite !len_app, len_replicate. change (len [space]) with 1. lia. }
  repeat split; try done.
  - unfold typed, textinput.Value. rewrite Hti, Hv, Hc'.
    rewrite !len_app, len_replicate. change (len [space]) with 1. lia.
  - rewrite Hc', Hg. rewrite len_app, len_replicate in Hroom. lia.
  - unfold TimedOut. by rewrite Htm.
  - by rewrite Hti.
Qed.

Lemma Space_without_delimiter (m : model) :
  aligned m -> TimedOut m = false ->
  space ∉ drop (Z.to_nat (cursor m)) (ghostText m) ->
  Update m Space = Panic NegativeRepeatCount.
Proof.
  intros [Hlen Hle] Ht Hno. pose proof (len_nonneg (typed m)) as Hnn.
  apply index_of_space_None in Hno.
  assert (handleKey m KeySpace = Panic NegativeRepeatCount) as Hk.
  { unfold handleKey. unfold TimedOut in Ht. rewrite Ht.
    rewrite slice_from_Ok by (unfold cursor in *; lia).
    unfold mbind, result_bind, strings_Index.
    unfold cursor in Hno. by rewrite Hno. }
  unfold Update, Space. by rewrite Hk.
Qed.

Lemma first_space_at_join (w : gostring) (rest : gostring) :
  space ∉ w -> first_space_at (w ++ space :: rest) (length w).
Proof.
  intros Hw. split.
  - rewrite lookup_app_r by lia. by rewrite Nat.sub_diag.
  - intros j Hj Hl. rewrite lookup_app_l in Hl by done.
    apply Hw. by eapply list_elem_of_lookup_2.
Qed.

Lemma skip_through_words (rem : list gostring) (m : model) :
  rem <> [] -> Forall (fun w => space ∉ w) rem ->
  aligned m -> TimedOut m = false -> textinput.focus (textInput m) = true ->
  drop (Z.to_nat (cursor m)) (ghostText m) = strings_Join rem [space] ->
  run m (replicate (length rem) Space) = Panic NegativeRepeatCount /\
  forall n, (n < length rem)%nat -> is_Ok (run m (replicate n Space)) = true.
Proof.
  revert m. induction rem as [|w rem IH]; [done|].
  intros m _ Hws Hal Ht Hf Hdrop.
  apply Forall_cons in Hws as [Hw Hws].
  destruct rem as [|w' rest].
  - simpl in Hdrop. split.
    + simpl. rewrite Space_without_delimiter; [done..|]. by rewrite Hdrop.
    + intros [|n] Hn; [done|simpl in Hn; lia].
  - change (strings_Join (w :: w' :: rest) [space])
      with (w ++ space :: strings_Join (w' :: rest) [space]) in Hdrop.
    pose proof (first_space_at_join w (strings_Join (w' :: rest) [space]) Hw)
      as Hfirst.
    rewrite <- Hdrop in Hfirst.
    destruct (Space_step m (length w) Hal Ht Hf Hfirst)
      as (m' & cmd & Hu & Hal' & Ht' & Hf' & Hc' & Hg').
    assert (0 <= cursor m) as Hc0.
    { destruct Hal as [<- _]. apply len_nonneg. }
    destruct (IH m') as [Hpanic Hok]; try done.
    { rewrite Hc', Hg'.
      replace (Z.to_nat (cursor m + Z.of_nat (length w) + 1))
        with (Z.to_nat (cursor m) + (length w + 1))%nat by lia.
      rewrite <- drop_drop, Hdrop.
      rewrite drop_app_add'; [|done]. done. }
    split.
    + change (length (w :: w' :: rest)) with (S (length (w' :: rest))).
      simpl replicate. simpl run. by rewrite Hu.
    + intros [|n] Hn; [done|]. simpl replicate. simpl run. rewrite Hu.
      apply Hok. simpl in *. lia.
Qed.

(** X15.  Skipping with Space through a ghost text made of [n] words that
    hold no space gets through [n - 1] times, each time landing on the
    start of the next word, and panics at the [n]-th press, inside the
    last word where no delimiter is left. *)
Theorem skipping_every_word_panics (ws : list gostring) :
  ws <> [] -> Forall (fun w => space ∉ w) ws ->
  run (initialModel (ghost_of_words ws)) (replicate (length ws) Space)
  = Panic NegativeRepeatCount /\
  forall n, (n < length ws)%nat ->
    is_Ok (run (initialModel (ghost_of_words ws)) (replicate n Space)) = true.
Proof.
  intros Hne Hws.
  apply (skip_through_words ws (initialModel (ghost_of_words ws)));
    try done.
  apply initialModel_aligned.
Qed.

Lemma skipping_every_word_panics_witness :
  run (initialModel (ghost_of_words [str "cat"; str "dog"]))
    (replicate (length [str "cat"; str "dog"]) Space)
  = Panic NegativeRepeatCount /\
  forall n, (n < length [str "cat"; str "dog"])%nat ->
    is_Ok (run (initialModel (ghost_of_words [str "cat"; str "dog"]))
             (replicate n Space)) = true.
Proof.
  apply (skipping_every_word_panics [str "cat"; str "dog"]); [done|].
  repeat constructor; vm_compute; set_solver.
Defined.

(** * The view *)

(** What [View] writes for the ghost character [g] at index [i] when it
    does not break the line there. *)
Definition written_at (typedRunes : list ascii) (cursorPos i : Z) (g : ascii)
    : piece :=
  match typedRunes !! Z.to_nat i with
  | Some t =>
      if bool_decide (t = g) then Render correctTextStyle g
      else if bool_decide (t = space /\ g <> space)
           then Render ghostTextStyle g
           else Render incorrectTextStyle t
  | None =>
      if bool_decide (i = cursorPos) then Render cursorStyle g
      else Render ghostTextStyle g
  end.

Lemma View_loop_cons (i : Z) (g : ascii) (rest typedRunes : list ascii)
    (cursorPos L : Z) :
  View_loop i (g :: rest) typedRunes cursorPos L =
  if (Width <=? L) && ascii_eqb g space then
    builder ← View_loop (i + 1) rest typedRunes cursorPos 0;
    Ok (WriteByte newline :: builder)
  else
    written ←
      (if i <? len typedRunes then
         typedChar ← index typedRunes i;
         if ascii_eqb typedChar g
         then Ok (Render correctTextStyle g)
         else if ascii_eqb typedChar space && negb (ascii_eqb g space)
              then Ok (Render ghostTextStyle g)
              else Ok (Render incorrectTextStyle typedChar)
       else if i =? cursorPos
            then Ok (Render cursorStyle g)
            else Ok (Render ghostTextStyle g));
    builder ← View_loop (i + 1) rest typedRunes cursorPos
                (if ascii_eqb g newline then 0 else L + 1);
    Ok (written :: builder).
Proof. reflexivity. Qed.

Lemma written_Ok (typedRunes : list ascii) (cursorPos i : Z) (g : ascii) :
  0 <= i ->
  (if i <? len typedRunes then
     typedChar ← index typedRunes i;
     if ascii_eqb typedChar g
     then Ok (Render correctTextStyle g)
     else if ascii_eqb typedChar space && negb (ascii_eqb g space)
          then Ok (Render ghostTextStyle g)
          else Ok (Render incorrectTextStyle typedChar)
   else if i =? cursorPos
        then Ok (Render cursorStyle g)
        else Ok (Render ghostTextStyle g))
  = Ok (written_at typedRunes cursorPos i g).
Proof.
  intros Hi. unfold written_at. destruct (i <? len typedRunes) eqn:Hlt.
  - destruct (index_in_range typedRunes i) as [t Ht]; [lia|].
    rewrite Ht. unfold mbind, result_bind.
    apply index_Ok in Ht as [_ ->]. unfold ascii_eqb.
    destruct (decide (t = g)) as [->|Hne].
    + by rewrite !bool_decide_eq_true_2 by done.
    + rewrite !(bool_decide_eq_false_2 (t = g)) by done.
      destruct (decide (t = space)) as [->|Hts];
        destruct (decide (g = space)) as [->|Hgs];
        rewrite ?bool_decide_eq_true_2, ?bool_decide_eq_false_2 by tauto;
        simpl;
        rewrite ?bool_decide_eq_true_2, ?bool_decide_eq_false_2 by tauto;
        done.
  - rewrite lookup_ge_None_2 by (unfold len in *; lia).
    destruct (i =? cursorPos) eqn:Hc.
    + by rewrite bool_decide_eq_true_2 by lia.
    + by rewrite bool_decide_eq_false_2 by lia.
Qed.

Lemma View_loop_Ok (ghostRunes typedRunes : list ascii) (cursorPos : Z)
    (i currentLineLength : Z) :
  0 <= i ->
  exists builder,
    View_loop i ghostRunes typedRunes cursorPos currentLineLength = Ok builder /\
    length builder = length ghostRunes /\
    forall (n : nat) (p : piece), builder !! n = Some p ->
      exists g, ghostRunes !! n = Some g /\
        (p = WriteByte newline /\ g = space \/
         p = written_at typedRunes cursorPos (i + Z.of_nat n) g).
Proof.
  revert i currentLineLength.
  induction ghostRunes as [|g rest IH]; intros i L Hi.
  - exists []. by repeat split.
  - rewrite View_loop_cons.
    destruct ((Width <=? L) && ascii_eqb g space) eqn:Hbreak.
    + destruct (IH (i + 1) 0 ltac:(lia)) as (b & Hb & Hlen & Hp).
      rewrite Hb. unfold mbind, result_bind.
      apply andb_true_iff in Hbreak as [_ ->%ascii_eqb_eq].
      eexists. split; [done|]. split; [simpl; lia|].
      intros [|n] p Hn; simpl in Hn.
      * injection Hn as <-. exists space. split; [done|]. by left.
      * apply Hp in Hn as (g' & Hg' & Hcase). exists g'. split; [done|].
        by replace (i + Z.of_nat (S n)) with (i + 1 + Z.of_nat n) by lia.
    + rewrite written_Ok by done.
      destruct (IH (i + 1) (if ascii_eqb g newline then 0 else L + 1)
                  ltac:(lia)) as (b & Hb & Hlen & Hp).
      unfold mbind at 1, result_bind at 1. rewrite Hb.
      unfold mbind, result_bind.
      eexists. split; [done|]. split; [simpl; lia|].
      intros [|n] p Hn; simpl in Hn.
      * injection Hn as <-. exists g. split; [done|]. right.
        by rewrite Z.add_0_r.
      * apply Hp in Hn as (g' & Hg' & Hcase). exists g'. split; [done|].
        by replace (i + Z.of_nat (S n)) with (i + 1 + Z.of_nat n) by lia.
Qed.

(** X16.  [View] never panics, whatever the state.  Before the time-out it
    writes exactly one piece per character of the ghost text: a line break
    in place of a ghost space, or the character at that index rendered as
    correct, skipped (a typed space over a letter, in the ghost style),
    incorrect (showing the typed character), cursor or ghost.  After the
    time-out the text is replaced by the one summary of words per minute
    and accuracy. *)
Theorem View_writes_one_piece_per_character (m : model) :
  exists scr,
    View m = Ok scr /\
    view_wpm scr = wordsPerMinute m /\ view_acc scr = accuracy m /\
    if TimedOut m
    then view_text scr = [Summary (wordsPerMinute m) (accuracy m)]
    else length (view_text scr) = length (ghostText m) /\
         forall (n : nat) (p : piece), view_text scr !! n = Some p ->
           exists g, ghostText m !! n = Some g /\
             (p = WriteByte newline /\ g = space \/
              p = written_at (typed m) (cursor m) (Z.of_nat n) g).
Proof.
  unfold View, TimedOut.
  destruct (View_loop_Ok (ghostText m) (textinput.Value (textInput m))
              (textinput.Position (textInput m)) 0 0 ltac:(lia))
    as (b & -> & Hlen & Hp).
  unfold mbind, result_bind. eexists. split; [done|]. simpl.
  split; [done|]. split; [done|].
  destruct (timer.Timedout (timer m)); [done|]. split; [done|].
  intros n p Hn. apply Hp in Hn as (g & Hg & Hcase). exists g.
  split; [done|]. by rewrite Z.add_0_l in Hcase.
Qed.

Definition is_Render (p : option piece) : Prop :=
  exists s c, p = Some (Render s c).

Lemma written_at_is_Render (typedRunes : list ascii) (cursorPos i : Z)
    (g : ascii) :
  exists s c, written_at typedRunes cursorPos i g = Render s c.
Proof.
  unfold written_at. destruct (typedRunes !! Z.to_nat i);
    repeat case_bool_decide; by eexists _, _.
Qed.

Lemma View_loop_breaks (ghostRunes typedRunes : list ascii) (cursorPos : Z)
    (i L : Z) (builder : list piece) (n : nat) :
  0 <= i -> 0 <= L ->
  View_loop i ghostRunes typedRunes cursorPos L = Ok builder ->
  builder !! n = Some (WriteByte newline) ->
  ghostRunes !! n = Some space /\ Width <= L + Z.of_nat n /\
  forall j : nat, (j < n)%nat -> Z.of_nat n <= Z.of_nat j + Width ->
    is_Render (builder !! j).
Proof.
  revert i L builder n.
  induction ghostRunes as [|g rest IH]; intros i L builder n Hi HL.
  - simpl. by intros [= <-].
  - rewrite View_loop_cons.
    destruct ((Width <=? L) && ascii_eqb g space) eqn:Hbreak.
    + destruct (View_loop (i + 1) rest typedRunes cursorPos 0) as [b|] eqn:Hb;
        [|done].
      unfold mbind, result_bind. intros [= <-].
      apply andb_true_iff in Hbreak as [HW ->%ascii_eqb_eq].
      destruct n as [|n]; simpl.
      * intros _. split; [done|]. split; [lia|]. intros j Hj. lia.
      * intros Hn.
        destruct (IH (i + 1) 0 b n ltac:(lia) ltac:(lia) Hb Hn)
          as (Hg & Hw & Hr).
        split; [done|]. split; [lia|]. intros [|j] Hj Hnear; [lia|].
        simpl. apply Hr; lia.
    + rewrite written_Ok by done.
      unfold mbind at 1, result_bind at 1.
      destruct (View_loop (i + 1) rest typedRunes cursorPos _) as [b|] eqn:Hb;
        [|done].
      unfold mbind, result_bind. intros [= <-].
      destruct (written_at_is_Render typedRunes cursorPos i g) as (s & c & Hw).
      destruct n as [|n]; simpl; [by rewrite Hw|].
      intros Hn.
      assert (0 <= (if ascii_eqb g newline then 0 else L + 1) <= L + 1) as HL'
        by (destruct (ascii_eqb g newline); lia).
      destruct (IH (i + 1) (if ascii_eqb g newline then 0 else L + 1) b n
                  ltac:(lia) ltac:(lia) Hb Hn) as (Hg & Hwd & Hr).
      split; [done|]. split; [lia|]. intros [|j] Hj Hnear.
      * simpl. by exists s, c; rewrite Hw.
      * simpl. apply Hr; lia.
Qed.

Lemma View_text (m : model) (scr : screen) :
  View m = Ok scr -> TimedOut m = false ->
  View_loop 0 (ghostText m) (typed m) (cursor m) 0 = Ok (view_text scr).
Proof.
  unfold View, TimedOut, typed, cursor. intros H Ht.
  destruct (View_loop 0 _ _ _ 0) as [b|]; [|done].
  unfold mbind, result_bind in H. rewrite Ht in H. by injection H as <-.
Qed.

(** X17.  Before the time-out [View] breaks a line only in place of a space
    of the ghost text, and only when the 80 pieces before it are rendered
    characters: a line it wraps holds at least 80 characters. *)
Theorem View_wraps_at_spaces_after_width (m : model) (scr : screen) (n : nat) :
  View m = Ok scr -> TimedOut m = false ->
  view_text scr !! n = Some (WriteByte newline) ->
  ghostText m !! n = Some space /\ Width <= Z.of_nat n /\
  forall j : nat, (j < n)%nat -> Z.of_nat n <= Z.of_nat j + Width ->
    is_Render (view_text scr !! j).
Proof.
  intros Hv Ht Hn. apply View_text in Hv; [|done].
  destruct (View_loop_breaks _ _ _ 0 0 _ n ltac:(lia) ltac:(lia) Hv Hn)
    as (Hg & Hw & Hr).
  split; [done|]. split; [lia|done].
Qed.

(** A ghost text of 81 letters, a space and one more letter. *)
Definition long_line : gostring :=
  replicate 81 "a"%char ++ [space] ++ ["b"%char].

Lemma View_wraps_at_spaces_after_width_witness :
  ghostText (initialModel long_line) !! 81%nat = Some space /\
  Width <= Z.of_nat 81 /\
  forall j : nat, (j < 81)%nat -> Z.of_nat 81 <= Z.of_nat j + Width ->
    is_Render
      (view_text
         (match View (initialModel long_line) with
          | Ok scr => scr
          | Panic _ => mkscreen 0 0 (accuracy (initialModel long_line)) []
          end) !! j).
Proof.
  apply (View_wraps_at_spaces_after_width (initialModel long_line)
           (match View (initialModel long_line) with
            | Ok scr => scr
            | Panic _ => mkscreen 0 0 (accuracy (initialModel long_line)) []
            end) 81).
  - vm_compute. reflexivity.
  - reflexivity.
  - vm_compute. reflexivity.
Defined.

(** X18.  In a started session before the time-out, every character that
    [View] shows in the incorrect style, and every skipped letter it shows
    in the ghost style inside the typed text, sits at an error position. *)
Theorem View_shows_errors_at_error_positions
    (text : gostring) (msgs : list Msg) (m : model) (scr : screen)
    (n : nat) (c : ascii) :
  run (initialModel text) msgs = Ok m -> started m = true ->
  TimedOut m = false -> View m = Ok scr ->
  view_text scr !! n = Some (Render incorrectTextStyle c) \/
  view_text scr !! n = Some (Render ghostTextStyle c) /\
  (n < length (typed m))%nat ->
  Z.of_nat n ∈ errorPositions m.
Proof.
  intros Hr Hs Ht Hv Hshown.
  assert (marked_inv (initialModel text)) as Hinit by (intros [=]).
  pose proof (run_marked_inv _ _ _ Hinit Hr Hs) as Hsub.
  apply View_text in Hv; [|done].
  destruct (View_loop_Ok (ghostText m) (typed m) (cursor m) 0 0 ltac:(lia))
    as (b & Hb & _ & Hp).
  rewrite Hb in Hv. injection Hv as Hbeq. rewrite <- Hbeq in Hshown.
  assert (exists t g, typed m !! n = Some t /\ ghostText m !! n = Some g /\
                      t <> g) as (t & g & Ht' & Hg & Hne).
  { assert (exists p g, p <> Render correctTextStyle g /\
                        b !! n = Some p /\ is_Some (typed m !! n) /\
                        ghostText m !! n = Some g /\
                        p = written_at (typed m) (cursor m) (Z.of_nat n) g)
      as (p & g & Hp' & Hn & [t Ht'] & Hg & Hw).
    { destruct Hshown as [Hn|[Hn Hlt]];
        pose proof Hn as (g & Hg & [[[=] _]|Hw])%Hp;
        rewrite Z.add_0_l in Hw; eexists _, g;
        (split; [|split; [exact Hn|split; [|split; [exact Hg|exact Hw]]]]);
        try done.
      - unfold written_at in Hw. rewrite Nat2Z.id in Hw.
        destruct (typed m !! n); [done|]. by case_bool_decide.
      - by apply lookup_lt_is_Some_2. }
    exists t, g. split; [done|]. split; [done|]. intros ->.
    unfold written_at in Hw. rewrite Nat2Z.id, Ht' in Hw.
    by rewrite bool_decide_eq_true_2 in Hw by done. }
  apply Hsub. replace (Z.of_nat n) with (0 + Z.of_nat n) by lia.
  apply (mismatches_intro 0 _ _ n t); [lia|done|].
  rewrite Z.add_0_l, Nat2Z.id, Hg. congruence.
Qed.

Lemma View_shows_errors_at_error_positions_witness :
  Z.of_nat 1 ∈ errorPositions (session "cat dog" (chars "c" ++ [Space])).
Proof.
  apply (View_shows_errors_at_error_positions (str "cat dog")
           (chars "c" ++ [Space])
           (session "cat dog" (chars "c" ++ [Space]))
           (match View (session "cat dog" (chars "c" ++ [Space])) with
            | Ok scr => scr
            | Panic _ => mkscreen 0 0 (F32.of_int 0) []
            end) 1 "a").
  - vm_compute. reflexivity.
  - reflexivity.
  - reflexivity.
  - vm_compute. reflexivity.
  - right. split; [vm_compute; reflexivity|]. vm_compute. lia.
Defined.

(** * The first revision *)

Lemma Update_v1_Continue (m : model) (k : Key) (m1 : model) (c1 : Cmd) :
  handleKey m k = Ok (Continue m1 c1) ->
  Update_v1 (mkmodel_v1 (textInput m) (ghostText m)) (KeyMsg k)
  = Ok (mkmodel_v1 (textinput.Update (textInput m1) k).1 (ghostText m1),
        (textinput.Update (textInput m1) k).2).
Proof.
  intros Hk. destruct k.
  - unfold handleKey in Hk. discriminate Hk.
  - unfold handleKey in Hk. discriminate Hk.
  - unfold handleKey in Hk. unfold Update_v1. cbn [textInput_v1 ghostText_v1].
    unfold mbind, result_bind in *.
    repeat (match type of Hk with
            | context [match ?r with Ok _ => _ | Panic _ => _ end] =>
                destruct r eqn:?
            | context [if ?c then _ else _] => destruct c eqn:?
            end; try discriminate Hk);
      injection Hk as <- _; cbn [textInput ghostText with_ghostText];
      by destruct (textinput.Update _ _).
  - apply handleKey_Space_inv in Hk
      as [[_ [=]]|(_ & Hr & j & Hj & Hidx & Hm1)].
    cbv zeta in Hm1. injection Hm1 as -> _.
    unfold Update_v1. cbn [textInput_v1 ghostText_v1].
    unfold cursor in Hr, Hidx.
    rewrite slice_from_Ok by done. unfold mbind, result_bind.
    rewrite Hidx, strings_Repeat_space by done.
    rewrite set_value_cursor. cbn [textInput ghostText with_textInput].
    unfold typed. by destruct (textinput.Update _ _).
  - apply handleKey_Runes_inv in Hk
      as [[_ [=]]|(_ & ch & Hch & cmd & [= -> _])].
    unfold Update_v1. cbn [textInput_v1 ghostText_v1].
    unfold cursor in Hch. rewrite Hch. unfold mbind, result_bind.
    apply index_Ok in Hch as [Hr _].
    cbn [textInput ghostText with_started with_ghostText].
    destruct (ascii_eqb ch space); cbn [negb].
    + rewrite slice_to_Ok, slice_from_Ok by lia. unfold elongate, cursor.
      by destruct (textinput.Update _ _).
    + by destruct (textinput.Update _ _).
  - unfold handleKey in Hk. injection Hk as <- _. unfold Update_v1.
    cbn [textInput_v1 ghostText_v1]. unfold mbind, result_bind.
    by destruct (textinput.Update _ _).
  - unfold handleKey in Hk. injection Hk as <- _. unfold Update_v1.
    cbn [textInput_v1 ghostText_v1]. unfold mbind, result_bind.
    by destruct (textinput.Update _ _).
  - unfold handleKey in Hk. injection Hk as <- _. unfold Update_v1.
    cbn [textInput_v1 ghostText_v1]. unfold mbind, result_bind.
    by destruct (textinput.Update _ _).
  - unfold handleKey in Hk. injection Hk as <- _. unfold Update_v1.
    cbn [textInput_v1 ghostText_v1]. unfold mbind, result_bind.
    by destruct (textinput.Update _ _).
  - unfold handleKey in Hk. injection Hk as <- _. unfold Update_v1.
    cbn [textInput_v1 ghostText_v1]. unfold mbind, result_bind.
    by destruct (textinput.Update _ _).
Qed.


